(** * renLD: service-calendar resolution and train position simulation

    A shallow embedding of [services/gtfsParser.ts] ([timeToSeconds], the
    tables [parseGTFSZip] builds from the parsed rows, and
    [getActiveTripsForToday]), of [services/trainSimulator.ts]
    ([interpolate], [getBearing], [calculateTrainPositions]) and of their
    callers ([tick] and [handleSearch] of [App], the marker filter of
    [TrainMap], [formatTime] of [Sidebar]), with the properties of the
    schedule-to-state engine proved about them.

    Modelling conventions.
    - A JavaScript [Map<string, V>] is an association list in insertion
      order whose keys are unique; [forEach] walks it front to back, which
      is what fixes the order of the trip ids the resolver returns.
    - A JavaScript [Set<string>] is a duplicate-free list of strings.
    - A string is a sequence of code units below 256: the characters of
      Latin-1, each one code unit.  Among them the language's white space
      is the characters 9 to 13, the space 32 and the no-break space 160.
    - Times of day are integers ([Z]); an [arrival_seconds] or
      [departure_seconds] that the [||] operator treats as absent
      ([undefined], [NaN]) is [None].  An integer stands for the JavaScript
      number that holds it exactly, which there is up to [2^53]; a theorem
      that quantifies over the integers a text encodes carries that bound.
    - Coordinates and bearings are JavaScript numbers ([number]): a real
      number, [NaN], or an infinity.  Arithmetic on the real numbers is
      exact: the rounding of IEEE doubles and the sign of zero are outside
      this model.
    - The tables hold the rows of the feed as the CSV reader returns them,
      so a field whose column the file lacks is [undefined].  The fields
      the code calls a method on ([stop_name], [trip_headsign]) are
      optional for that reason; the ids, which are the keys of the tables,
      are taken as present.
    - Reading a property of [undefined] raises; this is the [TypeError]
      outcome of the [result] type. *)

From Stdlib Require Import ZArith List String Ascii Bool Lia.
From Stdlib Require Import Reals Lra.
From Stdlib Require Import DecimalString.
From Stdlib Require DecimalPos.
From Stdlib Require Import Sorted Permutation.
Import ListNotations.

Local Open Scope string_scope.
Local Open Scope list_scope.
Local Open Scope Z_scope.

(* ================================================================== *)
(** ** Outcomes of JavaScript evaluation *)

Inductive result (A : Type) : Type :=
| Ok (a : A)
| TypeError.

Arguments Ok {A} a.
Arguments TypeError {A}.

Definition bind {A B : Type} (r : result A) (k : A -> result B) : result B :=
  match r with
  | Ok a => k a
  | TypeError => TypeError
  end.

Notation "x <- r ;; k" := (bind r (fun x => k))
  (at level 61, r at next level, right associativity).

(** [o.f] where [o] may be [undefined]. *)
Definition prop {A B : Type} (o : option A) (f : A -> B) : result B :=
  match o with
  | Some a => Ok (f a)
  | None => TypeError
  end.

(** [x || 0] on an optional number. *)
Definition orZero (x : option Z) : Z :=
  match x with
  | Some n => n
  | None => 0
  end.

(* ================================================================== *)
(** ** JavaScript [Map] and [Set] keyed by strings *)

Module JsMap.

Definition Map (V : Type) : Type := list (string * V).

Fixpoint get {V : Type} (m : Map V) (k : string) : option V :=
  match m with
  | [] => None
  | (k', v) :: m' => if String.eqb k' k then Some v else get m' k
  end.

Definition has {V : Type} (m : Map V) (k : string) : bool :=
  match get m k with
  | Some _ => true
  | None => false
  end.

(** [m.set(k, v)]: an existing key keeps its place, a new one goes last. *)
Fixpoint set {V : Type} (m : Map V) (k : string) (v : V) : Map V :=
  match m with
  | [] => [(k, v)]
  | (k', v') :: m' =>
      if String.eqb k' k then (k, v) :: m' else (k', v') :: set m' k v
  end.

(** [m.forEach((v, k) => ...)] threading the state the callback mutates. *)
Definition forEach {V S : Type} (m : Map V) (f : S -> V -> string -> S)
  (s : S) : S :=
  fold_left (fun acc kv => f acc (snd kv) (fst kv)) m s.

Definition keys {V : Type} (m : Map V) : list string := map fst m.
Definition values {V : Type} (m : Map V) : list V := map snd m.

Fixpoint uniqueb (l : list string) : bool :=
  match l with
  | [] => true
  | k :: l' => negb (existsb (String.eqb k) l') && uniqueb l'
  end.

(** The invariant of a [Map]: no key occurs twice. *)
Definition wf {V : Type} (m : Map V) : bool := uniqueb (keys m).

End JsMap.

Module JsSet.

Definition t : Type := list string.

Definition empty : t := [].

Definition has (s : t) (x : string) : bool := existsb (String.eqb x) s.

Definition add (s : t) (x : string) : t := if has s x then s else s ++ [x].

Definition delete (s : t) (x : string) : t :=
  filter (fun y => negb (String.eqb x y)) s.

End JsSet.

(* ================================================================== *)
(** ** JavaScript numbers

    What a coordinate or an angle can be: a real number, [NaN], or one of
    the two infinities.  [parseFloat] gives [NaN] for a blank or
    non-numeric cell and an infinity for the text [Infinity] or for a
    numeral out of range.  The operations are the language's, exact on the
    real numbers; a zero is taken as positive where its sign would decide
    (the divisor of [/], the arguments of [Math.atan2]). *)

Inductive number : Type :=
| Num (r : R)
| NaN
| PosInfinity
| NegInfinity.

Bind Scope R_scope with number.

Coercion Num : R >-> number.


Inductive Sign : Type := Negative | Zero | Positive.

Definition signOf (x : R) : Sign :=
  if Rlt_dec 0 x then Positive else if Rlt_dec x 0 then Negative else Zero.

Definition opposite (s : Sign) : Sign :=
  match s with
  | Negative => Positive
  | Zero => Zero
  | Positive => Negative
  end.

(** The infinity of a sign; there is none for zero, where the operations
    that ask give [NaN]. *)
Definition infinityOf (s : Sign) : number :=
  match s with
  | Negative => NegInfinity
  | Zero => NaN
  | Positive => PosInfinity
  end.

(** [-a]. *)
Definition Number_neg (a : number) : number :=
  match a with
  | Num x => Num (- x)
  | NaN => NaN
  | PosInfinity => NegInfinity
  | NegInfinity => PosInfinity
  end.

(** [a + b]. *)
Definition Number_add (a b : number) : number :=
  match a, b with
  | Num x, Num y => Num (x + y)
  | NaN, _ => NaN
  | _, NaN => NaN
  | PosInfinity, NegInfinity => NaN
  | NegInfinity, PosInfinity => NaN
  | PosInfinity, _ => PosInfinity
  | _, PosInfinity => PosInfinity
  | NegInfinity, _ => NegInfinity
  | _, NegInfinity => NegInfinity
  end.

(** [a - b]. *)
Definition Number_sub (a b : number) : number := Number_add a (Number_neg b).

(** [a * b]. *)
Definition Number_mul (a b : number) : number :=
  match a, b with
  | Num x, Num y => Num (x * y)
  | NaN, _ => NaN
  | _, NaN => NaN
  | PosInfinity, Num y => infinityOf (signOf y)
  | Num x, PosInfinity => infinityOf (signOf x)
  | NegInfinity, Num y => infinityOf (opposite (signOf y))
  | Num x, NegInfinity => infinityOf (opposite (signOf x))
  | PosInfinity, PosInfinity => PosInfinity
  | NegInfinity, NegInfinity => PosInfinity
  | PosInfinity, NegInfinity => NegInfinity
  | NegInfinity, PosInfinity => NegInfinity
  end.

(** [a / b]. *)
Definition Number_div (a b : number) : number :=
  match a, b with
  | Num x, Num y =>
      if Req_dec_T y 0 then infinityOf (signOf x) else Num (x / y)
  | NaN, _ => NaN
  | _, NaN => NaN
  | Num _, _ => Num 0
  | PosInfinity, Num y => if Rlt_dec y 0 then NegInfinity else PosInfinity
  | NegInfinity, Num y => if Rlt_dec y 0 then PosInfinity else NegInfinity
  | _, _ => NaN
  end.

(** Rounding toward zero. *)
Definition truncate (x : R) : Z :=
  if Rle_dec 0 x then Int_part x else - Int_part (- x).

(** [a % b]: the remainder whose quotient is rounded toward zero. *)
Definition Number_rem (a b : number) : number :=
  match a, b with
  | Num x, Num y =>
      if Req_dec_T y 0 then NaN else Num (x - y * IZR (truncate (x / y)))
  | Num x, PosInfinity => Num x
  | Num x, NegInfinity => Num x
  | _, _ => NaN
  end.

Definition Math_sin (a : number) : number :=
  match a with
  | Num x => Num (sin x)
  | _ => NaN
  end.

Definition Math_cos (a : number) : number :=
  match a with
  | Num x => Num (cos x)
  | _ => NaN
  end.

(** The angle of the point [(x, y)] of the plane, in [(-PI, PI]], and [0]
    at the origin. *)
Definition angleOf (y x : R) : R :=
  if Rlt_dec 0 x then atan (y / x)
  else if Rlt_dec x 0 then
    if Rle_dec 0 y then (atan (y / x) + PI)%R else (atan (y / x) - PI)%R
  else if Rlt_dec 0 y then (PI / 2)%R
  else if Rlt_dec y 0 then (- (PI / 2))%R
  else 0%R.

(** [Math.atan2(y, x)]. *)
Definition Math_atan2 (y x : number) : number :=
  match y, x with
  | Num b, Num a => Num (angleOf b a)
  | NaN, _ => NaN
  | _, NaN => NaN
  | PosInfinity, PosInfinity => Num (PI / 4)
  | PosInfinity, NegInfinity => Num (3 * PI / 4)
  | PosInfinity, Num _ => Num (PI / 2)
  | NegInfinity, PosInfinity => Num (- (PI / 4))
  | NegInfinity, NegInfinity => Num (- (3 * PI / 4))
  | NegInfinity, Num _ => Num (- (PI / 2))
  | Num _, PosInfinity => Num 0
  | Num b, NegInfinity => if Rlt_dec b 0 then Num (- PI) else Num PI
  end.

(* ================================================================== *)
(** ** The records of [types.ts]

    Rocq's record fields share one name space, so a field name that several
    interfaces use carries a prefix outside its first record:
    [Trip.route_id] is [trip_route_id], [StopTime.trip_id] and
    [StopTime.stop_id] are [st_trip_id] and [st_stop_id],
    [Calendar.service_id] and [CalendarDate.service_id] are [cal_service_id]
    and [cd_service_id], and [TrainPosition.trip_id] is [pos_trip_id].
    [Stop.stop_name] and [Trip.trip_headsign] are declared as strings and
    are optional here: the loader stores the rows unchecked, and the search
    calls a method on them. *)

Record Stop : Type := mkStop {
  stop_id : string;
  stop_name : option string;
  stop_lat : number;
  stop_lon : number
}.

Record Route : Type := mkRoute {
  route_id : string;
  route_short_name : string;
  route_long_name : string;
  route_type : string;
  route_color : option string;
  route_text_color : option string
}.

Record Trip : Type := mkTrip {
  trip_route_id : string;
  service_id : string;
  trip_id : string;
  trip_headsign : option string;
  trip_short_name : option string;
  direction_id : option string
}.

Record StopTime : Type := mkStopTime {
  st_trip_id : string;
  arrival_time : string;
  departure_time : string;
  st_stop_id : string;
  stop_sequence : Z;
  arrival_seconds : option Z;
  departure_seconds : option Z
}.

Record Calendar : Type := mkCalendar {
  cal_service_id : string;
  monday : string;
  tuesday : string;
  wednesday : string;
  thursday : string;
  friday : string;
  saturday : string;
  sunday : string;
  start_date : string;
  end_date : string
}.

Record CalendarDate : Type := mkCalendarDate {
  cd_service_id : string;
  date : string;
  exception_type : string
}.

(** [ExtendedGTFSData]; [calendarDates] is optional because
    [getActiveTripsForToday] tests it before use. *)
Record GTFSData : Type := mkGTFSData {
  stops : JsMap.Map Stop;
  routes : JsMap.Map Route;
  trips : JsMap.Map Trip;
  stopTimes : JsMap.Map (list StopTime);
  calendar : JsMap.Map Calendar;
  calendarDates : option (JsMap.Map (list CalendarDate))
}.

Inductive Status : Type := MOVING | AT_STOP | SCHEDULED | ENDED.

Record TrainPosition : Type := mkTrainPosition {
  pos_trip_id : string;
  lat : number;
  lng : number;
  bearing : number;
  nextStop : option Stop;
  prevStop : option Stop;
  route : option Route;
  trip : option Trip;
  status : Status;
  speedEstimate : option number
}.

(** What [getActiveTripsForToday] reads of a JavaScript [Date]. *)
Record Date : Type := mkDate {
  getFullYear : Z;
  getMonth : Z;
  getDate : Z;
  getDay : Z
}.

(* ================================================================== *)
(** ** The string and number primitives the resolver uses *)

(** [n.toString()] for an integer. *)
Definition toString (n : Z) : string := NilZero.string_of_int (Z.to_int n).

Fixpoint repeatString (fill : string) (n : nat) : string :=
  match n with
  | O => ""
  | S n' => (fill ++ repeatString fill n')%string
  end.

(** [s.padStart(targetLength, fill)]. *)
Definition padStart (s : string) (targetLength : nat) (fill : string) : string :=
  let missing := (targetLength - String.length s)%nat in
  (substring 0 missing (repeatString fill missing) ++ s)%string.

(** The white space that [trim] and [parseInt] strip: tab, line feed,
    vertical tab, form feed, carriage return, space and no-break space. *)
Definition isWhiteSpace (c : ascii) : bool :=
  let n := nat_of_ascii c in
  (Nat.eqb n 32 || ((9 <=? n) && (n <=? 13)) || Nat.eqb n 160)%nat.

Fixpoint trimStart (s : string) : string :=
  match s with
  | String c s' => if isWhiteSpace c then trimStart s' else s
  | EmptyString => s
  end.

Definition digitValue (radix : Z) (c : ascii) : option Z :=
  let n := Z.of_nat (nat_of_ascii c) in
  let v :=
    if (48 <=? n) && (n <=? 57) then Some (n - 48)
    else if (97 <=? n) && (n <=? 122) then Some (n - 87)
    else if (65 <=? n) && (n <=? 90) then Some (n - 55)
    else None in
  match v with
  | Some d => if d <? radix then Some d else None
  | None => None
  end.

(** The value of the longest prefix of digits; [None] when there is none. *)
Fixpoint digitsPrefix (radix : Z) (s : string) (acc : option Z) : option Z :=
  match s with
  | String c s' =>
      match digitValue radix c with
      | Some d => digitsPrefix radix s' (Some (orZero acc * radix + d))
      | None => acc
      end
  | EmptyString => acc
  end.

(** [parseInt(s)] without a radix argument; [None] is [NaN]. *)
Definition parseInt (s : string) : option Z :=
  let s1 := trimStart s in
  let '(sign, s2) :=
    match s1 with
    | String "-" r => (-1, r)
    | String "+" r => (1, r)
    | _ => (1, s1)
    end in
  let '(radix, s3) :=
    match s2 with
    | String "0" (String "x" r) => (16, r)
    | String "0" (String "X" r) => (16, r)
    | _ => (10, s2)
    end in
  match digitsPrefix radix s3 None with
  | Some n => Some (sign * n)
  | None => None
  end.

(** [a >= b] and [a <= b] on numbers that may be [NaN]. *)
Definition num_ge (a b : option Z) : bool :=
  match a, b with
  | Some x, Some y => y <=? x
  | _, _ => false
  end.

Definition num_le (a b : option Z) : bool :=
  match a, b with
  | Some x, Some y => x <=? y
  | _, _ => false
  end.

(** [a[i]] on an array, [undefined] outside it. *)
Definition index {A : Type} (a : list A) (i : Z) : option A :=
  if i <? 0 then None else nth_error a (Z.to_nat i).

(** [s === t] on an optional string against a literal. *)
Definition strictEq (o : option string) (t : string) : bool :=
  match o with
  | Some s => String.eqb s t
  | None => false
  end.

(* ================================================================== *)
(** ** [parseGTFSZip]: grouping of [calendar_dates.txt] *)

Definition groupCalendarDate (calendarDates : JsMap.Map (list CalendarDate))
  (cd : CalendarDate) : JsMap.Map (list CalendarDate) :=
  let calendarDates1 :=
    if negb (JsMap.has calendarDates (cd_service_id cd))
    then JsMap.set calendarDates (cd_service_id cd) []
    else calendarDates in
  match JsMap.get calendarDates1 (cd_service_id cd) with
  | Some l => JsMap.set calendarDates1 (cd_service_id cd) (l ++ [cd])
  | None => calendarDates1
  end.

Definition parseCalendarDates (calendarDatesRaw : list CalendarDate)
  : JsMap.Map (list CalendarDate) :=
  fold_left groupCalendarDate calendarDatesRaw [].

(* ================================================================== *)
(** ** [getActiveTripsForToday] *)

Definition days : list string :=
  ["sunday"; "monday"; "tuesday"; "wednesday"; "thursday"; "friday";
   "saturday"].

(** [(cal as any)[name]]. *)
Definition calendarField (cal : Calendar) (name : option string)
  : option string :=
  match name with
  | None => None
  | Some n =>
      if String.eqb n "service_id" then Some (cal_service_id cal)
      else if String.eqb n "monday" then Some (monday cal)
      else if String.eqb n "tuesday" then Some (tuesday cal)
      else if String.eqb n "wednesday" then Some (wednesday cal)
      else if String.eqb n "thursday" then Some (thursday cal)
      else if String.eqb n "friday" then Some (friday cal)
      else if String.eqb n "saturday" then Some (saturday cal)
      else if String.eqb n "sunday" then Some (sunday cal)
      else if String.eqb n "start_date" then Some (start_date cal)
      else if String.eqb n "end_date" then Some (end_date cal)
      else None
  end.

Definition todayStr (d : Date) : option string := index days (getDay d).

Definition dateStr (d : Date) : string :=
  let yyyy := toString (getFullYear d) in
  let mm := padStart (toString (getMonth d + 1)) 2 "0" in
  let dd := padStart (toString (getDate d)) 2 "0" in
  (yyyy ++ mm ++ dd)%string.

Definition dateInt (d : Date) : option Z := parseInt (dateStr d).

(** The test the calendar callback makes on one rule. *)
Definition ruleMatches (d : Date) (cal : Calendar) : bool :=
  let start := parseInt (start_date cal) in
  let end_ := parseInt (end_date cal) in
  if num_ge (dateInt d) start && num_le (dateInt d) end_
  then strictEq (calendarField cal (todayStr d)) "1"
  else false.

(** Step 1, [gtfs.calendar.forEach]. *)
Definition checkStandardCalendar (gtfs : GTFSData) (d : Date) : JsSet.t :=
  JsMap.forEach (calendar gtfs)
    (fun activeServiceIds cal _ =>
       if ruleMatches d cal
       then JsSet.add activeServiceIds (cal_service_id cal)
       else activeServiceIds)
    JsSet.empty.

(** The callback of the inner [dates.forEach]. *)
Definition applyException (today : string) (serviceId : string)
  (activeServiceIds : JsSet.t) (cd : CalendarDate) : JsSet.t :=
  if String.eqb (date cd) today then
    if String.eqb (exception_type cd) "1" then JsSet.add activeServiceIds serviceId
    else if String.eqb (exception_type cd) "2" then JsSet.delete activeServiceIds serviceId
    else activeServiceIds
  else activeServiceIds.

(** Step 2, [gtfs.calendarDates.forEach], behind its guard. *)
Definition checkExceptions (gtfs : GTFSData) (d : Date)
  (activeServiceIds : JsSet.t) : JsSet.t :=
  match calendarDates gtfs with
  | Some cds =>
      JsMap.forEach cds
        (fun active dates serviceId =>
           fold_left (applyException (dateStr d) serviceId) dates active)
        activeServiceIds
  | None => activeServiceIds
  end.

(** [activeServiceIds] as it stands when the trips are collected. *)
Definition activeServiceIds (gtfs : GTFSData) (d : Date) : JsSet.t :=
  checkExceptions gtfs d (checkStandardCalendar gtfs d).

Definition getActiveTripsForToday (gtfs : GTFSData) (d : Date) : list string :=
  let active := activeServiceIds gtfs d in
  JsMap.forEach (trips gtfs)
    (fun activeTripIds trip _ =>
       if JsSet.has active (service_id trip)
       then activeTripIds ++ [trip_id trip]
       else activeTripIds)
    [].

(* ================================================================== *)
(** ** [trainSimulator.ts]: the numeric helpers *)

Definition interpolate (start end_ fraction : number) : number :=
  Number_add start (Number_mul (Number_sub end_ start) fraction).

Definition toRad (deg : number) : number :=
  Number_div (Number_mul deg (Num PI)) (Num 180).

Definition toDeg (rad : number) : number :=
  Number_div (Number_mul rad (Num 180)) (Num PI).

Definition getBearing (lat1 lon1 lat2 lon2 : number) : number :=
  let dLon := toRad (Number_sub lon2 lon1) in
  let lat1Rad := toRad lat1 in
  let lat2Rad := toRad lat2 in
  let y := Number_mul (Math_sin dLon) (Math_cos lat2Rad) in
  let x := Number_sub
             (Number_mul (Math_cos lat1Rad) (Math_sin lat2Rad))
             (Number_mul (Number_mul (Math_sin lat1Rad) (Math_cos lat2Rad))
                (Math_cos dLon)) in
  let bearing :=
    Number_rem (Number_add (toDeg (Math_atan2 y x)) (Num 360)) (Num 360) in
  bearing.

(** The same helpers on finite numbers, where they are functions of real
    numbers; [interpolate_finite] and [getBearing_finite] below relate the
    two. *)
Module Finite.

Definition interpolate (start end_ fraction : R) : R :=
  (start + (end_ - start) * fraction)%R.

Definition toRad (deg : R) : R := (deg * PI / 180)%R.
Definition toDeg (rad : R) : R := (rad * 180 / PI)%R.

Definition rem (a b : R) : R := (a - b * IZR (truncate (a / b)))%R.

Definition getBearing (lat1 lon1 lat2 lon2 : R) : R :=
  let dLon := toRad (lon2 - lon1) in
  let lat1Rad := toRad lat1 in
  let lat2Rad := toRad lat2 in
  let y := (sin dLon * cos lat2Rad)%R in
  let x := (cos lat1Rad * sin lat2Rad
            - sin lat1Rad * cos lat2Rad * cos dLon)%R in
  rem (toDeg (angleOf y x) + 360) 360.

End Finite.

(* ================================================================== *)
(** ** [calculateTrainPositions] *)

(** [a && b] where evaluating either side may raise and [b] is evaluated
    only when [a] holds. *)
Definition andAlso (a b : result bool) : result bool :=
  x <- a ;; if x then b else Ok false.

(** [gtfs.routes.get(gtfs.trips.get(tripId)?.route_id || '')]. *)
Definition routeOfTrip (gtfs : GTFSData) (tripId : string) : option Route :=
  JsMap.get (routes gtfs)
    match JsMap.get (trips gtfs) tripId with
    | Some t => trip_route_id t
    | None => ""
    end.

(** The [for (let i = 0; i < times.length - 1; i++)] loop.  [remaining] is
    the number of iterations the loop still has to run, [times.length - 1 - i];
    the result is [positions] after the loop, or the exception it raised. *)
Fixpoint segmentLoop (gtfs : GTFSData) (tripId : string) (times : list StopTime)
  (currentSeconds : Z) (remaining : nat) (i : nat)
  (positions : list TrainPosition) : result (list TrainPosition) :=
  match remaining with
  | O => Ok positions
  | S remaining' =>
      let current := nth_error times i in
      let next := nth_error times (i + 1) in
      atStop <-
        andAlso
          (a <- prop current arrival_seconds ;; Ok (currentSeconds >=? orZero a))
          (d <- prop current departure_seconds ;; Ok (currentSeconds <=? orZero d)) ;;
      if atStop then
        stopInfoId <- prop current st_stop_id ;;
        match JsMap.get (stops gtfs) stopInfoId with
        | Some stopInfo =>
            nextId <- prop next st_stop_id ;;
            prevId <- prop current st_stop_id ;;
            Ok (positions ++
                [ {| pos_trip_id := tripId;
                     lat := stop_lat stopInfo;
                     lng := stop_lon stopInfo;
                     bearing := 0%R;
                     status := AT_STOP;
                     nextStop := JsMap.get (stops gtfs) nextId;
                     prevStop := JsMap.get (stops gtfs) prevId;
                     route := routeOfTrip gtfs tripId;
                     trip := JsMap.get (trips gtfs) tripId;
                     speedEstimate := None |} ])
        | None => Ok positions
        end
      else
        moving <-
          andAlso
            (d <- prop current departure_seconds ;; Ok (currentSeconds >? orZero d))
            (a <- prop next arrival_seconds ;; Ok (currentSeconds <? orZero a)) ;;
        if moving then
          stopAId <- prop current st_stop_id ;;
          stopBId <- prop next st_stop_id ;;
          match JsMap.get (stops gtfs) stopAId, JsMap.get (stops gtfs) stopBId with
          | Some stopA, Some stopB =>
              nextArr <- prop next arrival_seconds ;;
              curDep <- prop current departure_seconds ;;
              let duration := orZero nextArr - orZero curDep in
              let elapsed := currentSeconds - orZero curDep in
              let fraction :=
                Number_div (Num (IZR elapsed)) (Num (IZR duration)) in
              Ok (positions ++
                  [ {| pos_trip_id := tripId;
                       lat := interpolate (stop_lat stopA) (stop_lat stopB) fraction;
                       lng := interpolate (stop_lon stopA) (stop_lon stopB) fraction;
                       bearing := getBearing (stop_lat stopA) (stop_lon stopA)
                                    (stop_lat stopB) (stop_lon stopB);
                       status := MOVING;
                       nextStop := Some stopB;
                       prevStop := Some stopA;
                       route := routeOfTrip gtfs tripId;
                       trip := JsMap.get (trips gtfs) tripId;
                       speedEstimate := None |} ])
          | _, _ => Ok positions
          end
        else segmentLoop gtfs tripId times currentSeconds remaining' (S i) positions
  end.

(** The body of [for (const tripId of activeTripIds)]. *)
Definition tripStep (gtfs : GTFSData) (currentSeconds : Z)
  (positions : list TrainPosition) (tripId : string)
  : result (list TrainPosition) :=
  match JsMap.get (stopTimes gtfs) tripId with
  | None => Ok positions
  | Some times =>
      if (List.length times <? 2)%nat then Ok positions
      else
        let firstStop := nth_error times 0 in
        let lastStop := nth_error times (List.length times - 1) in
        firstDeparture <- prop firstStop departure_seconds ;;
        if currentSeconds <? orZero firstDeparture then Ok positions
        else
          lastArrival <- prop lastStop arrival_seconds ;;
          if currentSeconds >? orZero lastArrival then Ok positions
          else
            segmentLoop gtfs tripId times currentSeconds
              (List.length times - 1) 0 positions
  end.

Fixpoint forOf {A S : Type} (l : list A) (body : S -> A -> result S) (s : S)
  : result S :=
  match l with
  | [] => Ok s
  | a :: l' => s' <- body s a ;; forOf l' body s'
  end.

Definition calculateTrainPositions (gtfs : GTFSData)
  (activeTripIds : list string) (currentSeconds : Z)
  : result (list TrainPosition) :=
  forOf activeTripIds (tripStep gtfs currentSeconds) [].

(* ================================================================== *)
(** ** The schedule seen through the simulator's tests

    These definitions name the conditions and the records that the loop of
    [calculateTrainPositions] computes in line, so that theorems can speak
    of "the segment that matches" and "the position of a segment". *)

Definition arr (s : StopTime) : Z := orZero (arrival_seconds s).
Definition dep (s : StopTime) : Z := orZero (departure_seconds s).

(** Case 1 of the loop: [arrival <= now <= departure] at [current]. *)
Definition atStopCond (now : Z) (current : StopTime) : bool :=
  (now >=? arr current) && (now <=? dep current).

(** Case 2 of the loop: [departure < now < next arrival]. *)
Definition movingCond (now : Z) (current next : StopTime) : bool :=
  (now >? dep current) && (now <? arr next).

Definition segmentMatches (now : Z) (current next : StopTime) : bool :=
  atStopCond now current || movingCond now current next.

Definition atStopPosition (gtfs : GTFSData) (tripId : string)
  (current next : StopTime) : option TrainPosition :=
  match JsMap.get (stops gtfs) (st_stop_id current) with
  | Some stopInfo =>
      Some {| pos_trip_id := tripId;
              lat := stop_lat stopInfo;
              lng := stop_lon stopInfo;
              bearing := 0%R;
              status := AT_STOP;
              nextStop := JsMap.get (stops gtfs) (st_stop_id next);
              prevStop := JsMap.get (stops gtfs) (st_stop_id current);
              route := routeOfTrip gtfs tripId;
              trip := JsMap.get (trips gtfs) tripId;
              speedEstimate := None |}
  | None => None
  end.

(** The fraction of the segment already travelled. *)
Definition fractionOf (now : Z) (current next : StopTime) : number :=
  Number_div (Num (IZR (now - dep current)))
    (Num (IZR (arr next - dep current))).

Definition movingPosition (gtfs : GTFSData) (tripId : string) (now : Z)
  (current next : StopTime) : option TrainPosition :=
  match JsMap.get (stops gtfs) (st_stop_id current),
        JsMap.get (stops gtfs) (st_stop_id next) with
  | Some stopA, Some stopB =>
      let fraction := fractionOf now current next in
      Some {| pos_trip_id := tripId;
              lat := interpolate (stop_lat stopA) (stop_lat stopB) fraction;
              lng := interpolate (stop_lon stopA) (stop_lon stopB) fraction;
              bearing := getBearing (stop_lat stopA) (stop_lon stopA)
                           (stop_lat stopB) (stop_lon stopB);
              status := MOVING;
              nextStop := Some stopB;
              prevStop := Some stopA;
              route := routeOfTrip gtfs tripId;
              trip := JsMap.get (trips gtfs) tripId;
              speedEstimate := None |}
  | _, _ => None
  end.

(** What the loop pushes when it stops at the segment [(current, next)]. *)
Definition segmentPosition (gtfs : GTFSData) (tripId : string) (now : Z)
  (current next : StopTime) : option TrainPosition :=
  if atStopCond now current then atStopPosition gtfs tripId current next
  else if movingCond now current next
       then movingPosition gtfs tripId now current next
       else None.

(** The push of the first matching segment of a stop-time sequence. *)
Fixpoint firstSegment (gtfs : GTFSData) (tripId : string) (now : Z)
  (times : list StopTime) : option TrainPosition :=
  match times with
  | current :: rest =>
      match rest with
      | next :: _ =>
          if segmentMatches now current next
          then segmentPosition gtfs tripId now current next
          else firstSegment gtfs tripId now rest
      | [] => None
      end
  | [] => None
  end.

Definition firstDeparture (times : list StopTime) : Z :=
  match nth_error times 0 with
  | Some s => dep s
  | None => 0
  end.

Definition lastArrival (times : list StopTime) : Z :=
  match nth_error times (List.length times - 1) with
  | Some s => arr s
  | None => 0
  end.

(** The trip is inside its start/end window. *)
Definition inWindow (now : Z) (times : list StopTime) : bool :=
  (firstDeparture times <=? now) && (now <=? lastArrival times).

(** What one iteration of the outer loop pushes for [tripId]. *)
Definition tripPosition (gtfs : GTFSData) (now : Z) (tripId : string)
  : option TrainPosition :=
  match JsMap.get (stopTimes gtfs) tripId with
  | None => None
  | Some times =>
      if (List.length times <? 2)%nat then None
      else if inWindow now times then firstSegment gtfs tripId now times
      else None
  end.

Definition pushed (o : option TrainPosition) : list TrainPosition :=
  match o with
  | Some p => [p]
  | None => []
  end.

(** Schedule well-formedness: at every stop the departure is not before the
    arrival, and the next arrival is not before the departure. *)
Fixpoint wellFormed (times : list StopTime) : bool :=
  match times with
  | current :: rest =>
      (arr current <=? dep current)
      && match rest with
         | next :: _ => (dep current <=? arr next) && wellFormed rest
         | [] => true
         end
  | [] => true
  end.


(** [i] is the first index, scanning from [0], whose segment
    [(times[i], times[i+1])] matches. *)
Definition firstMatchAt (now : Z) (times : list StopTime) (i : nat)
  (current next : StopTime) : Prop :=
  nth_error times i = Some current
  /\ nth_error times (S i) = Some next
  /\ segmentMatches now current next = true
  /\ forall (j : nat) (c n : StopTime),
       (j < i)%nat -> nth_error times j = Some c ->
       nth_error times (S j) = Some n -> segmentMatches now c n = false.

(** No segment of the sequence matches. *)
Definition noMatch (now : Z) (times : list StopTime) : Prop :=
  forall (j : nat) (c n : StopTime),
    nth_error times j = Some c -> nth_error times (S j) = Some n ->
    segmentMatches now c n = false.

(** The first matching index, computed. *)
Fixpoint firstMatchIndex (now : Z) (times : list StopTime) : option nat :=
  match times with
  | current :: rest =>
      match rest with
      | next :: _ =>
          if segmentMatches now current next then Some O
          else option_map S (firstMatchIndex now rest)
      | [] => None
      end
  | [] => None
  end.

(** The schedule data of trip [t] is degenerate at [now]: no stop-time
    sequence, fewer than two entries, or inside the start/end window with
    no matching segment. *)
Definition degenerate (gtfs : GTFSData) (now : Z) (t : string) : Prop :=
  JsMap.get (stopTimes gtfs) t = None
  \/ (exists times, JsMap.get (stopTimes gtfs) t = Some times
                    /\ (List.length times < 2)%nat)
  \/ (exists times, JsMap.get (stopTimes gtfs) t = Some times
                    /\ inWindow now times = true /\ noMatch now times).

(** Membership of a service in the active set after one exception entry, in
    the words of the specification: on the query date an ADDED entry makes
    the service a member, a REMOVED entry makes it a non-member, and any
    other entry leaves the membership as it was. *)
Definition memberAfterException (today : string) (member : bool)
  (cd : CalendarDate) : bool :=
  if String.eqb (date cd) today then
    if String.eqb (exception_type cd) "1" then true
    else if String.eqb (exception_type cd) "2" then false
    else member
  else member.

(** Two maps hold the same entries, whatever their insertion orders. *)
Definition sameEntries {V : Type} (m1 m2 : JsMap.Map V) : Prop :=
  JsMap.wf m1 = true /\ JsMap.wf m2 = true
  /\ forall k : string, JsMap.get m1 k = JsMap.get m2 k.

(** Two stores are identical as inputs of the resolver: they are the same
    store, or their calendar, exception and trip tables hold the same
    entries. *)
Definition identicalInputs (gtfs1 gtfs2 : GTFSData) : Prop :=
  gtfs1 = gtfs2
  \/ (sameEntries (calendar gtfs1) (calendar gtfs2)
      /\ sameEntries (trips gtfs1) (trips gtfs2)
      /\ match calendarDates gtfs1, calendarDates gtfs2 with
         | Some cds1, Some cds2 => sameEntries cds1 cds2
         | None, None => True
         | _, _ => False
         end).

(** An exception entry that the resolver acts on for the date text [today]:
    it carries that date and its type is ADDED or REMOVED. *)
Definition effectiveOn (today : string) (cd : CalendarDate) : bool :=
  String.eqb (date cd) today
  && (String.eqb (exception_type cd) "1" || String.eqb (exception_type cd) "2").

(** The flag of a rule for a day of the week, in the words of the
    specification: the day is counted from Sunday as 0, and a day outside
    0 to 6 has no flag. *)
Definition weekdayFlag (cal : Calendar) (day : Z) : option string :=
  if day =? 0 then Some (sunday cal)
  else if day =? 1 then Some (monday cal)
  else if day =? 2 then Some (tuesday cal)
  else if day =? 3 then Some (wednesday cal)
  else if day =? 4 then Some (thursday cal)
  else if day =? 5 then Some (friday cal)
  else if day =? 6 then Some (saturday cal)
  else None.

(* ================================================================== *)
(** ** Sample schedules *)

Definition stopA : Stop := mkStop "A" (Some "Alpha") 40 (-3).
Definition stopB : Stop := mkStop "B" (Some "Beta") 41 (-3).
Definition stopC : Stop := mkStop "C" (Some "Gamma") 42 (-2).

Definition stopTimeAt (tripId stopId : string) (seq arrival departure : Z)
  : StopTime :=
  mkStopTime tripId "" "" stopId seq (Some arrival) (Some departure).

Definition sampleStops : JsMap.Map Stop :=
  [("A", stopA); ("B", stopB); ("C", stopC)].

Definition storeOf (times : JsMap.Map (list StopTime)) : GTFSData :=
  mkGTFSData sampleStops [] [] times [] None.

(** First departure at 08:00:00, last arrival at 09:00:00. *)
Definition morningTimes : list StopTime :=
  [stopTimeAt "T1" "A" 1 28800 28800; stopTimeAt "T1" "B" 2 32400 32400].

Definition morningStore : GTFSData := storeOf [("T1", morningTimes)].

(** A departs at 1000, B is reached at 2000. *)
Definition legTimes : list StopTime :=
  [stopTimeAt "T5" "A" 1 1000 1000; stopTimeAt "T5" "B" 2 2000 2000].

Definition legStore : GTFSData := storeOf [("T5", legTimes)].

(** Three stops with dwell times. *)
Definition threeStopTimes : list StopTime :=
  [stopTimeAt "T2" "A" 1 100 110; stopTimeAt "T2" "B" 2 200 210;
   stopTimeAt "T2" "C" 3 300 300].

Definition threeStopStore : GTFSData := storeOf [("T2", threeStopTimes)].

(** The first stop is unknown to the stops table; the times overlap, so the
    second segment matches as well at 200. *)
Definition unknownStopTimes : list StopTime :=
  [stopTimeAt "T9" "X" 1 100 200; stopTimeAt "T9" "B" 2 150 250;
   stopTimeAt "T9" "C" 3 400 400].

Definition unknownStopStore : GTFSData := storeOf [("T9", unknownStopTimes)].

(** Degenerate trips: one with a single stop-time, one that departs its
    first stop before it arrives there, next to a regular one. *)
Definition gapTimes : list StopTime :=
  [stopTimeAt "gap" "A" 1 1020 1000; stopTimeAt "gap" "B" 2 3000 3000].

Definition degenerateStore : GTFSData :=
  storeOf [("short", [stopTimeAt "short" "A" 1 1000 1000]);
           ("gap", gapTimes);
           ("T5", legTimes)].

(* ================================================================== *)
(** ** Sample calendars *)

(** A rule for every day of the week from 1 to 7 January 2024. *)
Definition weekRule : Calendar :=
  mkCalendar "WK" "1" "1" "1" "1" "1" "1" "1" "20240101" "20240107".

Definition tripOf (tripId serviceId : string) : Trip :=
  mkTrip "R1" serviceId tripId (Some "") None None.

Definition sampleTrips : JsMap.Map Trip :=
  [("w1", tripOf "w1" "WK"); ("x1", tripOf "x1" "EXTRA");
   ("w2", tripOf "w2" "WK")].

(** The store loaded from one rule and the given rows of
    [calendar_dates.txt]. *)
Definition calendarStore (rows : list CalendarDate) : GTFSData :=
  mkGTFSData [] [] sampleTrips [] [("WK", weekRule)]
    (Some (parseCalendarDates rows)).

Definition dec31 : Date := mkDate 2023 11 31 0.
Definition jan1 : Date := mkDate 2024 0 1 1.
Definition jan2 : Date := mkDate 2024 0 2 2.
Definition jan3 : Date := mkDate 2024 0 3 3.
Definition jan4 : Date := mkDate 2024 0 4 4.
Definition jan5 : Date := mkDate 2024 0 5 5.
Definition jan6 : Date := mkDate 2024 0 6 6.
Definition jan7 : Date := mkDate 2024 0 7 0.
Definition jan8 : Date := mkDate 2024 0 8 1.

(** EXTRA has no rule and is added on 5 January; WK is removed on
    3 January. *)
Definition exceptionRows : list CalendarDate :=
  [mkCalendarDate "EXTRA" "20240105" "1"; mkCalendarDate "WK" "20240103" "2"].

(** Two entries per service for 3 January, in opposite orders. *)
Definition conflictingRows : list CalendarDate :=
  [mkCalendarDate "WK" "20240103" "1"; mkCalendarDate "EXTRA" "20240103" "2";
   mkCalendarDate "WK" "20240103" "2"; mkCalendarDate "EXTRA" "20240103" "1"].

(** The sample calendar store with every table filled in the opposite
    order. *)
Definition reversedCalendarStore (rows : list CalendarDate) : GTFSData :=
  mkGTFSData [] [] (rev sampleTrips) [] [("WK", weekRule)]
    (Some (parseCalendarDates (rev rows))).

(** WK has an entry of an unknown type on 3 January and is removed on the
    5th. *)
Definition inertRows : list CalendarDate :=
  [mkCalendarDate "WK" "20240103" "3"; mkCalendarDate "WK" "20240105" "2"].

(* ================================================================== *)
(** ** The time codec: [timeToSeconds] and [formatTime] *)

(** [s.split(sep)] for a separator of one character. *)
Fixpoint split (sep : ascii) (s : string) : list string :=
  match s with
  | EmptyString => [""]
  | String c s' =>
      if Ascii.eqb c sep then "" :: split sep s'
      else match split sep s' with
           | part :: parts => String c part :: parts
           | [] => [String c ""]
           end
  end.

(** [parseInt(s, 10)]; [None] is [NaN].  With the radix given as 10 a
    leading [0x] is not a prefix: the digits stop at the [x]. *)
Definition parseInt10 (s : string) : option Z :=
  let s1 := trimStart s in
  let '(sign, s2) :=
    match s1 with
    | String "-" r => (-1, r)
    | String "+" r => (1, r)
    | _ => (1, s1)
    end in
  match digitsPrefix 10 s2 None with
  | Some n => Some (sign * n)
  | None => None
  end.

(** The string [parseInt] sees for an array element that may be
    [undefined]. *)
Definition stringOf (part : option string) : string :=
  match part with
  | Some s => s
  | None => "undefined"
  end.

(** [a + b] and [a * b] on numbers that may be [NaN]. *)
Definition num_add (a b : option Z) : option Z :=
  match a, b with
  | Some x, Some y => Some (x + y)
  | _, _ => None
  end.

Definition num_mul (a b : option Z) : option Z :=
  match a, b with
  | Some x, Some y => Some (x * y)
  | _, _ => None
  end.

(** [Number.MAX_SAFE_INTEGER], [2^53 - 1]: up to it a number holds every
    integer exactly, and its decimal text is plain digits. *)
Definition MAX_SAFE_INTEGER : Z := 9007199254740991.

(** [timeToSeconds]: "HH:MM:SS" to seconds from midnight; [None] is
    [NaN].  The arithmetic is that of integers, which is the code's as long
    as the fields and the result do not exceed [MAX_SAFE_INTEGER]. *)
Definition timeToSeconds (timeStr : string) : option Z :=
  if String.eqb timeStr "" then Some 0
  else
    let parts := split ":" timeStr in
    let h := parseInt10 (stringOf (nth_error parts 0)) in
    let m := parseInt10 (stringOf (nth_error parts 1)) in
    let s :=
      match nth_error parts 2 with
      | Some p => if String.eqb p "" then Some 0 else parseInt10 p
      | None => Some 0
      end in
    num_add (num_add (num_mul h (Some 3600)) (num_mul m (Some 60))) s.

(** [formatTime] of the sidebar, on a whole number of seconds:
    [Math.floor(seconds / 3600)] is the floored quotient and [%] the
    remainder with the sign of the dividend.  [toString] writes plain
    digits, which is the code's text for a number of magnitude up to
    [MAX_SAFE_INTEGER]. *)
Definition formatTime (seconds : Z) : string :=
  let h := seconds / 3600 in
  let m := Z.rem seconds 3600 / 60 in
  (padStart (toString h) 2 "0" ++ ":" ++ padStart (toString m) 2 "0")%string.

(** The text of a time of day with all three fields, each on two digits at
    least, as [stop_times.txt] writes it. *)
Definition clockText (h m s : Z) : string :=
  (padStart (toString h) 2 "0" ++ ":" ++ padStart (toString m) 2 "0"
   ++ ":" ++ padStart (toString s) 2 "0")%string.

(** A character is a decimal digit. *)
Definition isDigit (c : ascii) : bool :=
  let n := Z.of_nat (nat_of_ascii c) in (48 <=? n) && (n <=? 57).

(** A string of decimal digits only. *)
Fixpoint numeral (s : string) : bool :=
  match s with
  | String c s' => isDigit c && numeral s'
  | EmptyString => true
  end.

(** The number a string of digits writes, continuing from [acc]. *)
Fixpoint numeralValue (s : string) (acc : Z) : Z :=
  match s with
  | String c s' => numeralValue s' (acc * 10 + (Z.of_nat (nat_of_ascii c) - 48))
  | EmptyString => acc
  end.

(** The string has no occurrence of the character. *)
Fixpoint lacksChar (sep : ascii) (s : string) : bool :=
  match s with
  | String c s' => negb (Ascii.eqb c sep) && lacksChar sep s'
  | EmptyString => true
  end.

(* ================================================================== *)
(** ** [parseGTFSZip]: the tables keyed by id, and the stop times *)

(** [rows.forEach(r => table.set(r.id, r))], the shape of the loops that
    fill [calendar], [routes] and [trips]. *)
Definition indexRows {V : Type} (key : V -> string) (rows : list V)
  : JsMap.Map V :=
  fold_left (fun table r => JsMap.set table (key r) r) rows [].

Definition parseCalendar (calendarRaw : list Calendar) : JsMap.Map Calendar :=
  indexRows cal_service_id calendarRaw.

Definition parseRoutes (routesRaw : list Route) : JsMap.Map Route :=
  indexRows route_id routesRaw.

Definition parseTrips (tripsRaw : list Trip) : JsMap.Map Trip :=
  indexRows trip_id tripsRaw.

(** A row of [stop_times.txt] as the CSV parser returns it: all text. *)
Record StopTimeRow : Type := mkStopTimeRow {
  row_trip_id : string;
  row_arrival_time : string;
  row_departure_time : string;
  row_stop_id : string;
  row_stop_sequence : string
}.

(** The object [{...st, stop_sequence, arrival_seconds, departure_seconds}]
    the loader builds: the row, with the sequence number as [parseInt] gives
    it (a number or [NaN]) and the two times in seconds. *)
Record ParsedStopTime : Type := mkParsedStopTime {
  parsed_row : StopTimeRow;
  parsed_stop_sequence : option Z;
  parsed_arrival_seconds : option Z;
  parsed_departure_seconds : option Z
}.

Definition processStopTime (st : StopTimeRow) : ParsedStopTime :=
  {| parsed_row := st;
     parsed_stop_sequence := parseInt (row_stop_sequence st);
     parsed_arrival_seconds := timeToSeconds (row_arrival_time st);
     parsed_departure_seconds := timeToSeconds (row_departure_time st) |}.

(** The callback of [stopTimesRaw.forEach]. *)
Definition groupStopTime (trips : JsMap.Map Trip)
  (stopTimes : JsMap.Map (list ParsedStopTime)) (st : StopTimeRow)
  : JsMap.Map (list ParsedStopTime) :=
  if negb (JsMap.has trips (row_trip_id st)) then stopTimes
  else
    let processed := processStopTime st in
    let stopTimes1 :=
      if negb (JsMap.has stopTimes (row_trip_id st))
      then JsMap.set stopTimes (row_trip_id st) []
      else stopTimes in
    match JsMap.get stopTimes1 (row_trip_id st) with
    | Some l => JsMap.set stopTimes1 (row_trip_id st) (l ++ [processed])
    | None => stopTimes1
    end.

(** [a - b] on numbers that may be [NaN]. *)
Definition num_sub (a b : option Z) : option Z :=
  match a, b with
  | Some x, Some y => Some (x - y)
  | _, _ => None
  end.

(** The comparator [(a, b) => a.stop_sequence - b.stop_sequence]. *)
Definition bySequence (a b : ParsedStopTime) : option Z :=
  num_sub (parsed_stop_sequence a) (parsed_stop_sequence b).

(** [Array.prototype.sort] with a comparator.  The language fixes the
    result when the comparator is a consistent order: the sort is stable,
    so the result is the one sorted arrangement that keeps equal elements
    in their order, which this insertion sort computes.  When the
    comparator is not consistent (here: when a sequence number is [NaN])
    the language only promises a rearrangement of the elements, in an order
    left to the implementation; the insertion sort, counting a [NaN]
    comparison as 0, is then one possible result and not necessarily the
    engine's.  Theorems about the order assume that the sequence numbers
    are there; those about membership hold either way. *)
Fixpoint insertSorted {A : Type} (cmp : A -> A -> option Z) (x : A)
  (l : list A) : list A :=
  match l with
  | [] => [x]
  | y :: l' =>
      if 0 <? orZero (cmp x y) then y :: insertSorted cmp x l'
      else x :: y :: l'
  end.

Fixpoint Array_sort {A : Type} (cmp : A -> A -> option Z) (l : list A)
  : list A :=
  match l with
  | [] => []
  | x :: l' => insertSorted cmp x (Array_sort cmp l')
  end.

(** [for (const [tripId, times] of stopTimes.entries()) times.sort(...)]. *)
Definition sortSequences (stopTimes : JsMap.Map (list ParsedStopTime))
  : JsMap.Map (list ParsedStopTime) :=
  map (fun entry => (fst entry, Array_sort bySequence (snd entry))) stopTimes.

(** The [stopTimes] table of [parseGTFSZip]. *)
Definition parseStopTimes (trips : JsMap.Map Trip)
  (stopTimesRaw : list StopTimeRow) : JsMap.Map (list ParsedStopTime) :=
  sortSequences (fold_left (groupStopTime trips) stopTimesRaw []).

(** One stop time is not after another in sequence. *)
Definition sequenceLe (a b : ParsedStopTime) : Prop :=
  exists x y : Z,
    parsed_stop_sequence a = Some x /\ parsed_stop_sequence b = Some y
    /\ x <= y.

(** The rows of a trip, in file order. *)
Definition rowsOfTrip (t : string) (stopTimesRaw : list StopTimeRow)
  : list StopTimeRow :=
  filter (fun st => String.eqb (row_trip_id st) t) stopTimesRaw.

(** Sample rows: trip T1 out of order and with a repeated sequence number,
    and a row of a trip that [trips.txt] does not have. *)
Definition sampleRows : list StopTimeRow :=
  [mkStopTimeRow "w1" "08:10:00" "08:12:00" "B" "2";
   mkStopTimeRow "zz" "07:00:00" "07:00:00" "A" "1";
   mkStopTimeRow "w1" "08:00:00" "08:00:00" "A" "1";
   mkStopTimeRow "w1" "08:10:30" "08:12:30" "C" "2"].

(** The list under [k] gets [v] appended, after being created empty when
    there is none: the [has] / [set] / [get] / [push] steps of the loader's
    grouping loops. *)
Definition pushUnder {V : Type} (m : JsMap.Map (list V)) (k : string) (v : V)
  : JsMap.Map (list V) :=
  let m1 := if negb (JsMap.has m k) then JsMap.set m k [] else m in
  match JsMap.get m1 k with
  | Some l => JsMap.set m1 k (l ++ [v])
  | None => m1
  end.

(** The stop time carries the sequence number [k]. *)
Definition hasSequence (k : Z) (p : ParsedStopTime) : bool :=
  match parsed_stop_sequence p with
  | Some x => x =? k
  | None => false
  end.

(* ================================================================== *)
(** ** [App]: the simulation tick and the search *)

(** The pieces of the component's state that the tick and the search read
    and write. *)
Record AppState : Type := mkAppState {
  app_positions : list TrainPosition;
  app_currentTimeStr : string;
  app_selectedTrain : option TrainPosition;
  app_selectedStation : option Stop
}.

(** [status === 'MOVING' || status === 'AT_STOP']. *)
Definition isLive (s : Status) : bool :=
  match s with
  | MOVING | AT_STOP => true
  | SCHEDULED | ENDED => false
  end.

(** The [tick] of the simulation loop.  The two readings of the clock, the
    text [now.toLocaleTimeString(...)] and [getCurrentSeconds()], are
    passed in as [timeStr] and [seconds]. *)
Definition tick (gtfsData : GTFSData) (activeTrips : list string)
  (timeStr : string) (seconds : Z) (st : AppState) : result AppState :=
  let st0 := {| app_positions := app_positions st;
                app_currentTimeStr := timeStr;
                app_selectedTrain := app_selectedTrain st;
                app_selectedStation := app_selectedStation st |} in
  if (List.length activeTrips =? 0)%nat then Ok st0
  else
    newPositions <- calculateTrainPositions gtfsData activeTrips seconds ;;
    let st1 := {| app_positions := newPositions;
                  app_currentTimeStr := timeStr;
                  app_selectedTrain := app_selectedTrain st;
                  app_selectedStation := app_selectedStation st |} in
    match app_selectedTrain st with
    | Some selectedTrain =>
        if isLive (status selectedTrain) then
          match find (fun p => String.eqb (pos_trip_id p)
                                 (pos_trip_id selectedTrain)) newPositions with
          | Some updated =>
              Ok {| app_positions := newPositions;
                    app_currentTimeStr := timeStr;
                    app_selectedTrain := Some updated;
                    app_selectedStation := app_selectedStation st |}
          | None => Ok st1
          end
        else Ok st1
    | None => Ok st1
    end.

(** [TrainMap]: whether a train of the list gets a marker. *)
Definition rendersMarker (selectedTrain : option TrainPosition)
  (train : TrainPosition) : bool :=
  let isSelected :=
    match selectedTrain with
    | Some sel => String.eqb (pos_trip_id sel) (pos_trip_id train)
    | None => false
    end in
  match status train with
  | SCHEDULED => isSelected
  | ENDED => isSelected
  | _ => true
  end.

(** [s.includes(term)]. *)
Fixpoint includes (s term : string) : bool :=
  String.prefix term s
  || match s with
     | String _ s' => includes s' term
     | EmptyString => false
     end.

Fixpoint reverseString (s acc : string) : string :=
  match s with
  | String c s' => reverseString s' (String c acc)
  | EmptyString => acc
  end.

(** [s.trim()]. *)
Definition trim (s : string) : string :=
  reverseString (trimStart (reverseString (trimStart s) "")) "".

(** What a search leaves behind: the state, and the text of the alert it
    raised, if any. *)
Record SearchOutcome : Type := mkSearchOutcome {
  after : AppState;
  alerted : option string
}.

(** [a || b] where evaluating either side may raise and [b] is evaluated
    only when [a] does not hold. *)
Definition orElse (a b : result bool) : result bool :=
  x <- a ;; if x then Ok true else b.

(** [array.find(pred)] with a predicate that may raise: the elements are
    tested in order, up to the first that matches. *)
Fixpoint findM {A : Type} (pred : A -> result bool) (l : list A)
  : result (option A) :=
  match l with
  | [] => Ok None
  | x :: l' => found <- pred x ;; if found then Ok (Some x) else findM pred l'
  end.

Section Search.

(** [String.prototype.toLowerCase], left open. *)
Variable toLowerCase : string -> string.

(** [s.stop_name.toLowerCase().includes(term) ||
     s.stop_id.toLowerCase() === term]. *)
Definition stopMatches (term : string) (s : Stop) : result bool :=
  orElse
    (prop (stop_name s) (fun name => includes (toLowerCase name) term))
    (Ok (String.eqb (toLowerCase (stop_id s)) term)).

(** [t.trip_short_name?.toLowerCase().includes(term) ||
     t.trip_headsign.toLowerCase().includes(term)]. *)
Definition tripMatches (term : string) (t : Trip) : result bool :=
  orElse
    (Ok match trip_short_name t with
        | Some n => includes (toLowerCase n) term
        | None => false
        end)
    (prop (trip_headsign t)
       (fun headsign => includes (toLowerCase headsign) term)).

(** The same test behind [p.trip?.]. *)
Definition positionMatches (term : string) (p : TrainPosition) : result bool :=
  match trip p with
  | Some t => tripMatches term t
  | None => Ok false
  end.

Definition handleSearch (gtfsData : option GTFSData) (searchTerm : string)
  (st : AppState) : result SearchOutcome :=
  if String.eqb (trim searchTerm) "" then Ok (mkSearchOutcome st None)
  else
    match gtfsData with
    | None => Ok (mkSearchOutcome st None)
    | Some gtfs =>
        let term := toLowerCase searchTerm in
        foundStop <- findM (stopMatches term) (JsMap.values (stops gtfs)) ;;
        match foundStop with
        | Some foundStop =>
            Ok (mkSearchOutcome
                  {| app_positions := app_positions st;
                     app_currentTimeStr := app_currentTimeStr st;
                     app_selectedTrain := None;
                     app_selectedStation := Some foundStop |} None)
        | None =>
            foundLive <- findM (positionMatches term) (app_positions st) ;;
            match foundLive with
            | Some foundLive =>
                Ok (mkSearchOutcome
                      {| app_positions := app_positions st;
                         app_currentTimeStr := app_currentTimeStr st;
                         app_selectedTrain := Some foundLive;
                         app_selectedStation := None |} None)
            | None =>
                foundTrip <-
                  findM (tripMatches term) (JsMap.values (trips gtfs)) ;;
                match foundTrip with
                | Some foundTrip =>
                    firstStop <-
                      match JsMap.get (stopTimes gtfs) (trip_id foundTrip) with
                      | Some times =>
                          firstId <- prop (nth_error times 0) st_stop_id ;;
                          Ok (JsMap.get (stops gtfs) firstId)
                      | None => Ok None
                      end ;;
                    match firstStop with
                    | Some stop =>
                        Ok (mkSearchOutcome
                              {| app_positions := app_positions st;
                                 app_currentTimeStr := app_currentTimeStr st;
                                 app_selectedTrain :=
                                   Some {| pos_trip_id := trip_id foundTrip;
                                           lat := stop_lat stop;
                                           lng := stop_lon stop;
                                           bearing := 0%R;
                                           status := SCHEDULED;
                                           nextStop := None;
                                           prevStop := None;
                                           route :=
                                             JsMap.get (routes gtfs)
                                               (trip_route_id foundTrip);
                                           trip := Some foundTrip;
                                           speedEstimate := None |};
                                 app_selectedStation := None |} None)
                    | None => Ok (mkSearchOutcome st None)
                    end
                | None =>
                    Ok (mkSearchOutcome st
                          (Some ("No station or train found matching: "
                                 ++ searchTerm)%string))
                end
            end
        end
    end.

End Search.

(** Lower case for the letters A to Z, the other characters unchanged: what
    [toLowerCase] does to a string of ASCII characters, as the strings of
    the samples are. *)
Definition lowerAscii (c : ascii) : ascii :=
  let n := nat_of_ascii c in
  if ((65 <=? n) && (n <=? 90))%nat then ascii_of_nat (n + 32) else c.

Fixpoint lowerCaseAscii (s : string) : string :=
  match s with
  | String c s' => String (lowerAscii c) (lowerCaseAscii s')
  | EmptyString => EmptyString
  end.

(* ================================================================== *)
(** ** Sample loads *)

(** Two rows for WK in [calendar.txt]: the first for the first week of
    January, the second for the first week of February. *)
Definition februaryRule : Calendar :=
  mkCalendar "WK" "1" "1" "1" "1" "1" "1" "1" "20240201" "20240207".

Definition repeatedRuleStore : GTFSData :=
  mkGTFSData [] [] sampleTrips [] (parseCalendar [weekRule; februaryRule])
    None.

(** The sample leg with its trip and route on record. *)
Definition sampleRoute : Route :=
  mkRoute "R1" "AVE" "Madrid - Barcelona" "2" (Some "ff0000") None.

Definition decoratedLegStore : GTFSData :=
  mkGTFSData sampleStops [("R1", sampleRoute)] [("T5", tripOf "T5" "WK")]
    [("T5", legTimes)] [] None.

(** A store with the sample stops, one trip on record and its stop times;
    and the same store with that trip's list of stop times empty. *)
Definition searchStore : GTFSData :=
  mkGTFSData sampleStops [("R1", sampleRoute)]
    [("T5", mkTrip "R1" "WK" "T5" (Some "Barcelona Sants") (Some "03102") None)]
    [("T5", legTimes)] [] None.


Definition idleState : AppState := mkAppState [] "00:00:00" None None.

(** [trips.txt] with the row of w1 repeated. *)
Definition repeatedTripRows : list Trip :=
  [tripOf "w1" "WK"; tripOf "x1" "EXTRA"; tripOf "w1" "WK"].

Definition loadedTripsStore : GTFSData :=
  mkGTFSData [] [] (parseTrips repeatedTripRows) [] [("WK", weekRule)] None.

(** A trip of the night after: it leaves A at 24:30:00 and reaches B at
    25:30:00. *)
Definition overnightStore : GTFSData :=
  storeOf [("N1", [stopTimeAt "N1" "A" 1 88200 88200;
                   stopTimeAt "N1" "B" 2 91800 91800])].

(* ================================================================== *)
(** ** Further samples *)









(** A rule for Mondays and Sundays only, from 1 to 7 January 2024: the
    1st is a Monday and the 7th a Sunday, as are the 8th and 31 December
    before. *)
Definition edgeDaysRule : Calendar :=
  mkCalendar "ED" "1" "0" "0" "0" "0" "0" "1" "20240101" "20240107".

Definition edgeDaysStore : GTFSData :=
  mkGTFSData [] [] [("e1", tripOf "e1" "ED"); ("x1", tripOf "x1" "EXTRA")] []
    [("ED", edgeDaysRule)] None.



Definition ghostTripStore : GTFSData :=
  mkGTFSData sampleStops [("R1", sampleRoute)]
    [("G1", mkTrip "R1" "WK" "G1" (Some "Ghost") None None)]
    [] [] None.

(** A search term made of one no-break space. *)
Definition noBreakSpace : string := String (ascii_of_nat 160) "".
(* ================================================================== *)
(** ** The simulator: the loops against their characterisation *)

Lemma nth_error_middle (A : Type) (pre : list A) (x : A) (post : list A) :
  nth_error (pre ++ x :: post) (List.length pre) = Some x.
Proof.
  induction pre as [| a pre IH]; simpl; [reflexivity | exact IH].
Qed.

Lemma nth_error_middle_next (A : Type) (pre : list A) (x y : A)
  (post : list A) :
  nth_error (pre ++ x :: y :: post) (List.length pre + 1) = Some y.
Proof.
  induction pre as [| a pre IH]; simpl; [reflexivity | exact IH].
Qed.

Lemma app_pushed_none (positions : list TrainPosition) :
  positions = positions ++ pushed None.
Proof. simpl. now rewrite app_nil_r. Qed.

(** Moves the induction hypothesis of the inner loop one index forward. *)
Ltac next_iteration IH pre current positions :=
  specialize (IH (pre ++ [current]) positions);
  rewrite <- app_assoc in IH; cbn [app] in IH;
  rewrite length_app in IH; cbn [List.length] in IH;
  replace (List.length pre + 1)%nat with (S (List.length pre)) in IH by lia;
  cbn [List.length Nat.sub] in IH;
  rewrite Nat.sub_0_r in IH; exact IH.

(** Reads the stops of a matched segment and compares the two pushes. *)
Ltac same_push gtfs current next :=
  destruct (JsMap.get (stops gtfs) (st_stop_id current));
  [try destruct (JsMap.get (stops gtfs) (st_stop_id next)) |];
  cbn [pushed bind]; solve [reflexivity | apply f_equal, app_pushed_none].

Section SimulatorLoops.

Variable gtfs : GTFSData.
Variable now : Z.

(** The inner loop, started at index [length pre] with the iterations that
    are left for the suffix, pushes what [firstSegment] says. *)
Lemma segmentLoop_spec (tripId : string) (suffix : list StopTime) :
  forall (pre : list StopTime) (positions : list TrainPosition),
    segmentLoop gtfs tripId (pre ++ suffix) now
      (List.length suffix - 1) (List.length pre) positions
    = Ok (positions ++ pushed (firstSegment gtfs tripId now suffix)).
Proof.
  induction suffix as [| current rest IH]; intros pre positions.
  - apply f_equal, app_pushed_none.
  - destruct rest as [| next rest'].
    + apply f_equal, app_pushed_none.
    + change (List.length (current :: next :: rest') - 1)%nat
        with (S (List.length rest')).
      cbn [segmentLoop].
      rewrite nth_error_middle, nth_error_middle_next.
      cbn [firstSegment].
      unfold segmentMatches, segmentPosition, atStopCond, movingCond,
        atStopPosition, movingPosition, fractionOf, arr, dep.
      cbn [prop bind andAlso].
      destruct (now >=? orZero (arrival_seconds current));
        cbn [bind andb orb];
        [destruct (now <=? orZero (departure_seconds current));
           cbn [bind andb orb]; [same_push gtfs current next |] |];
        (destruct (now >? orZero (departure_seconds current));
           cbn [bind andb orb];
           [destruct (now <? orZero (arrival_seconds next));
              cbn [bind andb orb]; [same_push gtfs current next |] |];
           next_iteration IH pre current positions).
Qed.

Lemma nth_error_in_range (A : Type) (l : list A) (n : nat) :
  (n < List.length l)%nat -> exists x, nth_error l n = Some x.
Proof.
  intros H. destruct (nth_error l n) as [x |] eqn:E; [now exists x |].
  apply nth_error_None in E. lia.
Qed.

(** One iteration of the outer loop never raises and pushes
    [tripPosition]. *)
Lemma tripStep_spec (positions : list TrainPosition) (tripId : string) :
  tripStep gtfs now positions tripId
  = Ok (positions ++ pushed (tripPosition gtfs now tripId)).
Proof.
  unfold tripStep, tripPosition.
  destruct (JsMap.get (stopTimes gtfs) tripId) as [times |];
    [| apply f_equal, app_pushed_none].
  destruct (List.length times <? 2)%nat eqn:Hlen;
    [apply f_equal, app_pushed_none |].
  apply Nat.ltb_ge in Hlen.
  destruct (nth_error_in_range _ times 0) as [firstStop Hfirst]; [lia |].
  destruct (nth_error_in_range _ times (List.length times - 1))
    as [lastStop Hlast]; [lia |].
  unfold inWindow, firstDeparture, lastArrival, dep, arr.
  rewrite Hfirst, Hlast. cbn [prop bind].
  rewrite Z.gtb_ltb, (Z.leb_antisym _ now), (Z.leb_antisym now).
  destruct (now <? orZero (departure_seconds firstStop)); cbn [negb andb];
    [apply f_equal, app_pushed_none |].
  destruct (orZero (arrival_seconds lastStop) <? now); cbn [negb];
    [apply f_equal, app_pushed_none |].
  apply (segmentLoop_spec tripId times []).
Qed.

Lemma forOf_tripStep (ids : list string) :
  forall positions : list TrainPosition,
    forOf ids (tripStep gtfs now) positions
    = Ok (positions ++ flat_map (fun t => pushed (tripPosition gtfs now t)) ids).
Proof.
  induction ids as [| t ids IH]; intros positions.
  - simpl. now rewrite app_nil_r.
  - cbn [forOf flat_map]. rewrite tripStep_spec. cbn [bind].
    rewrite IH. now rewrite app_assoc.
Qed.

(** [calculateTrainPositions] returns, for the trip ids in order, the
    position each one pushes. *)
Lemma calculateTrainPositions_spec (ids : list string) :
  calculateTrainPositions gtfs ids now
  = Ok (flat_map (fun t => pushed (tripPosition gtfs now t)) ids).
Proof.
  unfold calculateTrainPositions. now rewrite forOf_tripStep.
Qed.

End SimulatorLoops.

(* ================================================================== *)
(** ** The first matching segment *)

Lemma firstMatchIndex_cons (now : Z) (c n : StopTime) (rest : list StopTime) :
  firstMatchIndex now (c :: n :: rest)
  = if segmentMatches now c n then Some O
    else option_map S (firstMatchIndex now (n :: rest)).
Proof. reflexivity. Qed.

Lemma firstSegment_cons (gtfs : GTFSData) (tripId : string) (now : Z)
  (c n : StopTime) (rest : list StopTime) :
  firstSegment gtfs tripId now (c :: n :: rest)
  = if segmentMatches now c n then segmentPosition gtfs tripId now c n
    else firstSegment gtfs tripId now (n :: rest).
Proof. reflexivity. Qed.

Lemma firstMatchIndex_Some (now : Z) (times : list StopTime) :
  forall i : nat,
    firstMatchIndex now times = Some i ->
    exists current next, firstMatchAt now times i current next.
Proof.
  induction times as [| c0 rest IH]; intros i H; [discriminate |].
  destruct rest as [| n0 rest']; [discriminate |].
  rewrite firstMatchIndex_cons in H.
  destruct (segmentMatches now c0 n0) eqn:Hm.
  - injection H as <-. exists c0, n0. repeat split; auto.
    intros j c n Hj. lia.
  - destruct (firstMatchIndex now (n0 :: rest')) as [i' |] eqn:Hi; [| discriminate].
    injection H as <-.
    destruct (IH i' eq_refl) as (current & next & H1 & H2 & H3 & H4).
    exists current, next. repeat split; auto.
    intros j c n Hj Hc Hn. destruct j as [| j'].
    + cbn in Hc, Hn. injection Hc as <-. injection Hn as <-. exact Hm.
    + apply (H4 j' c n); [lia | exact Hc | exact Hn].
Qed.

Lemma firstMatchIndex_None (now : Z) (times : list StopTime) :
  firstMatchIndex now times = None -> noMatch now times.
Proof.
  induction times as [| c0 rest IH]; intros H j c n Hc Hn.
  - destruct j; discriminate.
  - destruct rest as [| n0 rest'].
    + destruct j; cbn in Hn; [discriminate | destruct j; discriminate].
    + rewrite firstMatchIndex_cons in H.
      destruct (segmentMatches now c0 n0) eqn:Hm; [discriminate |].
      destruct (firstMatchIndex now (n0 :: rest')) eqn:Hi; [discriminate |].
      destruct j as [| j'].
      * cbn in Hc, Hn. injection Hc as <-. injection Hn as <-. exact Hm.
      * apply (IH eq_refl j' c n); assumption.
Qed.

Section FirstSegment.

Variable gtfs : GTFSData.
Variable tripId : string.
Variable now : Z.

Lemma firstSegment_at (times : list StopTime) :
  forall (i : nat) (current next : StopTime),
    firstMatchAt now times i current next ->
    firstSegment gtfs tripId now times
    = segmentPosition gtfs tripId now current next.
Proof.
  induction times as [| c0 rest IH]; intros i current next (H1 & H2 & H3 & H4).
  - destruct i; discriminate.
  - destruct i as [| i'].
    + cbn in H1, H2. injection H1 as ->.
      destruct rest as [| n0 rest']; [discriminate |].
      cbn in H2. injection H2 as ->.
      rewrite firstSegment_cons. now rewrite H3.
    + cbn in H1, H2.
      destruct rest as [| n0 rest']; [destruct i'; discriminate |].
      rewrite firstSegment_cons.
      rewrite (H4 O c0 n0); [| lia | reflexivity | reflexivity].
      apply (IH i'). repeat split; auto.
      intros j c n Hj Hc Hn. apply (H4 (S j) c n); [lia | exact Hc | exact Hn].
Qed.

Lemma firstSegment_noMatch (times : list StopTime) :
  noMatch now times -> firstSegment gtfs tripId now times = None.
Proof.
  induction times as [| c0 rest IH]; intros H; [reflexivity |].
  destruct rest as [| n0 rest']; [reflexivity |].
  rewrite firstSegment_cons.
  rewrite (H O c0 n0); [| reflexivity | reflexivity].
  apply IH. intros j c n Hc Hn. apply (H (S j) c n); assumption.
Qed.

Lemma firstSegment_Some_inv (times : list StopTime) (p : TrainPosition) :
  firstSegment gtfs tripId now times = Some p ->
  exists (i : nat) (current next : StopTime),
    firstMatchAt now times i current next
    /\ segmentPosition gtfs tripId now current next = Some p.
Proof.
  intros H.
  destruct (firstMatchIndex now times) as [i |] eqn:Hi.
  - destruct (firstMatchIndex_Some now times i Hi) as (current & next & Hm).
    exists i, current, next. split; [exact Hm |].
    now rewrite <- (firstSegment_at times i current next Hm).
  - apply firstMatchIndex_None in Hi.
    rewrite (firstSegment_noMatch times Hi) in H. discriminate.
Qed.

Lemma segmentPosition_trip_id (current next : StopTime) (p : TrainPosition) :
  segmentPosition gtfs tripId now current next = Some p ->
  pos_trip_id p = tripId.
Proof.
  unfold segmentPosition, atStopPosition, movingPosition.
  destruct (atStopCond now current).
  - destruct (JsMap.get (stops gtfs) (st_stop_id current)); [| discriminate].
    intros H. injection H as <-. reflexivity.
  - destruct (movingCond now current next); [| discriminate].
    destruct (JsMap.get (stops gtfs) (st_stop_id current)); [| discriminate].
    destruct (JsMap.get (stops gtfs) (st_stop_id next)); [| discriminate].
    intros H. injection H as <-. reflexivity.
Qed.

End FirstSegment.

(** A pushed position carries the id of the trip that pushed it. *)
Lemma tripPosition_trip_id (gtfs : GTFSData) (now : Z) (t : string)
  (p : TrainPosition) :
  tripPosition gtfs now t = Some p -> pos_trip_id p = t.
Proof.
  unfold tripPosition.
  destruct (JsMap.get (stopTimes gtfs) t) as [times |]; [| discriminate].
  destruct (List.length times <? 2)%nat; [discriminate |].
  destruct (inWindow now times); [| discriminate].
  intros H. apply firstSegment_Some_inv in H.
  destruct H as (i & current & next & _ & H).
  exact (segmentPosition_trip_id gtfs t now current next p H).
Qed.

(** The positions of a tick are the pushes of the trip ids given. *)
Lemma In_positions (gtfs : GTFSData) (now : Z) (ids : list string)
  (ps : list TrainPosition) (p : TrainPosition) :
  calculateTrainPositions gtfs ids now = Ok ps ->
  (In p ps <->
   In (pos_trip_id p) ids /\ tripPosition gtfs now (pos_trip_id p) = Some p).
Proof.
  rewrite calculateTrainPositions_spec. intros H. injection H as <-.
  rewrite in_flat_map. split.
  - intros (t & Ht & Hp).
    destruct (tripPosition gtfs now t) as [q |] eqn:Hq; [| contradiction].
    destruct Hp as [-> | []].
    rewrite (tripPosition_trip_id gtfs now t p Hq). auto.
  - intros (Hin & Hp). exists (pos_trip_id p). split; [exact Hin |].
    rewrite Hp. now left.
Qed.

(* ================================================================== *)
(** ** The simulator: totality and omission *)

Lemma degenerate_no_position (gtfs : GTFSData) (now : Z) (t : string) :
  degenerate gtfs now t -> tripPosition gtfs now t = None.
Proof.
  unfold tripPosition.
  intros [-> | [(times & -> & Hlen) | (times & -> & Hwin & Hno)]].
  - reflexivity.
  - apply Nat.ltb_lt in Hlen. now rewrite Hlen.
  - rewrite Hwin. rewrite (firstSegment_noMatch gtfs t now times Hno).
    now destruct (List.length times <? 2)%nat.
Qed.

(** C7. [calculateTrainPositions] never raises: on every store, list of
    trip ids and time it returns a list of positions; and a trip whose
    stop-time sequence is absent, or has fewer than two entries, or which is
    inside its start/end window with no matching segment, has no position in
    that list. *)
Theorem calculateTrainPositions_total
  (gtfs : GTFSData) (activeTripIds : list string) (currentSeconds : Z) :
  exists positions : list TrainPosition,
    calculateTrainPositions gtfs activeTripIds currentSeconds = Ok positions
    /\ forall t : string,
         degenerate gtfs currentSeconds t ->
         forall p : TrainPosition, In p positions -> pos_trip_id p <> t.
Proof.
  eexists. split; [apply calculateTrainPositions_spec |].
  intros t Hdeg p Hin Heq.
  apply in_flat_map in Hin. destruct Hin as (t' & _ & Hp).
  destruct (tripPosition gtfs currentSeconds t') as [q |] eqn:Hq;
    [| contradiction].
  destruct Hp as [-> | []].
  rewrite (tripPosition_trip_id _ _ _ _ Hq) in Heq. subst t'.
  rewrite (degenerate_no_position _ _ _ Hdeg) in Hq. discriminate.
Qed.

(** On the degenerate sample store only the regular trip has a position,
    although all four ids are asked for. *)
Lemma calculateTrainPositions_total_witness :
  exists positions : list TrainPosition,
    calculateTrainPositions degenerateStore
      ["missing"; "short"; "gap"; "T5"] 1000 = Ok positions
    /\ map pos_trip_id positions = ["T5"]
    /\ forall p : TrainPosition,
         In p positions ->
         pos_trip_id p <> "missing" /\ pos_trip_id p <> "short"
         /\ pos_trip_id p <> "gap".
Proof.
  destruct (calculateTrainPositions_total degenerateStore
              ["missing"; "short"; "gap"; "T5"] 1000) as (ps & Hps & Hdeg).
  exists ps. split; [exact Hps |]. split.
  - rewrite calculateTrainPositions_spec in Hps. injection Hps as <-.
    reflexivity.
  - intros p Hp. repeat split; apply (fun t H => Hdeg t H p Hp).
    + left. reflexivity.
    + right. left. eexists. split; [reflexivity | simpl; lia].
    + right. right. exists gapTimes. split; [reflexivity |].
      split; [reflexivity |].
      apply firstMatchIndex_None. reflexivity.
Defined.

(* ================================================================== *)
(** ** Well-formed schedules *)

Lemma wellFormed_tail (c : StopTime) (rest : list StopTime) :
  wellFormed (c :: rest) = true -> wellFormed rest = true.
Proof.
  cbn [wellFormed]. destruct rest as [| n rest']; [reflexivity |].
  intros H. apply andb_prop in H. destruct H as [_ H].
  apply andb_prop in H. tauto.
Qed.

Lemma wellFormed_dwell (times : list StopTime) :
  wellFormed times = true ->
  forall (j : nat) (c : StopTime),
    nth_error times j = Some c -> arr c <= dep c.
Proof.
  induction times as [| c0 rest IH]; intros Hwf j c Hc.
  - destruct j; discriminate.
  - destruct j as [| j'].
    + cbn in Hc. injection Hc as <-.
      cbn [wellFormed] in Hwf. apply andb_prop in Hwf.
      destruct Hwf as [H _]. now apply Z.leb_le in H.
    + apply (IH (wellFormed_tail _ _ Hwf) j' c Hc).
Qed.

(** A stop is left no later than any later stop is reached. *)
Lemma wellFormed_ordered (times : list StopTime) :
  wellFormed times = true ->
  forall (j i : nat) (c c' : StopTime),
    (j < i)%nat -> nth_error times j = Some c ->
    nth_error times i = Some c' -> dep c <= arr c'.
Proof.
  induction times as [| c0 rest IH]; intros Hwf j i c c' Hji Hc Hc'.
  - destruct j; discriminate.
  - pose proof (wellFormed_tail _ _ Hwf) as Hrest.
    destruct i as [| i']; [lia |].
    destruct j as [| j'].
    + cbn in Hc, Hc'. injection Hc as <-.
      destruct rest as [| n rest']; [destruct i'; discriminate |].
      assert (Hstep : dep c0 <= arr n).
      { cbn [wellFormed] in Hwf. apply andb_prop in Hwf.
        destruct Hwf as [_ H]. apply andb_prop in H.
        destruct H as [H _]. now apply Z.leb_le in H. }
      destruct i' as [| i''].
      * cbn in Hc'. injection Hc' as <-. exact Hstep.
      * pose proof (wellFormed_dwell _ Hrest O n eq_refl) as Hn.
        pose proof (IH Hrest O (S i'') n c' ltac:(lia) eq_refl Hc') as Hlater.
        lia.
    + apply (IH Hrest j' i' c c'); [lia | exact Hc | exact Hc'].
Qed.

(** In a well-formed schedule a time strictly inside the segment
    [(times[i], times[i+1])] is inside the trip's window, and that segment
    is the first one the scan matches, by its in-transit test. *)
Lemma wellFormed_in_transit (now : Z) (times : list StopTime) (i : nat)
  (current next : StopTime) :
  wellFormed times = true ->
  nth_error times i = Some current ->
  nth_error times (S i) = Some next ->
  dep current < now < arr next ->
  firstMatchAt now times i current next
  /\ atStopCond now current = false
  /\ movingCond now current next = true
  /\ inWindow now times = true
  /\ (2 <= List.length times)%nat.
Proof.
  intros Hwf Hc Hn [Hlo Hhi].
  assert (Hat : atStopCond now current = false).
  { unfold atStopCond. apply andb_false_iff. right. apply Z.leb_gt. exact Hlo. }
  assert (Hmv : movingCond now current next = true).
  { unfold movingCond. rewrite Z.gtb_ltb. apply andb_true_iff.
    split; apply Z.ltb_lt; assumption. }
  assert (Hlen : (S i < List.length times)%nat).
  { apply nth_error_Some. rewrite Hn. discriminate. }
  pose proof (wellFormed_dwell _ Hwf i current Hc) as Hdwell.
  repeat split; auto.
  - unfold segmentMatches. rewrite Hat, Hmv. reflexivity.
  - intros j c n Hj Hjc Hjn.
    pose proof (wellFormed_ordered _ Hwf j i c current Hj Hjc Hc) as H1.
    assert (H2 : arr n <= dep current).
    { destruct (Nat.eq_dec (S j) i) as [E | E].
      - subst i. rewrite Hjn in Hc. injection Hc as ->. exact Hdwell.
      - pose proof (wellFormed_dwell _ Hwf (S j) n Hjn).
        pose proof (wellFormed_ordered _ Hwf (S j) i n current
                      ltac:(lia) Hjn Hc).
        lia. }
    unfold segmentMatches, atStopCond, movingCond.
    apply orb_false_iff. split; apply andb_false_iff; right.
    + apply Z.leb_gt. lia.
    + apply Z.ltb_ge. lia.
  - unfold inWindow, firstDeparture, lastArrival.
    destruct (nth_error_in_range _ times 0) as [c0 H0]; [lia |].
    destruct (nth_error_in_range _ times (List.length times - 1))
      as [cl Hl]; [lia |].
    rewrite H0, Hl. apply andb_true_iff. split; apply Z.leb_le.
    + destruct i as [| i'].
      * rewrite H0 in Hc. injection Hc as ->. lia.
      * pose proof (wellFormed_ordered _ Hwf O (S i') c0 current
                      ltac:(lia) H0 Hc). lia.
    + destruct (Nat.eq_dec (S i) (List.length times - 1)) as [E | E].
      * rewrite E in Hn. rewrite Hn in Hl. injection Hl as <-. lia.
      * pose proof (wellFormed_dwell _ Hwf (S i) next Hn).
        pose proof (wellFormed_ordered _ Hwf (S i) (List.length times - 1)
                      next cl ltac:(lia) Hn Hl). lia.
  - lia.
Qed.

(* ================================================================== *)
(** ** The simulator: one position per trip, from the first match *)

Lemma firstMatchAt_length (now : Z) (times : list StopTime) (i : nat)
  (current next : StopTime) :
  firstMatchAt now times i current next -> (List.length times <? 2)%nat = false.
Proof.
  intros (_ & Hn & _). apply Nat.ltb_ge.
  assert (S i < List.length times)%nat; [| lia].
  apply nth_error_Some. rewrite Hn. discriminate.
Qed.

(** Inside the window, the trip pushes the position of its first match. *)
Lemma tripPosition_at (gtfs : GTFSData) (now : Z) (t : string)
  (times : list StopTime) (i : nat) (current next : StopTime) :
  JsMap.get (stopTimes gtfs) t = Some times ->
  inWindow now times = true ->
  firstMatchAt now times i current next ->
  tripPosition gtfs now t = segmentPosition gtfs t now current next.
Proof.
  intros Ht Hwin Hm. unfold tripPosition.
  rewrite Ht, (firstMatchAt_length _ _ _ _ _ Hm), Hwin.
  apply (firstSegment_at gtfs t now times i current next Hm).
Qed.

Lemma tripPosition_Some_inv (gtfs : GTFSData) (now : Z) (t : string)
  (p : TrainPosition) :
  tripPosition gtfs now t = Some p ->
  exists (times : list StopTime) (i : nat) (current next : StopTime),
    JsMap.get (stopTimes gtfs) t = Some times
    /\ inWindow now times = true
    /\ firstMatchAt now times i current next
    /\ segmentPosition gtfs t now current next = Some p.
Proof.
  unfold tripPosition.
  destruct (JsMap.get (stopTimes gtfs) t) as [times |]; [| discriminate].
  destruct (List.length times <? 2)%nat; [discriminate |].
  destruct (inWindow now times) eqn:Hwin; [| discriminate].
  intros H. apply firstSegment_Some_inv in H.
  destruct H as (i & current & next & Hm & Hp).
  exists times, i, current, next. auto.
Qed.

(** The positions carrying the id [t] are no more than the occurrences of
    [t] among the ids. *)
Lemma positions_count (gtfs : GTFSData) (now : Z) (t : string)
  (ids : list string) :
  (List.length
     (filter (fun p => String.eqb (pos_trip_id p) t)
        (flat_map (fun t' => pushed (tripPosition gtfs now t')) ids))
   <= count_occ string_dec ids t)%nat.
Proof.
  induction ids as [| t' ids IH]; [simpl; lia |].
  cbn [flat_map]. rewrite filter_app, length_app. cbn [count_occ].
  destruct (tripPosition gtfs now t') as [q |] eqn:Hq; cbn [pushed filter].
  - rewrite (tripPosition_trip_id _ _ _ _ Hq).
    destruct (string_dec t' t) as [-> | Hne].
    + rewrite String.eqb_refl. simpl. lia.
    + apply String.eqb_neq in Hne. rewrite Hne. simpl. lia.
  - destruct (string_dec t' t); simpl; lia.
Qed.

Lemma movingPosition_status (gtfs : GTFSData) (t : string) (now : Z)
  (current next : StopTime) (p : TrainPosition) :
  movingPosition gtfs t now current next = Some p ->
  status p = MOVING
  /\ prevStop p = JsMap.get (stops gtfs) (st_stop_id current)
  /\ nextStop p = JsMap.get (stops gtfs) (st_stop_id next).
Proof.
  unfold movingPosition.
  destruct (JsMap.get (stops gtfs) (st_stop_id current)); [| discriminate].
  destruct (JsMap.get (stops gtfs) (st_stop_id next)); [| discriminate].
  intros H. injection H as <-. auto.
Qed.

(** C2. In the positions of a tick, a trip id that occurs once among the
    active ids has at most one position; every position is the one of the
    first index, scanning from 0, whose segment matches; and for a
    well-formed trip of three stops a time strictly between the second
    stop's departure and the third stop's arrival selects the segment of the
    second and third stops, in-transit: every position of the trip is the
    MOVING position of that segment, and there is one when both stops
    resolve. *)
Theorem one_position_from_first_match
  (gtfs : GTFSData) (activeTripIds : list string) (nowSeconds : Z)
  (positions : list TrainPosition) :
  calculateTrainPositions gtfs activeTripIds nowSeconds = Ok positions ->
  (forall t : string,
      count_occ string_dec activeTripIds t = 1%nat ->
      (List.length
         (filter (fun p => String.eqb (pos_trip_id p) t) positions) <= 1)%nat)
  /\ (forall p : TrainPosition,
         In p positions ->
         exists (times : list StopTime) (i : nat) (current next : StopTime),
           JsMap.get (stopTimes gtfs) (pos_trip_id p) = Some times
           /\ firstMatchAt nowSeconds times i current next
           /\ segmentPosition gtfs (pos_trip_id p) nowSeconds current next
              = Some p)
  /\ (forall (t : string) (s1 s2 s3 : StopTime),
         JsMap.get (stopTimes gtfs) t = Some [s1; s2; s3] ->
         wellFormed [s1; s2; s3] = true ->
         dep s2 < nowSeconds < arr s3 ->
         firstMatchAt nowSeconds [s1; s2; s3] 1 s2 s3
         /\ segmentMatches nowSeconds s1 s2 = false
         /\ (forall p : TrainPosition,
                In p positions -> pos_trip_id p = t ->
                movingPosition gtfs t nowSeconds s2 s3 = Some p
                /\ status p = MOVING)
         /\ (forall stop2 stop3 : Stop,
                In t activeTripIds ->
                JsMap.get (stops gtfs) (st_stop_id s2) = Some stop2 ->
                JsMap.get (stops gtfs) (st_stop_id s3) = Some stop3 ->
                exists p : TrainPosition,
                  In p positions /\ pos_trip_id p = t /\ status p = MOVING
                  /\ prevStop p = Some stop2 /\ nextStop p = Some stop3)).
Proof.
  intros Hcalc.
  pose proof (fun p => In_positions gtfs nowSeconds activeTripIds positions p Hcalc)
    as Hin.
  split; [| split].
  - intros t Hocc.
    rewrite calculateTrainPositions_spec in Hcalc. injection Hcalc as <-.
    rewrite <- Hocc. apply positions_count.
  - intros p Hp. apply Hin in Hp. destruct Hp as [_ Hp].
    apply tripPosition_Some_inv in Hp.
    destruct Hp as (times & i & current & next & Ht & _ & Hm & Hseg).
    exists times, i, current, next. auto.
  - intros t s1 s2 s3 Htimes Hwf Hnow.
    destruct (wellFormed_in_transit nowSeconds [s1; s2; s3] 1 s2 s3
                Hwf eq_refl eq_refl Hnow) as (Hm & Hat & Hmv & Hwin & _).
    pose proof (tripPosition_at gtfs nowSeconds t _ 1 s2 s3 Htimes Hwin Hm)
      as Htrip.
    unfold segmentPosition in Htrip. rewrite Hat, Hmv in Htrip.
    split; [exact Hm | split; [| split]].
    + destruct Hm as (_ & _ & _ & Hbefore).
      apply (Hbefore O s1 s2); [lia | reflexivity | reflexivity].
    + intros p Hp Hid. apply Hin in Hp. destruct Hp as [_ Hp].
      rewrite Hid, Htrip in Hp.
      split; [exact Hp | apply (movingPosition_status _ _ _ _ _ _ Hp)].
    + intros stop2 stop3 Ht Hs2 Hs3.
      unfold movingPosition in Htrip. rewrite Hs2, Hs3 in Htrip.
      match type of Htrip with _ = Some ?q => exists q end.
      split; [apply Hin; split; [exact Ht | exact Htrip] |].
      cbn. auto.
Qed.

(** On the three-stop sample at 250, between the departure from B (210)
    and the arrival at C (300). *)
Lemma one_position_from_first_match_witness :
  exists positions : list TrainPosition,
    calculateTrainPositions threeStopStore ["T2"] 250 = Ok positions
    /\ (List.length
          (filter (fun p => String.eqb (pos_trip_id p) "T2") positions)
        <= 1)%nat
    /\ exists p : TrainPosition,
         In p positions /\ pos_trip_id p = "T2" /\ status p = MOVING
         /\ prevStop p = Some stopB /\ nextStop p = Some stopC.
Proof.
  eexists. split; [apply calculateTrainPositions_spec |].
  destruct (one_position_from_first_match threeStopStore ["T2"] 250 _
              (calculateTrainPositions_spec threeStopStore 250 ["T2"]))
    as (Hone & _ & Hthree).
  split; [apply (Hone "T2"); reflexivity |].
  destruct (Hthree "T2" (stopTimeAt "T2" "A" 1 100 110)
              (stopTimeAt "T2" "B" 2 200 210) (stopTimeAt "T2" "C" 3 300 300)
              eq_refl eq_refl) as (_ & _ & _ & Hex).
  - cbn. lia.
  - apply (Hex stopB stopC); [now left | reflexivity | reflexivity].
Defined.

(* ================================================================== *)
(** ** The simulator: unresolved stops *)

(** C9. When the stop of the matched at-stop stop-time, or either end of
    the matched in-transit segment, is not in the stops table, the trip has
    no position in that tick: the scan ends at the first matching segment
    whatever the later segments are. *)
Theorem unresolved_stop_drops_position
  (gtfs : GTFSData) (activeTripIds : list string) (nowSeconds : Z)
  (positions : list TrainPosition) (t : string) (times : list StopTime)
  (i : nat) (current next : StopTime) :
  calculateTrainPositions gtfs activeTripIds nowSeconds = Ok positions ->
  JsMap.get (stopTimes gtfs) t = Some times ->
  firstMatchAt nowSeconds times i current next ->
  (if atStopCond nowSeconds current
   then JsMap.get (stops gtfs) (st_stop_id current) = None
   else JsMap.get (stops gtfs) (st_stop_id current) = None
        \/ JsMap.get (stops gtfs) (st_stop_id next) = None) ->
  forall p : TrainPosition, In p positions -> pos_trip_id p <> t.
Proof.
  intros Hcalc Ht Hm Hstop p Hp Hid.
  apply (In_positions _ _ _ _ p Hcalc) in Hp. destruct Hp as [_ Hp].
  rewrite Hid in Hp. unfold tripPosition in Hp.
  rewrite Ht, (firstMatchAt_length _ _ _ _ _ Hm) in Hp.
  destruct (inWindow nowSeconds times); [| discriminate].
  rewrite (firstSegment_at gtfs t nowSeconds times i current next Hm) in Hp.
  unfold segmentPosition, atStopPosition, movingPosition in Hp.
  destruct (atStopCond nowSeconds current).
  - rewrite Hstop in Hp. discriminate.
  - destruct (movingCond nowSeconds current next); [| discriminate].
    destruct Hstop as [Hs | Hs]; rewrite Hs in Hp;
      [| destruct (JsMap.get (stops gtfs) (st_stop_id current))];
      discriminate.
Qed.

(** At 200 the sample trip matches at its first stop, which is unknown; the
    next segment matches too and would resolve, and still nothing is
    pushed. *)
Lemma unresolved_stop_drops_position_witness :
  inWindow 200 unknownStopTimes = true
  /\ (exists q : TrainPosition,
         segmentPosition unknownStopStore "T9" 200
           (stopTimeAt "T9" "B" 2 150 250) (stopTimeAt "T9" "C" 3 400 400)
         = Some q)
  /\ exists positions : list TrainPosition,
       calculateTrainPositions unknownStopStore ["T9"] 200 = Ok positions
       /\ forall p : TrainPosition, In p positions -> pos_trip_id p <> "T9".
Proof.
  split; [reflexivity |]. split; [eexists; reflexivity |].
  eexists. split; [apply calculateTrainPositions_spec |].
  apply (unresolved_stop_drops_position unknownStopStore ["T9"] 200 _ "T9"
           unknownStopTimes 0 (stopTimeAt "T9" "X" 1 100 200)
           (stopTimeAt "T9" "B" 2 150 250)
           (calculateTrainPositions_spec unknownStopStore 200 ["T9"])
           eq_refl).
  - repeat split. intros j c n Hj. lia.
  - reflexivity.
Defined.

(* ================================================================== *)
(** ** The simulator: interpolation along a segment *)


(** *** Numbers: the operations on finite operands *)

Lemma Number_div_finite (x y : R) :
  y <> 0%R -> Number_div (Num x) (Num y) = Num (x / y).
Proof.
  intros Hy. cbn [Number_div].
  destruct (Req_dec_T y 0) as [E | _]; [contradiction | reflexivity].
Qed.







(* ================================================================== *)
(** ** The simulator: the edges of the trip window *)

(** Before the first departure and after the last arrival a trip has no
    position. *)
Lemma outside_window_no_position (gtfs : GTFSData) (now : Z) (t : string)
  (times : list StopTime) :
  JsMap.get (stopTimes gtfs) t = Some times ->
  now < firstDeparture times \/ lastArrival times < now ->
  tripPosition gtfs now t = None.
Proof.
  intros Ht Hout. unfold tripPosition. rewrite Ht.
  destruct (List.length times <? 2)%nat; [reflexivity |].
  replace (inWindow now times) with false; [reflexivity |].
  symmetry. unfold inWindow. apply andb_false_iff.
  destruct Hout; [left | right]; apply Z.leb_gt; assumption.
Qed.

(** At the first departure, a trip that does not leave its first stop before
    reaching it is AT_STOP there. *)
Lemma first_departure_at_stop (gtfs : GTFSData) (t : string)
  (first second : StopTime) (rest : list StopTime) :
  JsMap.get (stopTimes gtfs) t = Some (first :: second :: rest) ->
  arr first <= dep first ->
  dep first <= lastArrival (first :: second :: rest) ->
  tripPosition gtfs (dep first) t = atStopPosition gtfs t first second.
Proof.
  intros Ht Hdwell Hlast.
  assert (Hat : atStopCond (dep first) first = true).
  { unfold atStopCond. rewrite Z.geb_leb. apply andb_true_iff.
    split; apply Z.leb_le; lia. }
  rewrite (tripPosition_at gtfs (dep first) t _ 0 first second Ht).
  - unfold segmentPosition. now rewrite Hat.
  - unfold inWindow. apply andb_true_iff.
    split; apply Z.leb_le; [cbn; lia | exact Hlast].
  - repeat split.
    + unfold segmentMatches. now rewrite Hat.
    + intros j c n Hj. lia.
Qed.

(** The loop never takes the last stop-time as [current]: at the last
    arrival of a well-formed trip whose last leg takes time, no segment
    matches, although the window test lets the trip through. *)
Lemma last_arrival_not_scanned (gtfs : GTFSData) (t : string)
  (times : list StopTime) (beforeLast : StopTime) :
  JsMap.get (stopTimes gtfs) t = Some times ->
  wellFormed times = true ->
  nth_error times (List.length times - 2) = Some beforeLast ->
  (2 <= List.length times)%nat ->
  dep beforeLast < lastArrival times ->
  inWindow (lastArrival times) times = true
  /\ tripPosition gtfs (lastArrival times) t = None.
Proof.
  intros Ht Hwf Hb Hlen Hleg.
  destruct (nth_error_in_range _ times (List.length times - 1))
    as [lastStop Hl]; [lia |].
  destruct (nth_error_in_range _ times 0) as [firstStop Hf]; [lia |].
  assert (HL : lastArrival times = arr lastStop).
  { unfold lastArrival. now rewrite Hl. }
  assert (Hwin : inWindow (lastArrival times) times = true).
  { unfold inWindow. apply andb_true_iff. split; apply Z.leb_le; [| lia].
    unfold firstDeparture. rewrite Hf, HL.
    apply (wellFormed_ordered _ Hwf 0 (List.length times - 1)
             firstStop lastStop); [lia | exact Hf | exact Hl]. }
  split; [exact Hwin |].
  unfold tripPosition. rewrite Ht, Hwin.
  replace (List.length times <? 2)%nat with false
    by (symmetry; apply Nat.ltb_ge; exact Hlen).
  apply firstSegment_noMatch. intros j c n Hc Hn.
  assert (Hj : (S j < List.length times)%nat).
  { apply nth_error_Some. rewrite Hn. discriminate. }
  assert (Hdep : dep c <= dep beforeLast).
  { destruct (Nat.eq_dec j (List.length times - 2)) as [E | E].
    - rewrite <- E, Hc in Hb. injection Hb as ->. lia.
    - pose proof (wellFormed_ordered _ Hwf j (List.length times - 2)
                    c beforeLast ltac:(lia) Hc Hb).
      pose proof (wellFormed_dwell _ Hwf _ _ Hb). lia. }
  assert (Harr : arr n <= arr lastStop).
  { destruct (Nat.eq_dec (S j) (List.length times - 1)) as [E | E].
    - rewrite E, Hl in Hn. injection Hn as ->. lia.
    - pose proof (wellFormed_ordered _ Hwf (S j) (List.length times - 1)
                    n lastStop ltac:(lia) Hn Hl).
      pose proof (wellFormed_dwell _ Hwf _ _ Hn). lia. }
  unfold segmentMatches, atStopCond, movingCond.
  apply orb_false_iff. split; apply andb_false_iff; right.
  - apply Z.leb_gt. lia.
  - apply Z.ltb_ge. lia.
Qed.

(** C1. The trip of the sample store leaves A at 28800 and reaches B at
    32400.  One second early and one second late it has no position, and at
    28800 it is AT_STOP at A; at 32400, the last arrival, the simulator
    returns no position either, where the specification asks for AT_STOP at
    B. *)
Theorem last_arrival_instant_emits_nothing :
  firstDeparture morningTimes = 28800
  /\ lastArrival morningTimes = 32400
  /\ calculateTrainPositions morningStore ["T1"] 28799 = Ok []
  /\ calculateTrainPositions morningStore ["T1"] 28800
     = Ok [ {| pos_trip_id := "T1";
               lat := stop_lat stopA;
               lng := stop_lon stopA;
               bearing := 0%R;
               status := AT_STOP;
               nextStop := Some stopB;
               prevStop := Some stopA;
               route := None;
               trip := None;
               speedEstimate := None |} ]
  /\ inWindow 32400 morningTimes = true
  /\ calculateTrainPositions morningStore ["T1"] 32400 = Ok []
  /\ calculateTrainPositions morningStore ["T1"] 32401 = Ok [].
Proof.
  repeat split; reflexivity.
Qed.
(* ================================================================== *)
(** ** The simulator: bearings *)







(** The remainder of a number below the divisor is the number, and that of
    a number between once and twice the divisor is what exceeds it. *)
Lemma rem_below (a b : R) :
  (0 <= a < b)%R -> Finite.rem a b = a.
Proof.
  intros [Ha Hab]. unfold Finite.rem, truncate.
  assert (Hq : (0 <= a / b < 1)%R).
  { split.
    - unfold Rdiv. pose proof (Rinv_0_lt_compat b ltac:(lra)). nra.
    - apply (Rmult_lt_reg_r b); [lra |].
      unfold Rdiv. rewrite Rmult_assoc, Rinv_l; lra. }
  destruct (Rle_dec 0 (a / b)) as [_ | Hn]; [| lra].
  replace (Int_part (a / b)) with 0; [lra |].
  apply Int_part_spec. lra.
Qed.

Lemma rem_once (a b : R) :
  (b <= a < 2 * b)%R -> (0 < b)%R -> Finite.rem a b = (a - b)%R.
Proof.
  intros [Ha Hab] Hb. unfold Finite.rem, truncate.
  assert (Hq : (1 <= a / b < 2)%R).
  { split.
    - apply (Rmult_le_reg_r b); [lra |].
      unfold Rdiv. rewrite Rmult_assoc, Rinv_l; lra.
    - apply (Rmult_lt_reg_r b); [lra |].
      unfold Rdiv. rewrite Rmult_assoc, Rinv_l; lra. }
  destruct (Rle_dec 0 (a / b)) as [_ | Hn]; [| lra].
  replace (Int_part (a / b)) with 1; [lra |].
  apply Int_part_spec. lra.
Qed.



(** Due north: between two stops on one meridian, the second less than
    half a turn north of the first, the bearing is 0. *)
Lemma getBearing_due_north (lat1 lat2 lon : R) :
  (lat1 < lat2 < lat1 + 180)%R -> Finite.getBearing lat1 lon lat2 lon = 0%R.
Proof.
  intros [Hlo Hhi]. pose proof PI_RGT_0 as Hpi.
  unfold Finite.getBearing. cbv zeta.
  replace (Finite.toRad (lon - lon)) with 0%R by (unfold Finite.toRad; field).
  rewrite sin_0, cos_0, Rmult_0_l, Rmult_1_r.
  replace (cos (Finite.toRad lat1) * sin (Finite.toRad lat2)
           - sin (Finite.toRad lat1) * cos (Finite.toRad lat2))%R
    with (sin (Finite.toRad lat2 - Finite.toRad lat1))
    by (rewrite sin_minus; ring).
  assert (Hd : (0 < Finite.toRad lat2 - Finite.toRad lat1 < PI)%R).
  { unfold Finite.toRad.
    replace (lat2 * PI / 180 - lat1 * PI / 180)%R
      with ((lat2 - lat1) / 180 * PI)%R by field.
    assert (0 < (lat2 - lat1) / 180 < 1)%R by lra. nra. }
  pose proof (sin_gt_0 _ (proj1 Hd) (proj2 Hd)) as Hs.
  unfold angleOf.
  destruct (Rlt_dec 0 (sin (Finite.toRad lat2 - Finite.toRad lat1)))
    as [_ | Hn]; [| contradiction].
  unfold Rdiv at 1. rewrite Rmult_0_l, atan_0.
  replace (Finite.toDeg 0 + 360)%R with 360%R
    by (unfold Finite.toDeg; field; lra).
  rewrite rem_once; lra.
Qed.


(** *** The helpers on numbers, by cases *)

Lemma signOf_PI : signOf PI = Positive.
Proof.
  unfold signOf. destruct (Rlt_dec 0 PI) as [_ | H]; [reflexivity |].
  destruct (H PI_RGT_0).
Qed.

Lemma toRad_cases (a : number) :
  toRad a = match a with
            | Num x => Num (Finite.toRad x)
            | NaN => NaN
            | PosInfinity => PosInfinity
            | NegInfinity => NegInfinity
            end.
Proof.
  unfold toRad. destruct a as [x | | |]; cbn [Number_mul].
  - rewrite Number_div_finite by lra. reflexivity.
  - reflexivity.
  - rewrite signOf_PI. cbn [infinityOf Number_div].
    destruct (Rlt_dec 180 0); [lra | reflexivity].
  - rewrite signOf_PI. cbn [opposite infinityOf Number_div].
    destruct (Rlt_dec 180 0); [lra | reflexivity].
Qed.

Lemma toDeg_finite (x : R) : toDeg (Num x) = Num (Finite.toDeg x).
Proof.
  unfold toDeg. cbn [Number_mul].
  rewrite Number_div_finite; [reflexivity |].
  pose proof PI_RGT_0. lra.
Qed.

Lemma Number_rem_finite (x y : R) :
  y <> 0%R -> Number_rem (Num x) (Num y) = Num (Finite.rem x y).
Proof.
  intros Hy. cbn [Number_rem].
  destruct (Req_dec_T y 0); [contradiction | reflexivity].
Qed.

(** The bearing of four numbers is that of the real-number formula when
    all four are finite, and [NaN] when one is not. *)
Lemma getBearing_cases (lat1 lon1 lat2 lon2 : number) :
  getBearing lat1 lon1 lat2 lon2
  = match lat1, lon1, lat2, lon2 with
    | Num a1, Num o1, Num a2, Num o2 => Num (Finite.getBearing a1 o1 a2 o2)
    | _, _, _, _ => NaN
    end.
Proof.
  unfold getBearing. cbv zeta. rewrite !toRad_cases.
  destruct lat1 as [a1 | | |], lon1 as [o1 | | |], lat2 as [a2 | | |],
    lon2 as [o2 | | |];
    cbn [Number_sub Number_neg Number_add Number_mul Math_sin Math_cos
         Math_atan2];
    try (cbn [toDeg Number_mul Number_div Number_add Number_rem];
         reflexivity).
  rewrite toDeg_finite. cbn [Number_add].
  rewrite Number_rem_finite by lra.
  unfold Finite.getBearing. cbv zeta.
  replace (o2 + - o1)%R with (o2 - o1)%R by ring.
  replace (cos (Finite.toRad a1) * sin (Finite.toRad a2)
           + - (sin (Finite.toRad a1) * cos (Finite.toRad a2)
                * cos (Finite.toRad (o2 - o1))))%R
    with (cos (Finite.toRad a1) * sin (Finite.toRad a2)
          - sin (Finite.toRad a1) * cos (Finite.toRad a2)
            * cos (Finite.toRad (o2 - o1)))%R by ring.
  reflexivity.
Qed.

Lemma getBearing_finite (lat1 lon1 lat2 lon2 : R) :
  getBearing (Num lat1) (Num lon1) (Num lat2) (Num lon2)
  = Num (Finite.getBearing lat1 lon1 lat2 lon2).
Proof. apply getBearing_cases. Qed.


Lemma segmentPosition_bearing (gtfs : GTFSData) (t : string) (now : Z)
  (current next : StopTime) (p : TrainPosition) :
  segmentPosition gtfs t now current next = Some p ->
  (status p = AT_STOP /\ bearing p = 0%R
   /\ atStopCond now current = true)
  \/ (status p = MOVING
      /\ movingCond now current next = true
      /\ exists stopI stopJ : Stop,
           JsMap.get (stops gtfs) (st_stop_id current) = Some stopI
           /\ JsMap.get (stops gtfs) (st_stop_id next) = Some stopJ
           /\ prevStop p = Some stopI /\ nextStop p = Some stopJ
           /\ bearing p = getBearing (stop_lat stopI) (stop_lon stopI)
                            (stop_lat stopJ) (stop_lon stopJ)).
Proof.
  unfold segmentPosition, atStopPosition, movingPosition.
  destruct (atStopCond now current).
  - destruct (JsMap.get (stops gtfs) (st_stop_id current)); [| discriminate].
    intros H. injection H as <-. left. auto.
  - destruct (movingCond now current next); [| discriminate].
    destruct (JsMap.get (stops gtfs) (st_stop_id current)) as [stopI |];
      [| discriminate].
    destruct (JsMap.get (stops gtfs) (st_stop_id next)) as [stopJ |];
      [| discriminate].
    intros H. injection H as <-. right.
    split; [reflexivity |]. split; [reflexivity |].
    exists stopI, stopJ. cbn. auto.
Qed.




(* ================================================================== *)
(** ** Facts about [JsSet] and [JsMap] *)

Lemma JsSet_has_add (s : JsSet.t) (x y : string) :
  JsSet.has (JsSet.add s x) y = String.eqb x y || JsSet.has s y.
Proof.
  unfold JsSet.add.
  destruct (JsSet.has s x) eqn:Hx.
  - destruct (String.eqb_spec x y) as [<- | _]; [now rewrite Hx | reflexivity].
  - unfold JsSet.has. rewrite existsb_app. cbn [existsb].
    rewrite orb_false_r, (String.eqb_sym y x). apply orb_comm.
Qed.

Lemma JsSet_has_delete (s : JsSet.t) (x y : string) :
  JsSet.has (JsSet.delete s x) y = negb (String.eqb x y) && JsSet.has s y.
Proof.
  unfold JsSet.has, JsSet.delete.
  induction s as [| z s IH]; cbn [filter existsb].
  - now rewrite andb_false_r.
  - destruct (String.eqb_spec x z) as [<- | Hxz]; cbn [negb existsb].
    + rewrite IH, (String.eqb_sym y x).
      destruct (String.eqb x y); reflexivity.
    + rewrite IH. destruct (String.eqb_spec y z) as [<- | _].
      * apply not_eq_sym in Hxz. apply String.eqb_neq in Hxz.
        rewrite (String.eqb_sym x y), Hxz. reflexivity.
      * reflexivity.
Qed.

Lemma JsMap_get_None (V : Type) (m : JsMap.Map V) (k : string) :
  JsMap.get m k = None <-> existsb (String.eqb k) (JsMap.keys m) = false.
Proof.
  induction m as [| [k' v] m IH]; cbn [JsMap.get JsMap.keys map existsb fst].
  - tauto.
  - rewrite (String.eqb_sym k k').
    destruct (String.eqb k' k); cbn [orb]; [| exact IH].
    split; discriminate.
Qed.

Lemma JsMap_get_set (V : Type) (m : JsMap.Map V) (k k' : string) (v : V) :
  JsMap.get (JsMap.set m k v) k'
  = if String.eqb k k' then Some v else JsMap.get m k'.
Proof.
  induction m as [| [k0 v0] m IH]; cbn [JsMap.set JsMap.get].
  - reflexivity.
  - destruct (String.eqb_spec k0 k) as [-> | Hne]; cbn [JsMap.get].
    + destruct (String.eqb k k'); reflexivity.
    + rewrite IH. destruct (String.eqb_spec k0 k') as [<- | _]; [| reflexivity].
      apply not_eq_sym in Hne. apply String.eqb_neq in Hne.
      now rewrite Hne.
Qed.

Lemma JsMap_keys_set (V : Type) (m : JsMap.Map V) (k : string) (v : V) :
  JsMap.keys (JsMap.set m k v)
  = if existsb (String.eqb k) (JsMap.keys m) then JsMap.keys m
    else JsMap.keys m ++ [k].
Proof.
  induction m as [| [k0 v0] m IH];
    cbn [JsMap.set JsMap.keys map existsb fst app].
  - reflexivity.
  - rewrite (String.eqb_sym k k0).
    destruct (String.eqb_spec k0 k) as [-> | Hne];
      cbn [JsMap.keys map fst orb]; [reflexivity |].
    fold (JsMap.keys (JsMap.set m k v)). fold (JsMap.keys m). rewrite IH.
    destruct (existsb (String.eqb k) (JsMap.keys m)); reflexivity.
Qed.

Lemma uniqueb_snoc (l : list string) (k : string) :
  JsMap.uniqueb l = true -> existsb (String.eqb k) l = false ->
  JsMap.uniqueb (l ++ [k]) = true.
Proof.
  induction l as [| x l IH]; cbn [JsMap.uniqueb existsb app]; [reflexivity |].
  intros Hu Hk. apply andb_prop in Hu. destruct Hu as [Hx Hu].
  apply orb_false_elim in Hk. destruct Hk as [Hkx Hk].
  rewrite IH by assumption. rewrite existsb_app. cbn [existsb].
  rewrite (String.eqb_sym x k), Hkx.
  apply negb_true_iff in Hx. now rewrite Hx.
Qed.

Lemma JsMap_wf_set (V : Type) (m : JsMap.Map V) (k : string) (v : V) :
  JsMap.wf m = true -> JsMap.wf (JsMap.set m k v) = true.
Proof.
  unfold JsMap.wf. rewrite JsMap_keys_set. intros Hwf.
  destruct (existsb (String.eqb k) (JsMap.keys m)) eqn:Hk; [exact Hwf |].
  now apply uniqueb_snoc.
Qed.

(* ================================================================== *)
(** ** The resolver: the three passes against their characterisation *)

Section Resolver.

Variable gtfs : GTFSData.
Variable d : Date.

(** After the rule scan a service is active exactly when one of its rules
    matches the date. *)
Lemma checkStandardCalendar_has (s : string) :
  JsSet.has (checkStandardCalendar gtfs d) s
  = existsb (fun cal => ruleMatches d cal && String.eqb (cal_service_id cal) s)
      (JsMap.values (calendar gtfs)).
Proof.
  unfold checkStandardCalendar, JsMap.forEach, JsMap.values.
  change (existsb _ (map snd (calendar gtfs)))
    with (JsSet.has JsSet.empty s
          || existsb (fun cal => ruleMatches d cal
                                 && String.eqb (cal_service_id cal) s)
               (map snd (calendar gtfs))).
  generalize JsSet.empty.
  induction (calendar gtfs) as [| [k cal] m IH]; intros active;
    cbn [fold_left map existsb snd fst].
  - now rewrite orb_false_r.
  - rewrite IH. destruct (ruleMatches d cal); cbn [andb orb].
    + rewrite JsSet_has_add, orb_assoc.
      f_equal. apply orb_comm.
    + reflexivity.
Qed.

Lemma applyException_has (today serviceId : string) (active : JsSet.t)
  (cd : CalendarDate) (s : string) :
  JsSet.has (applyException today serviceId active cd) s
  = if String.eqb serviceId s
    then memberAfterException today (JsSet.has active s) cd
    else JsSet.has active s.
Proof.
  unfold applyException, memberAfterException.
  destruct (String.eqb (date cd) today);
    [| now destruct (String.eqb serviceId s)].
  destruct (String.eqb (exception_type cd) "1").
  - rewrite JsSet_has_add. now destruct (String.eqb serviceId s).
  - destruct (String.eqb (exception_type cd) "2");
      [| now destruct (String.eqb serviceId s)].
    rewrite JsSet_has_delete. now destruct (String.eqb serviceId s).
Qed.

(** The exceptions of one service, applied in list order. *)
Lemma applyExceptions_has (today serviceId : string)
  (dates : list CalendarDate) (s : string) :
  forall active : JsSet.t,
    JsSet.has (fold_left (applyException today serviceId) dates active) s
    = if String.eqb serviceId s
      then fold_left (memberAfterException today) dates (JsSet.has active s)
      else JsSet.has active s.
Proof.
  induction dates as [| cd dates IH]; intros active; cbn [fold_left].
  - now destruct (String.eqb serviceId s).
  - rewrite IH, applyException_has. now destruct (String.eqb serviceId s).
Qed.

(** The exception pass over a map of exceptions: the membership of [s]
    changes only through the list stored under [s]. *)
Lemma exceptionPass_has (today : string)
  (cds : JsMap.Map (list CalendarDate)) (s : string) :
  JsMap.wf cds = true ->
  forall active : JsSet.t,
    JsSet.has
      (JsMap.forEach cds
         (fun acc dates serviceId =>
            fold_left (applyException today serviceId) dates acc)
         active) s
    = match JsMap.get cds s with
      | Some dates =>
          fold_left (memberAfterException today) dates (JsSet.has active s)
      | None => JsSet.has active s
      end.
Proof.
  unfold JsMap.forEach, JsMap.wf.
  induction cds as [| [k dates] cds IH]; intros Hwf active;
    cbn [fold_left JsMap.get fst snd]; [reflexivity |].
  cbn [JsMap.keys map fst JsMap.uniqueb] in Hwf.
  apply andb_prop in Hwf. destruct Hwf as [Hk Hwf].
  rewrite (IH Hwf), applyExceptions_has.
  destruct (String.eqb_spec k s) as [-> | Hne]; [| reflexivity].
  apply negb_true_iff in Hk.
  apply (JsMap_get_None _ cds s) in Hk. now rewrite Hk.
Qed.

(** Without an entry under [s] the exception pass leaves [s] alone, whatever
    the map. *)
Lemma exceptionPass_untouched (today : string)
  (cds : JsMap.Map (list CalendarDate)) (s : string) :
  JsMap.get cds s = None ->
  forall active : JsSet.t,
    JsSet.has
      (JsMap.forEach cds
         (fun acc dates serviceId =>
            fold_left (applyException today serviceId) dates acc)
         active) s
    = JsSet.has active s.
Proof.
  unfold JsMap.forEach.
  induction cds as [| [k dates] cds IH]; intros Hget active;
    cbn [fold_left fst snd]; [reflexivity |].
  cbn [JsMap.get] in Hget.
  destruct (String.eqb k s) eqn:Hk; [discriminate |].
  rewrite (IH Hget), applyExceptions_has. now rewrite Hk.
Qed.

Lemma collectTrips_spec (active : JsSet.t) (m : JsMap.Map Trip) :
  forall acc : list string,
    fold_left
      (fun activeTripIds kv =>
         if JsSet.has active (service_id (snd kv))
         then activeTripIds ++ [trip_id (snd kv)]
         else activeTripIds)
      m acc
    = acc ++ map trip_id
               (filter (fun trip => JsSet.has active (service_id trip))
                  (map snd m)).
Proof.
  induction m as [| [k trip] m IH]; intros acc;
    cbn [fold_left map filter snd].
  - now rewrite app_nil_r.
  - rewrite IH.
    destruct (JsSet.has active (service_id trip));
      cbn [map]; [now rewrite <- app_assoc | reflexivity].
Qed.

(** The trips returned are those of the active services, in the order of
    the trips table. *)
Lemma getActiveTripsForToday_spec :
  getActiveTripsForToday gtfs d
  = map trip_id
      (filter (fun trip => JsSet.has (activeServiceIds gtfs d) (service_id trip))
         (JsMap.values (trips gtfs))).
Proof.
  unfold getActiveTripsForToday, JsMap.forEach, JsMap.values.
  apply (collectTrips_spec (activeServiceIds gtfs d) (trips gtfs) []).
Qed.

End Resolver.

(* ================================================================== *)
(** ** The resolver: exceptions over rules *)

Lemma activeServiceIds_has (gtfs : GTFSData) (d : Date)
  (cds : JsMap.Map (list CalendarDate)) (s : string) :
  calendarDates gtfs = Some cds ->
  JsMap.wf cds = true ->
  JsSet.has (activeServiceIds gtfs d) s
  = match JsMap.get cds s with
    | Some dates =>
        fold_left (memberAfterException (dateStr d)) dates
          (JsSet.has (checkStandardCalendar gtfs d) s)
    | None => JsSet.has (checkStandardCalendar gtfs d) s
    end.
Proof.
  intros Hcds Hwf. unfold activeServiceIds, checkExceptions. rewrite Hcds.
  now apply exceptionPass_has.
Qed.

Lemma no_rule_inactive (gtfs : GTFSData) (d : Date) (s : string) :
  (forall cal, In cal (JsMap.values (calendar gtfs)) -> cal_service_id cal <> s) ->
  JsSet.has (checkStandardCalendar gtfs d) s = false.
Proof.
  intros Hnone. rewrite checkStandardCalendar_has.
  apply not_true_is_false. intros H.
  apply existsb_exists in H. destruct H as (cal & Hin & Hcal).
  apply andb_prop in Hcal. destruct Hcal as [_ Hid].
  apply String.eqb_eq in Hid. exact (Hnone cal Hin Hid).
Qed.

(** C3. The exceptions are applied to the set the rule scan produced, each
    service's entries in turn: an entry for the query date makes the service
    a member when ADDED and a non-member when REMOVED, whatever it was
    before.  Hence a service with no rule and one ADDED entry is active on
    that entry's date and on no other, and a service with one REMOVED entry
    is inactive on that entry's date and, on every other date, active
    exactly when a rule of its own matches. *)
Theorem exceptions_after_rules
  (gtfs : GTFSData) (cds : JsMap.Map (list CalendarDate)) :
  calendarDates gtfs = Some cds ->
  JsMap.wf cds = true ->
  (forall (d : Date) (s : string),
      JsSet.has (activeServiceIds gtfs d) s
      = match JsMap.get cds s with
        | Some dates =>
            fold_left (memberAfterException (dateStr d)) dates
              (JsSet.has (checkStandardCalendar gtfs d) s)
        | None => JsSet.has (checkStandardCalendar gtfs d) s
        end)
  /\ (forall (s : string) (cd : CalendarDate),
         (forall cal, In cal (JsMap.values (calendar gtfs)) ->
                      cal_service_id cal <> s) ->
         JsMap.get cds s = Some [cd] ->
         exception_type cd = "1" ->
         forall d : Date,
           JsSet.has (activeServiceIds gtfs d) s
           = String.eqb (date cd) (dateStr d))
  /\ (forall (s : string) (cd : CalendarDate),
         JsMap.get cds s = Some [cd] ->
         exception_type cd = "2" ->
         forall d : Date,
           JsSet.has (activeServiceIds gtfs d) s
           = negb (String.eqb (date cd) (dateStr d))
             && JsSet.has (checkStandardCalendar gtfs d) s).
Proof.
  intros Hcds Hwf. split; [| split].
  - intros d s. now apply activeServiceIds_has.
  - intros s cd Hnone Hget Hty d.
    rewrite (activeServiceIds_has gtfs d cds s Hcds Hwf), Hget.
    rewrite (no_rule_inactive gtfs d s Hnone).
    cbn [fold_left]. unfold memberAfterException. rewrite Hty.
    now destruct (String.eqb (date cd) (dateStr d)).
  - intros s cd Hget Hty d.
    rewrite (activeServiceIds_has gtfs d cds s Hcds Hwf), Hget.
    cbn [fold_left]. unfold memberAfterException. rewrite Hty.
    now destruct (String.eqb (date cd) (dateStr d)).
Qed.

(** EXTRA, added on 5 January, is active on the 5th and not on the 4th or
    the 6th; WK, removed on 3 January, is inactive on the 3rd and active on
    the 2nd and the 4th. *)
Lemma exceptions_after_rules_witness :
  let gtfs := calendarStore exceptionRows in
  JsSet.has (activeServiceIds gtfs jan4) "EXTRA" = false
  /\ JsSet.has (activeServiceIds gtfs jan5) "EXTRA" = true
  /\ JsSet.has (activeServiceIds gtfs jan6) "EXTRA" = false
  /\ JsSet.has (activeServiceIds gtfs jan2) "WK" = true
  /\ JsSet.has (activeServiceIds gtfs jan3) "WK" = false
  /\ JsSet.has (activeServiceIds gtfs jan4) "WK" = true
  /\ getActiveTripsForToday gtfs jan3 = []
  /\ getActiveTripsForToday gtfs jan5 = ["w1"; "x1"; "w2"].
Proof.
  destruct (exceptions_after_rules (calendarStore exceptionRows)
              (parseCalendarDates exceptionRows) eq_refl eq_refl)
    as (_ & Hadded & Hremoved).
  assert (Hextra : forall d, JsSet.has (activeServiceIds
                                          (calendarStore exceptionRows) d) "EXTRA"
                             = String.eqb "20240105" (dateStr d)).
  { apply (Hadded "EXTRA" (mkCalendarDate "EXTRA" "20240105" "1"));
      [| reflexivity | reflexivity].
    intros cal [<- | []]. discriminate. }
  assert (Hwk : forall d, JsSet.has (activeServiceIds
                                       (calendarStore exceptionRows) d) "WK"
                          = negb (String.eqb "20240103" (dateStr d))
                            && JsSet.has (checkStandardCalendar
                                            (calendarStore exceptionRows) d) "WK").
  { apply (Hremoved "WK" (mkCalendarDate "WK" "20240103" "2"));
      reflexivity. }
  cbv zeta.
  rewrite (Hextra jan4), (Hextra jan5), (Hextra jan6).
  rewrite (Hwk jan2), (Hwk jan3), (Hwk jan4).
  repeat split; reflexivity.
Defined.

(* ================================================================== *)
(** ** The resolver: determinism *)

Lemma JsMap_get_Some_key (V : Type) (m : JsMap.Map V) (k : string) (v : V) :
  JsMap.get m k = Some v -> existsb (String.eqb k) (JsMap.keys m) = true.
Proof.
  intros H. destruct (existsb (String.eqb k) (JsMap.keys m)) eqn:E;
    [reflexivity |].
  apply JsMap_get_None in E. congruence.
Qed.

(** The values of a map are what its keys are bound to. *)
Lemma JsMap_In_values (V : Type) (m : JsMap.Map V) (v : V) :
  JsMap.wf m = true ->
  (In v (JsMap.values m) <-> exists k, JsMap.get m k = Some v).
Proof.
  unfold JsMap.wf.
  induction m as [| [k0 v0] m IH]; intros Hwf;
    cbn [JsMap.values map snd In JsMap.get].
  - split; [contradiction | intros [k H]; discriminate].
  - cbn [JsMap.keys map fst JsMap.uniqueb] in Hwf.
    apply andb_prop in Hwf. destruct Hwf as [Hk0 Hwf].
    apply negb_true_iff in Hk0.
    split.
    + intros [<- | Hin].
      * exists k0. now rewrite String.eqb_refl.
      * apply (IH Hwf) in Hin. destruct Hin as [k Hk]. exists k.
        destruct (String.eqb_spec k0 k) as [-> | _]; [| exact Hk].
        apply JsMap_get_Some_key in Hk. unfold JsMap.keys in Hk.
        congruence.
    + intros [k Hk].
      destruct (String.eqb k0 k).
      * left. congruence.
      * right. apply (IH Hwf). now exists k.
Qed.

Lemma sameEntries_values (V : Type) (m1 m2 : JsMap.Map V) :
  sameEntries m1 m2 ->
  forall v : V, In v (JsMap.values m1) <-> In v (JsMap.values m2).
Proof.
  intros (Hwf1 & Hwf2 & Hget) v.
  rewrite (JsMap_In_values _ m1 v Hwf1), (JsMap_In_values _ m2 v Hwf2).
  split; intros [k Hk]; exists k; [rewrite <- Hget | rewrite Hget];
    exact Hk.
Qed.

Lemma existsb_same_members (A : Type) (f : A -> bool) (l1 l2 : list A) :
  (forall x, In x l1 <-> In x l2) -> existsb f l1 = existsb f l2.
Proof.
  intros H. apply eq_true_iff_eq. rewrite !existsb_exists.
  split; intros (x & Hin & Hf); exists x; split; auto; now apply H.
Qed.

Lemma identicalInputs_activeServiceIds (gtfs1 gtfs2 : GTFSData) (d : Date)
  (s : string) :
  identicalInputs gtfs1 gtfs2 ->
  JsSet.has (activeServiceIds gtfs1 d) s = JsSet.has (activeServiceIds gtfs2 d) s.
Proof.
  intros [-> | (Hcal & _ & Hexc)]; [reflexivity |].
  assert (Hrule : JsSet.has (checkStandardCalendar gtfs1 d) s
                  = JsSet.has (checkStandardCalendar gtfs2 d) s).
  { rewrite !checkStandardCalendar_has.
    apply existsb_same_members, sameEntries_values, Hcal. }
  destruct (calendarDates gtfs1) as [cds1 |] eqn:H1;
    destruct (calendarDates gtfs2) as [cds2 |] eqn:H2; try contradiction.
  - destruct Hexc as (Hwf1 & Hwf2 & Hget).
    rewrite (activeServiceIds_has gtfs1 d cds1 s H1 Hwf1),
      (activeServiceIds_has gtfs2 d cds2 s H2 Hwf2), Hget, Hrule.
    reflexivity.
  - unfold activeServiceIds, checkExceptions. rewrite H1, H2. exact Hrule.
Qed.

(** C8. The resolver is deterministic: on identical inputs (the same store,
    or stores whose tables hold the same entries in whatever insertion
    order, and the same date) two invocations return the same set of trip
    ids. *)
Theorem resolver_deterministic (gtfs1 gtfs2 : GTFSData) (d : Date) :
  identicalInputs gtfs1 gtfs2 ->
  forall t : string,
    In t (getActiveTripsForToday gtfs1 d)
    <-> In t (getActiveTripsForToday gtfs2 d).
Proof.
  intros Hsame t.
  rewrite !getActiveTripsForToday_spec, !in_map_iff.
  assert (Htrips : forall trip, In trip (JsMap.values (trips gtfs1))
                                <-> In trip (JsMap.values (trips gtfs2))).
  { destruct Hsame as [-> | (_ & Htr & _)]; [reflexivity |].
    now apply sameEntries_values. }
  split; intros (trip & Hid & Hin); exists trip; (split; [exact Hid |]);
    apply filter_In in Hin; destruct Hin as [Hin Hact]; apply filter_In;
    (split; [now apply Htrips |]).
  - now rewrite <- (identicalInputs_activeServiceIds gtfs1 gtfs2 d _ Hsame).
  - now rewrite (identicalInputs_activeServiceIds gtfs1 gtfs2 d _ Hsame).
Qed.

(** Run twice on the sample store, the resolver returns the same trips; run
    on the store whose tables were filled in the opposite order it returns
    them in another order, the same as a set. *)
Lemma resolver_deterministic_witness :
  getActiveTripsForToday (calendarStore exceptionRows) jan5
  = ["w1"; "x1"; "w2"]
  /\ getActiveTripsForToday (reversedCalendarStore exceptionRows) jan5
     = ["w2"; "x1"; "w1"]
  /\ (forall t : string,
         In t (getActiveTripsForToday (calendarStore exceptionRows) jan5)
         <-> In t (getActiveTripsForToday (calendarStore exceptionRows) jan5))
  /\ (forall t : string,
         In t (getActiveTripsForToday (calendarStore exceptionRows) jan5)
         <-> In t (getActiveTripsForToday
                     (reversedCalendarStore exceptionRows) jan5)).
Proof.
  split; [reflexivity |]. split; [reflexivity |]. split.
  - apply (resolver_deterministic (calendarStore exceptionRows)
             (calendarStore exceptionRows) jan5).
    left. reflexivity.
  - apply (resolver_deterministic (calendarStore exceptionRows)
             (reversedCalendarStore exceptionRows) jan5).
    right. split; [| split].
    + split; [reflexivity |]. split; [reflexivity |]. reflexivity.
    + split; [reflexivity |]. split; [reflexivity |].
      intros k. unfold calendarStore, reversedCalendarStore, sampleTrips.
      cbn [trips rev app JsMap.get].
      destruct (String.eqb "w1" k) eqn:E1; destruct (String.eqb "x1" k) eqn:E2;
        destruct (String.eqb "w2" k) eqn:E3; try reflexivity;
        repeat match goal with
               | H : String.eqb _ _ = true |- _ => apply String.eqb_eq in H
               end; congruence.
    + split; [reflexivity |]. split; [reflexivity |].
      intros k.
      change (parseCalendarDates exceptionRows)
        with [("EXTRA", [mkCalendarDate "EXTRA" "20240105" "1"]);
              ("WK", [mkCalendarDate "WK" "20240103" "2"])].
      change (parseCalendarDates (rev exceptionRows))
        with [("WK", [mkCalendarDate "WK" "20240103" "2"]);
              ("EXTRA", [mkCalendarDate "EXTRA" "20240105" "1"])].
      cbn [JsMap.get].
      destruct (String.eqb "EXTRA" k) eqn:E1; destruct (String.eqb "WK" k) eqn:E2;
        try reflexivity.
      apply String.eqb_eq in E1. apply String.eqb_eq in E2. congruence.
Defined.

(* ================================================================== *)
(** ** The loader: exceptions grouped by service, in file order *)

Lemma groupCalendarDate_get (m : JsMap.Map (list CalendarDate))
  (cd : CalendarDate) (s : string) :
  JsMap.get (groupCalendarDate m cd) s
  = if String.eqb (cd_service_id cd) s
    then Some (match JsMap.get m s with
               | Some l => l ++ [cd]
               | None => [cd]
               end)
    else JsMap.get m s.
Proof.
  unfold groupCalendarDate, JsMap.has.
  destruct (JsMap.get m (cd_service_id cd)) as [l |] eqn:Hget; cbn [negb].
  - rewrite Hget, JsMap_get_set.
    destruct (String.eqb_spec (cd_service_id cd) s) as [<- | _];
      [now rewrite Hget | reflexivity].
  - rewrite JsMap_get_set, String.eqb_refl, !JsMap_get_set.
    destruct (String.eqb_spec (cd_service_id cd) s) as [<- | _];
      [now rewrite Hget | reflexivity].
Qed.

Lemma groupCalendarDate_wf (m : JsMap.Map (list CalendarDate))
  (cd : CalendarDate) :
  JsMap.wf m = true -> JsMap.wf (groupCalendarDate m cd) = true.
Proof.
  intros Hwf. unfold groupCalendarDate.
  set (m1 := if negb (JsMap.has m (cd_service_id cd))
             then JsMap.set m (cd_service_id cd) [] else m).
  assert (Hwf1 : JsMap.wf m1 = true).
  { unfold m1. destruct (negb (JsMap.has m (cd_service_id cd)));
      [now apply JsMap_wf_set | exact Hwf]. }
  destruct (JsMap.get m1 (cd_service_id cd));
    [now apply JsMap_wf_set | exact Hwf1].
Qed.

Lemma groupCalendarDates_get (raw : list CalendarDate) (s : string) :
  forall m : JsMap.Map (list CalendarDate),
    JsMap.get (fold_left groupCalendarDate raw m) s
    = match filter (fun cd => String.eqb (cd_service_id cd) s) raw with
      | [] => JsMap.get m s
      | l => Some (match JsMap.get m s with
                   | Some l0 => l0
                   | None => []
                   end ++ l)
      end.
Proof.
  induction raw as [| cd raw IH]; intros m; cbn [fold_left filter];
    [reflexivity |].
  rewrite IH, groupCalendarDate_get.
  destruct (String.eqb (cd_service_id cd) s); [| reflexivity].
  destruct (filter (fun cd0 => String.eqb (cd_service_id cd0) s) raw)
    as [| cd' l]; destruct (JsMap.get m s) as [l0 |];
    cbn [app]; try reflexivity; now rewrite <- app_assoc.
Qed.

(** The list stored for a service is that service's rows, in the order of
    the file. *)
Lemma parseCalendarDates_get (raw : list CalendarDate) (s : string) :
  JsMap.get (parseCalendarDates raw) s
  = match filter (fun cd => String.eqb (cd_service_id cd) s) raw with
    | [] => None
    | l => Some l
    end.
Proof.
  unfold parseCalendarDates. rewrite groupCalendarDates_get. reflexivity.
Qed.

Lemma parseCalendarDates_wf (raw : list CalendarDate) :
  JsMap.wf (parseCalendarDates raw) = true.
Proof.
  unfold parseCalendarDates.
  assert (H : forall m, JsMap.wf m = true ->
                        JsMap.wf (fold_left groupCalendarDate raw m) = true).
  { induction raw as [| cd raw IH]; intros m Hm; cbn [fold_left];
      [exact Hm |].
    apply IH. now apply groupCalendarDate_wf. }
  now apply H.
Qed.

(* ================================================================== *)
(** ** The resolver: several exceptions for one date *)

Lemma memberAfterException_other_dates (today : string)
  (post : list CalendarDate) :
  (forall cd', In cd' post -> date cd' <> today) ->
  forall member : bool,
    fold_left (memberAfterException today) post member = member.
Proof.
  induction post as [| cd post IH]; intros Hpost member; cbn [fold_left];
    [reflexivity |].
  rewrite IH by (intros cd' Hin; apply Hpost; now right).
  unfold memberAfterException.
  assert (Hne : date cd <> today) by (apply Hpost; now left).
  apply String.eqb_neq in Hne. now rewrite Hne.
Qed.

(** C10. The exception entries of a service are applied in the order of the
    service's list, so that when several of them are for the query date the
    last one decides: the service ends up active when that entry is ADDED
    and inactive when it is REMOVED, whatever the rule scan and the earlier
    entries said. *)
Theorem last_exception_decides
  (gtfs : GTFSData) (cds : JsMap.Map (list CalendarDate)) (d : Date)
  (s : string) (dates : list CalendarDate) :
  calendarDates gtfs = Some cds ->
  JsMap.wf cds = true ->
  JsMap.get cds s = Some dates ->
  JsSet.has (activeServiceIds gtfs d) s
  = fold_left (memberAfterException (dateStr d)) dates
      (JsSet.has (checkStandardCalendar gtfs d) s)
  /\ forall (pre post : list CalendarDate) (cd : CalendarDate),
       dates = pre ++ cd :: post ->
       date cd = dateStr d ->
       exception_type cd = "1" \/ exception_type cd = "2" ->
       (forall cd', In cd' post -> date cd' <> dateStr d) ->
       JsSet.has (activeServiceIds gtfs d) s
       = String.eqb (exception_type cd) "1".
Proof.
  intros Hcds Hwf Hget.
  pose proof (activeServiceIds_has gtfs d cds s Hcds Hwf) as Hact.
  rewrite Hget in Hact. split; [exact Hact |].
  intros pre post cd -> Hdate Hty Hpost.
  rewrite Hact, fold_left_app. cbn [fold_left].
  rewrite (memberAfterException_other_dates _ post Hpost).
  unfold memberAfterException.
  rewrite Hdate, String.eqb_refl.
  destruct Hty as [-> | ->]; reflexivity.
Qed.

(** On 3 January the rows of the sample file add WK and then remove it, and
    remove EXTRA and then add it: WK, which its rule makes active, ends up
    inactive, and EXTRA, which has no rule, ends up active. *)
Lemma last_exception_decides_witness :
  let gtfs := calendarStore conflictingRows in
  JsSet.has (checkStandardCalendar gtfs jan3) "WK" = true
  /\ JsSet.has (activeServiceIds gtfs jan3) "WK" = false
  /\ JsSet.has (checkStandardCalendar gtfs jan3) "EXTRA" = false
  /\ JsSet.has (activeServiceIds gtfs jan3) "EXTRA" = true
  /\ getActiveTripsForToday gtfs jan3 = ["x1"].
Proof.
  cbv zeta. split; [reflexivity |]. split; [| split; [reflexivity | split]].
  - destruct (last_exception_decides (calendarStore conflictingRows)
                (parseCalendarDates conflictingRows) jan3 "WK"
                [mkCalendarDate "WK" "20240103" "1";
                 mkCalendarDate "WK" "20240103" "2"]
                eq_refl (parseCalendarDates_wf conflictingRows) eq_refl)
      as [_ Hlast].
    apply (Hlast [mkCalendarDate "WK" "20240103" "1"] []
             (mkCalendarDate "WK" "20240103" "2"));
      [reflexivity | reflexivity | now right | intros cd' []].
  - destruct (last_exception_decides (calendarStore conflictingRows)
                (parseCalendarDates conflictingRows) jan3 "EXTRA"
                [mkCalendarDate "EXTRA" "20240103" "2";
                 mkCalendarDate "EXTRA" "20240103" "1"]
                eq_refl (parseCalendarDates_wf conflictingRows) eq_refl)
      as [_ Hlast].
    apply (Hlast [mkCalendarDate "EXTRA" "20240103" "2"] []
             (mkCalendarDate "EXTRA" "20240103" "1"));
      [reflexivity | reflexivity | now left | intros cd' []].
  - reflexivity.
Defined.

(* ================================================================== *)
(** ** Strings of digits and the numbers they write *)

(** Settles a fact about a digit character by running through the
    characters. *)
Ltac by_digit_cases c H :=
  destruct c as [[] [] [] [] [] [] [] []];
  vm_compute in H; try discriminate H.

Lemma digit_not_white (c : ascii) : isDigit c = true -> isWhiteSpace c = false.
Proof. intros H. by_digit_cases c H; reflexivity. Qed.

Lemma digit_not_colon (c : ascii) : isDigit c = true -> Ascii.eqb c ":" = false.
Proof. intros H. by_digit_cases c H; reflexivity. Qed.

Lemma digitValue_digit (c : ascii) :
  isDigit c = true ->
  digitValue 10 c = Some (Z.of_nat (nat_of_ascii c) - 48).
Proof.
  unfold isDigit, digitValue. cbv zeta. intros H. rewrite H.
  apply andb_prop in H. destruct H as [H1 H2].
  apply Z.leb_le in H1. apply Z.leb_le in H2.
  replace (Z.of_nat (nat_of_ascii c) - 48 <? 10) with true; [reflexivity |].
  symmetry. apply Z.ltb_lt. lia.
Qed.

Lemma digitsPrefix_numeral (s : string) :
  numeral s = true ->
  forall acc : option Z,
    digitsPrefix 10 s acc
    = match s with
      | EmptyString => acc
      | String _ _ => Some (numeralValue s (orZero acc))
      end.
Proof.
  induction s as [| c s IH]; intros Hs acc; [reflexivity |].
  cbn [numeral] in Hs. apply andb_prop in Hs. destruct Hs as [Hc Hs].
  cbn [digitsPrefix numeralValue]. rewrite (digitValue_digit c Hc).
  rewrite (IH Hs). destruct s; reflexivity.
Qed.

Lemma numeral_app (s1 s2 : string) :
  numeral (s1 ++ s2)%string = numeral s1 && numeral s2.
Proof.
  induction s1 as [| c s1 IH]; cbn [String.append numeral]; [reflexivity |].
  rewrite IH. apply andb_assoc.
Qed.

Lemma numeralValue_app (s1 s2 : string) :
  forall acc : Z,
    numeralValue (s1 ++ s2)%string acc = numeralValue s2 (numeralValue s1 acc).
Proof.
  induction s1 as [| c s1 IH]; intros acc; cbn [String.append numeralValue];
    [reflexivity | apply IH].
Qed.

Lemma numeralValue_shift (s : string) :
  forall acc : Z,
    numeralValue s acc
    = acc * 10 ^ Z.of_nat (String.length s) + numeralValue s 0.
Proof.
  induction s as [| c s IH]; intros acc; cbn [numeralValue String.length].
  - cbn. lia.
  - rewrite (IH (acc * 10 + _)), (IH (0 * 10 + _)).
    rewrite Nat2Z.inj_succ, Z.pow_succ_r by lia. ring.
Qed.

(** A leading sign, blank or [0x] is what [parseInt] looks for before the
    digits: a string of digits has none, so both readings give its value. *)
Lemma parseInt10_numeral (s : string) :
  numeral s = true -> s <> "" -> parseInt10 s = Some (numeralValue s 0).
Proof.
  intros Hs Hne. destruct s as [| c s']; [contradiction |].
  pose proof (digitsPrefix_numeral _ Hs None) as Hd. cbn [orZero] in Hd.
  cbn [numeral] in Hs. apply andb_prop in Hs. destruct Hs as [Hc _].
  assert (Hstart : parseInt10 (String c s')
                   = match digitsPrefix 10 (String c s') None with
                     | Some n => Some (1 * n)
                     | None => None
                     end).
  { by_digit_cases c Hc; reflexivity. }
  rewrite Hstart, Hd. f_equal. lia.
Qed.

Lemma parseInt_numeral (s : string) :
  numeral s = true -> s <> "" -> parseInt s = Some (numeralValue s 0).
Proof.
  intros Hs Hne. destruct s as [| c s']; [contradiction |].
  pose proof (digitsPrefix_numeral _ Hs None) as Hd. cbn [orZero] in Hd.
  cbn [numeral] in Hs. apply andb_prop in Hs. destruct Hs as [Hc Hs'].
  assert (Hstart : parseInt (String c s')
                   = match digitsPrefix 10 (String c s') None with
                     | Some n => Some (1 * n)
                     | None => None
                     end).
  { destruct s' as [| c' s''].
    - by_digit_cases c Hc; reflexivity.
    - cbn [numeral] in Hs'. apply andb_prop in Hs'. destruct Hs' as [Hc' _].
      by_digit_cases c Hc; try reflexivity.
      by_digit_cases c' Hc'; reflexivity. }
  rewrite Hstart, Hd. f_equal. lia.
Qed.

Lemma numeral_string_of_uint (d : Decimal.uint) :
  numeral (NilEmpty.string_of_uint d) = true.
Proof. induction d; cbn [NilEmpty.string_of_uint numeral]; auto. Qed.

(** Replaces the code of a literal digit character by its value. *)
Ltac digit_code :=
  match goal with
  | |- context [Z.of_nat (nat_of_ascii ?c) - 48] =>
      let v := eval vm_compute in (Z.of_nat (nat_of_ascii c) - 48) in
      change (Z.of_nat (nat_of_ascii c) - 48) with v
  end.

Lemma numeralValue_string_of_uint (d : Decimal.uint) :
  forall acc : Z,
    numeralValue (NilEmpty.string_of_uint d) acc
    = acc * 10 ^ Z.of_N (DecimalPos.Unsigned.usize d)
      + Z.of_N (DecimalPos.Unsigned.of_lu (Decimal.rev d)).
Proof.
  induction d; intros acc;
    cbn [NilEmpty.string_of_uint numeralValue DecimalPos.Unsigned.usize];
    [cbn; lia | ..];
    digit_code; rewrite IHd;
    unfold Decimal.rev; cbn [Decimal.revapp];
    rewrite (DecimalPos.Unsigned.of_lu_revapp d (_ Decimal.Nil));
    cbn [DecimalPos.Unsigned.of_lu];
    rewrite N2Z.inj_add, N2Z.inj_mul, N2Z.inj_pow, N2Z.inj_succ;
    rewrite Z.pow_succ_r by apply N2Z.is_nonneg;
    unfold Decimal.rev;
    match goal with
    | |- context [Z.of_N ?a * Z.of_N 10 ^ _] =>
        let v := eval vm_compute in (Z.of_N a) in
        change (Z.of_N a) with v
    end;
    change (Z.of_N 10) with 10; ring.
Qed.

(** [toString] of a natural number is its decimal numeral. *)
Lemma toString_numeral (n : Z) :
  0 <= n ->
  numeral (toString n) = true
  /\ toString n <> ""
  /\ numeralValue (toString n) 0 = n.
Proof.
  intros Hn. destruct n as [| p | p]; [repeat split; discriminate | | lia].
  unfold toString. cbn [Z.to_int NilZero.string_of_int].
  pose proof (DecimalPos.Unsigned.to_uint_nonnil p) as Hnil.
  unfold NilZero.string_of_uint.
  destruct (Pos.to_uint p) as [| d | d | d | d | d | d | d | d | d | d] eqn:E;
    [contradiction | ..];
    rewrite <- E;
    (split; [apply numeral_string_of_uint |]);
    (split; [rewrite E; discriminate |]);
    rewrite numeralValue_string_of_uint,
      <- DecimalPos.Unsigned.of_uint_alt, DecimalPos.Unsigned.of_to;
    cbn; lia.
Qed.

(** Padding a numeral to two places keeps it a numeral of the same
    value. *)
Lemma padStart_numeral (s : string) :
  numeral s = true -> s <> "" ->
  numeral (padStart s 2 "0") = true
  /\ padStart s 2 "0" <> ""
  /\ numeralValue (padStart s 2 "0") 0 = numeralValue s 0
  /\ (2 <= String.length (padStart s 2 "0"))%nat.
Proof.
  intros Hs Hne. destruct s as [| c1 [| c2 s']]; [contradiction | |].
  - change (padStart (String c1 "") 2 "0") with (String "0" (String c1 "")).
    cbn [numeral] in *.
    repeat split; auto; try discriminate; try (cbn [String.length]; lia).
  - change (padStart (String c1 (String c2 s')) 2 "0")
      with (String c1 (String c2 s')).
    repeat split; auto; try discriminate; try (cbn [String.length]; lia).
Qed.

(** The two-place text of a natural number. *)
Lemma pad2_spec (n : Z) :
  0 <= n ->
  numeral (padStart (toString n) 2 "0") = true
  /\ padStart (toString n) 2 "0" <> ""
  /\ numeralValue (padStart (toString n) 2 "0") 0 = n.
Proof.
  intros Hn. destruct (toString_numeral n Hn) as (H1 & H2 & H3).
  destruct (padStart_numeral _ H1 H2) as (P1 & P2 & P3 & _).
  rewrite P3, H3. auto.
Qed.

(* ================================================================== *)
(** ** The time codec *)

Lemma split_lacks (sep : ascii) (s : string) :
  lacksChar sep s = true -> split sep s = [s].
Proof.
  induction s as [| c s IH]; cbn [lacksChar split]; [reflexivity |].
  intros H. apply andb_prop in H. destruct H as [Hc Hs].
  apply negb_true_iff in Hc. rewrite Hc, (IH Hs). reflexivity.
Qed.

Lemma numeral_lacks_colon (s : string) :
  numeral s = true -> lacksChar ":" s = true.
Proof.
  induction s as [| c s IH]; cbn [numeral lacksChar]; [reflexivity |].
  intros H. apply andb_prop in H. destruct H as [Hc Hs].
  now rewrite (digit_not_colon c Hc), (IH Hs).
Qed.

Lemma split_numeral_colon (a b : string) :
  numeral a = true ->
  split ":" (a ++ String ":" b)%string = a :: split ":" b.
Proof.
  induction a as [| c a IH]; cbn [numeral String.append split].
  - reflexivity.
  - intros H. apply andb_prop in H. destruct H as [Hc Ha].
    now rewrite (digit_not_colon c Hc), (IH Ha).
Qed.

Lemma append_nonempty (a b : string) :
  a <> "" -> String.eqb (a ++ b)%string "" = false.
Proof. destruct a; [contradiction | reflexivity]. Qed.

(** X1. A time of day written as hours, minutes and seconds, each a
    natural number on two digits at least, reads back as
    [h * 3600 + m * 60 + s], as long as that sum is a number that holds
    integers exactly (at most [2^53 - 1]); the hours are not limited to 23,
    so the times past midnight of an overnight trip count on from 86400. *)
Theorem timeToSeconds_clockText (h m s : Z) :
  0 <= h -> 0 <= m -> 0 <= s ->
  h * 3600 + m * 60 + s <= MAX_SAFE_INTEGER ->
  timeToSeconds (clockText h m s) = Some (h * 3600 + m * 60 + s).
Proof.
  intros Hh Hm Hs _.
  destruct (pad2_spec h Hh) as (Nh & Eh & Vh).
  destruct (pad2_spec m Hm) as (Nm & Em & Vm).
  destruct (pad2_spec s Hs) as (Ns & Es & Vs).
  unfold timeToSeconds, clockText.
  rewrite (append_nonempty _ _ Eh).
  change (":" ++ ?x)%string with (String ":" x).
  cbv zeta.
  rewrite (split_numeral_colon _ _ Nh).
  change (":" ++ ?x)%string with (String ":" x).
  rewrite (split_numeral_colon _ _ Nm).
  rewrite (split_lacks _ _ (numeral_lacks_colon _ Ns)).
  cbn [nth_error stringOf].
  replace (String.eqb (padStart (toString s) 2 "0") "") with false
    by (destruct (padStart (toString s) 2 "0"); [contradiction | reflexivity]).
  rewrite (parseInt10_numeral _ Nh Eh), (parseInt10_numeral _ Nm Em),
    (parseInt10_numeral _ Ns Es), Vh, Vm, Vs.
  reflexivity.
Qed.

(** 25:10:05, ten minutes and five seconds past one in the night after. *)
Lemma timeToSeconds_clockText_witness :
  clockText 25 10 5 = "25:10:05"
  /\ timeToSeconds "25:10:05" = Some 90605.
Proof.
  split; [reflexivity |].
  apply (timeToSeconds_clockText 25 10 5); unfold MAX_SAFE_INTEGER; lia.
Defined.

(** X2. The sidebar's [formatTime] writes hours and minutes only: read back
    by [timeToSeconds], the text of a time gives the start of its minute,
    for a whole number of seconds from 0 to [2^53 - 1]. *)
Theorem timeToSeconds_formatTime (seconds : Z) :
  0 <= seconds <= MAX_SAFE_INTEGER ->
  timeToSeconds (formatTime seconds) = Some (seconds - seconds mod 60).
Proof.
  intros [Hs _].
  assert (Hh : 0 <= seconds / 3600) by (apply Z.div_pos; lia).
  assert (Hrem : Z.rem seconds 3600 = seconds mod 3600)
    by (apply Z.rem_mod_nonneg; lia).
  assert (Hm : 0 <= Z.rem seconds 3600 / 60).
  { rewrite Hrem. apply Z.div_pos; [| lia].
    apply Z.mod_pos_bound. lia. }
  destruct (pad2_spec _ Hh) as (Nh & Eh & Vh).
  destruct (pad2_spec _ Hm) as (Nm & Em & Vm).
  unfold timeToSeconds, formatTime. cbv zeta.
  rewrite (append_nonempty _ _ Eh).
  change (":" ++ ?x)%string with (String ":" x).
  rewrite (split_numeral_colon _ _ Nh).
  rewrite (split_lacks _ _ (numeral_lacks_colon _ Nm)).
  cbn [nth_error stringOf].
  rewrite (parseInt10_numeral _ Nh Eh), (parseInt10_numeral _ Nm Em), Vh, Vm.
  cbn [num_mul num_add]. f_equal. rewrite Hrem.
  Z.div_mod_to_equations. lia.
Qed.

(** 09:00:59 is shown as "09:00", which reads back as 09:00:00. *)
Lemma timeToSeconds_formatTime_witness :
  formatTime 32459 = "09:00"
  /\ timeToSeconds (formatTime 32459) = Some 32400.
Proof.
  split; [reflexivity |].
  apply (timeToSeconds_formatTime 32459). unfold MAX_SAFE_INTEGER. lia.
Defined.

(** X3. A time text without a colon has no minutes field: unless it is
    empty, in which case the result is 0, [timeToSeconds] returns [NaN]. *)
Theorem timeToSeconds_without_colon (timeStr : string) :
  lacksChar ":" timeStr = true ->
  timeToSeconds timeStr = if String.eqb timeStr "" then Some 0 else None.
Proof.
  intros H. unfold timeToSeconds. cbv zeta.
  destruct (String.eqb timeStr ""); [reflexivity |].
  rewrite (split_lacks _ _ H). cbn [nth_error stringOf].
  change (parseInt10 "undefined") with (@None Z).
  now destruct (parseInt10 timeStr).
Qed.

Lemma timeToSeconds_without_colon_witness :
  timeToSeconds "0800" = None /\ timeToSeconds "" = Some 0.
Proof.
  split.
  - apply (timeToSeconds_without_colon "0800"). reflexivity.
  - apply (timeToSeconds_without_colon ""). reflexivity.
Defined.

(* ================================================================== *)
(** ** The resolver: the date key, and what activates a service *)

Lemma pad2_length (n : Z) :
  0 <= n < 100 -> String.length (padStart (toString n) 2 "0") = 2%nat.
Proof.
  intros Hn.
  assert (Hall : forallb
                   (fun k => Nat.eqb (String.length
                                        (padStart (toString (Z.of_nat k)) 2 "0")) 2)
                   (seq 0 100) = true) by (vm_compute; reflexivity).
  rewrite forallb_forall in Hall.
  specialize (Hall (Z.to_nat n)). rewrite Z2Nat.id in Hall by lia.
  apply Nat.eqb_eq, Hall, in_seq. lia.
Qed.

Lemma dateInt_formula (d : Date) :
  0 <= getFullYear d ->
  0 <= getMonth d <= 11 ->
  1 <= getDate d <= 31 ->
  dateInt d
  = Some (getFullYear d * 10000 + (getMonth d + 1) * 100 + getDate d)
  /\ numeral (dateStr d) = true.
Proof.
  intros Hy Hm Hd.
  destruct (toString_numeral _ Hy) as (Ny & Ey & Vy).
  destruct (pad2_spec (getMonth d + 1) ltac:(lia)) as (Nm & Em & Vm).
  destruct (pad2_spec (getDate d) ltac:(lia)) as (Nd & Ed & Vd).
  pose proof (pad2_length (getMonth d + 1) ltac:(lia)) as Lm.
  pose proof (pad2_length (getDate d) ltac:(lia)) as Ld.
  assert (Hnum : numeral (dateStr d) = true).
  { unfold dateStr. cbv zeta. now rewrite !numeral_app, Ny, Nm, Nd. }
  split; [| exact Hnum].
  unfold dateInt. rewrite (parseInt_numeral _ Hnum).
  - f_equal. unfold dateStr. cbv zeta.
    rewrite !numeralValue_app, Vy.
    rewrite (numeralValue_shift (padStart (toString (getDate d)) 2 "0")).
    rewrite (numeralValue_shift (padStart (toString (getMonth d + 1)) 2 "0")).
    rewrite Vm, Vd, Lm, Ld.
    change (10 ^ Z.of_nat 2) with 100. lia.
  - unfold dateStr. cbv zeta. destruct (toString (getFullYear d));
      [contradiction | discriminate].
Qed.

(** X4. For a date of year 0 or later the resolver's date key is the
    number [year * 10000 + month * 100 + day], with the month counted from
    1, and its text is that number's digits. *)
Theorem dateInt_of_date (d : Date) :
  0 <= getFullYear d ->
  0 <= getMonth d <= 11 ->
  1 <= getDate d <= 31 ->
  dateInt d
  = Some (getFullYear d * 10000 + (getMonth d + 1) * 100 + getDate d)
  /\ numeral (dateStr d) = true.
Proof. apply dateInt_formula. Qed.

Lemma dateInt_of_date_witness :
  dateInt (mkDate 2024 1 29 4) = Some 20240229
  /\ numeral (dateStr (mkDate 2024 1 29 4)) = true.
Proof.
  apply (dateInt_of_date (mkDate 2024 1 29 4)); cbn; lia.
Defined.

Lemma memberAfterException_ineffective (today : string)
  (dates : list CalendarDate) :
  (forall cd, In cd dates -> effectiveOn today cd = false) ->
  forall member : bool,
    fold_left (memberAfterException today) dates member = member.
Proof.
  induction dates as [| cd dates IH]; intros Hno member; cbn [fold_left];
    [reflexivity |].
  rewrite IH by (intros cd' Hin; apply Hno; now right).
  assert (Hcd : effectiveOn today cd = false) by (apply Hno; now left).
  unfold effectiveOn in Hcd. unfold memberAfterException.
  destruct (String.eqb (date cd) today); [| reflexivity].
  cbn [andb] in Hcd. apply orb_false_elim in Hcd. destruct Hcd as [-> ->].
  reflexivity.
Qed.

(** X5. Exception entries for other dates, or of a type that is neither
    ADDED nor REMOVED, change nothing: a service none of whose entries is
    ADDED or REMOVED on the query date is active exactly when the rule scan
    made it so. *)
Theorem rules_decide_without_effective_exception
  (gtfs : GTFSData) (cds : JsMap.Map (list CalendarDate)) (d : Date)
  (s : string) :
  calendarDates gtfs = Some cds ->
  JsMap.wf cds = true ->
  (forall dates cd,
      JsMap.get cds s = Some dates -> In cd dates ->
      effectiveOn (dateStr d) cd = false) ->
  JsSet.has (activeServiceIds gtfs d) s
  = JsSet.has (checkStandardCalendar gtfs d) s.
Proof.
  intros Hcds Hwf Hno.
  rewrite (activeServiceIds_has gtfs d cds s Hcds Hwf).
  destruct (JsMap.get cds s) as [dates |] eqn:Hget; [| reflexivity].
  apply memberAfterException_ineffective.
  intros cd Hin. now apply (Hno dates cd).
Qed.

(** X6. The rule scan activates a service only through a rule of that
    service whose start and end dates parse to numbers with the date key
    between them, both ends included, and whose field for the day of the
    week is exactly the text "1". *)
Theorem rule_scan_sound (gtfs : GTFSData) (d : Date) (s : string) :
  JsSet.has (checkStandardCalendar gtfs d) s = true ->
  exists (cal : Calendar) (name : string) (a b n : Z),
    In cal (JsMap.values (calendar gtfs))
    /\ cal_service_id cal = s
    /\ nth_error days (Z.to_nat (getDay d)) = Some name
    /\ 0 <= getDay d <= 6
    /\ calendarField cal (Some name) = Some "1"
    /\ parseInt (start_date cal) = Some a
    /\ parseInt (end_date cal) = Some b
    /\ dateInt d = Some n
    /\ a <= n <= b.
Proof.
  rewrite checkStandardCalendar_has. intros H.
  apply existsb_exists in H. destruct H as (cal & Hin & Hcal).
  apply andb_prop in Hcal. destruct Hcal as [Hrule Hid].
  apply String.eqb_eq in Hid.
  unfold ruleMatches in Hrule. cbv zeta in Hrule.
  destruct (dateInt d) as [n |] eqn:Hn; [| discriminate].
  destruct (parseInt (start_date cal)) as [a |] eqn:Hstart; [| discriminate].
  destruct (parseInt (end_date cal)) as [b |] eqn:Hend;
    [| cbn in Hrule; rewrite andb_false_r in Hrule; discriminate].
  cbn [num_ge num_le] in Hrule.
  destruct (a <=? n) eqn:Ha; [| discriminate].
  destruct (n <=? b) eqn:Hb; [| discriminate].
  cbn [andb] in Hrule.
  apply Z.leb_le in Ha. apply Z.leb_le in Hb.
  unfold todayStr, index in Hrule.
  destruct (getDay d <? 0) eqn:Hneg; [discriminate |].
  apply Z.ltb_ge in Hneg.
  destruct (nth_error days (Z.to_nat (getDay d))) as [name |] eqn:Hname;
    [| discriminate].
  assert (Hlt : (Z.to_nat (getDay d) < 7)%nat).
  { change 7%nat with (List.length days).
    apply nth_error_Some. rewrite Hname. discriminate. }
  unfold strictEq in Hrule.
  destruct (calendarField cal (Some name)) as [flag |] eqn:Hflag;
    [| discriminate].
  apply String.eqb_eq in Hrule. subst flag.
  exists cal, name, a, b, n. repeat split; auto; lia.
Qed.

(** On 2 January 2024, a Tuesday, the sample rule activates WK through its
    [tuesday] field. *)
Lemma rule_scan_sound_witness :
  exists (cal : Calendar) (name : string) (a b n : Z),
    In cal (JsMap.values (calendar (calendarStore [])))
    /\ cal_service_id cal = "WK"
    /\ nth_error days (Z.to_nat (getDay jan2)) = Some name
    /\ 0 <= getDay jan2 <= 6
    /\ calendarField cal (Some name) = Some "1"
    /\ parseInt (start_date cal) = Some a
    /\ parseInt (end_date cal) = Some b
    /\ dateInt jan2 = Some n
    /\ a <= n <= b.
Proof.
  apply (rule_scan_sound (calendarStore []) jan2 "WK"). reflexivity.
Defined.

Lemma filter_map_NoDup (A B : Type) (f : A -> B) (keep : A -> bool)
  (l : list A) :
  NoDup (map f l) -> NoDup (map f (filter keep l)).
Proof.
  induction l as [| x l IH]; cbn [map filter]; intros Hnd; [constructor |].
  inversion Hnd as [| y ys Hnotin Hnd' Heq]. subst.
  destruct (keep x); [| now apply IH].
  cbn [map]. constructor; [| now apply IH].
  intros Hin. apply Hnotin.
  apply in_map_iff in Hin. destruct Hin as (x' & Hfx & Hin').
  apply filter_In in Hin'. apply in_map_iff. exists x'. tauto.
Qed.

(** X7. The resolver returns exactly the trip ids of the trips whose
    service is active, each as often as the trips table holds it: when the
    trips carry distinct ids no id is returned twice. *)
Theorem active_trips_exact (gtfs : GTFSData) (d : Date) :
  (forall t : string,
      In t (getActiveTripsForToday gtfs d)
      <-> exists trip : Trip,
            In trip (JsMap.values (trips gtfs))
            /\ trip_id trip = t
            /\ JsSet.has (activeServiceIds gtfs d) (service_id trip) = true)
  /\ (NoDup (map trip_id (JsMap.values (trips gtfs))) ->
      NoDup (getActiveTripsForToday gtfs d)).
Proof.
  rewrite getActiveTripsForToday_spec. split.
  - intros t. rewrite in_map_iff. split.
    + intros (trip & Hid & Hin). apply filter_In in Hin.
      exists trip. tauto.
    + intros (trip & Hin & Hid & Hact). exists trip.
      split; [exact Hid |]. apply filter_In. tauto.
  - apply filter_map_NoDup.
Qed.

(** On 3 January WK has only an entry of type "3": it stays active, as its
    rule has it. *)
Lemma rules_decide_without_effective_exception_witness :
  JsSet.has (activeServiceIds (calendarStore inertRows) jan3) "WK" = true.
Proof.
  rewrite (rules_decide_without_effective_exception (calendarStore inertRows)
             (parseCalendarDates inertRows) jan3 "WK" eq_refl
             (parseCalendarDates_wf inertRows)).
  - reflexivity.
  - intros dates cd Hget Hin.
    change (JsMap.get (parseCalendarDates inertRows) "WK")
      with (Some inertRows) in Hget.
    injection Hget as <-.
    destruct Hin as [<- | [<- | []]]; reflexivity.
Defined.

(* ================================================================== *)
(** ** The resolver: the window of a rule *)

(** The field the scan reads for the day of the week is the flag of that
    day. *)
Lemma todayStr_flag (cal : Calendar) (d : Date) :
  calendarField cal (todayStr d) = weekdayFlag cal (getDay d).
Proof.
  unfold todayStr, index, weekdayFlag.
  assert (Hcases : getDay d < 0 \/ getDay d = 0 \/ getDay d = 1
                   \/ getDay d = 2 \/ getDay d = 3 \/ getDay d = 4
                   \/ getDay d = 5 \/ getDay d = 6 \/ 6 < getDay d) by lia.
  destruct Hcases as [H | [H | [H | [H | [H | [H | [H | [H | H]]]]]]]];
    try (rewrite H; reflexivity).
  - replace (getDay d <? 0) with true by (symmetry; apply Z.ltb_lt; lia).
    repeat match goal with
           | |- context [getDay d =? ?k] =>
               replace (getDay d =? k) with false
                 by (symmetry; apply Z.eqb_neq; lia)
           end.
    reflexivity.
  - replace (getDay d <? 0) with false by (symmetry; apply Z.ltb_ge; lia).
    replace (nth_error days (Z.to_nat (getDay d))) with (@None string)
      by (symmetry; apply nth_error_None; cbn [List.length days]; lia).
    repeat match goal with
           | |- context [getDay d =? ?k] =>
               replace (getDay d =? k) with false
                 by (symmetry; apply Z.eqb_neq; lia)
           end.
    reflexivity.
Qed.

(** C4. The window of a rule includes both of its ends.  Take a rule that
    is the only one of its service, whose service has no exceptions, and a
    trip of that service.  On a date of year [y], month [m] counted from 0
    and day [dd], the service is active, and the trip is among those the
    resolver returns, exactly when the number [y * 10000 + (m + 1) * 100 + dd]
    lies in [[start_date, end_date]] and the rule's flag for the date's day
    of the week is "1". *)
Theorem calendar_window_inclusive
  (gtfs : GTFSData) (d : Date) (cal : Calendar) (tr : Trip) (a b : Z) :
  In cal (JsMap.values (calendar gtfs)) ->
  (forall cal', In cal' (JsMap.values (calendar gtfs)) ->
                cal_service_id cal' = cal_service_id cal -> cal' = cal) ->
  match calendarDates gtfs with
  | Some cds => JsMap.get cds (cal_service_id cal) = None
  | None => True
  end ->
  In tr (JsMap.values (trips gtfs)) ->
  service_id tr = cal_service_id cal ->
  (forall tr', In tr' (JsMap.values (trips gtfs)) ->
               trip_id tr' = trip_id tr -> service_id tr' = service_id tr) ->
  parseInt (start_date cal) = Some a ->
  parseInt (end_date cal) = Some b ->
  0 <= getFullYear d ->
  0 <= getMonth d <= 11 ->
  1 <= getDate d <= 31 ->
  let n := getFullYear d * 10000 + (getMonth d + 1) * 100 + getDate d in
  (JsSet.has (activeServiceIds gtfs d) (cal_service_id cal) = true
   <-> a <= n <= b /\ weekdayFlag cal (getDay d) = Some "1")
  /\ (In (trip_id tr) (getActiveTripsForToday gtfs d)
      <-> a <= n <= b /\ weekdayFlag cal (getDay d) = Some "1").
Proof.
  intros Hin Honly Hexc Htr Hsvc Hids Ha Hb Hy Hm Hd n.
  destruct (dateInt_formula d Hy Hm Hd) as [Hn _]. fold n in Hn.
  assert (Hrule : ruleMatches d cal = true
                  <-> a <= n <= b /\ weekdayFlag cal (getDay d) = Some "1").
  { unfold ruleMatches. rewrite Ha, Hb, Hn, todayStr_flag.
    cbn [num_ge num_le].
    destruct (a <=? n) eqn:E1; destruct (n <=? b) eqn:E2; cbn [andb];
      try apply Z.leb_le in E1; try apply Z.leb_le in E2;
      try apply Z.leb_gt in E1; try apply Z.leb_gt in E2;
      try (split; [discriminate | intros [? _]; lia]).
    unfold strictEq.
    destruct (weekdayFlag cal (getDay d)) as [flag |].
    - split.
      + intros H. apply String.eqb_eq in H. subst flag. split; [lia | auto].
      + intros [_ H]. injection H as ->. reflexivity.
    - split; [discriminate | intros [_ H]; discriminate]. }
  assert (Hact : JsSet.has (activeServiceIds gtfs d) (cal_service_id cal)
                 = JsSet.has (checkStandardCalendar gtfs d) (cal_service_id cal)).
  { unfold activeServiceIds, checkExceptions.
    destruct (calendarDates gtfs) as [cds |]; [| reflexivity].
    now apply exceptionPass_untouched. }
  assert (Hset : JsSet.has (activeServiceIds gtfs d) (cal_service_id cal) = true
                 <-> a <= n <= b /\ weekdayFlag cal (getDay d) = Some "1").
  { rewrite Hact, checkStandardCalendar_has, <- Hrule. split.
    - intros H. apply existsb_exists in H. destruct H as (cal' & Hin' & Hcal').
      apply andb_prop in Hcal'. destruct Hcal' as [Hmatch Hid].
      apply String.eqb_eq in Hid. now rewrite <- (Honly cal' Hin' Hid).
    - intros H. apply existsb_exists. exists cal.
      split; [exact Hin |]. now rewrite H, String.eqb_refl. }
  split; [exact Hset |].
  rewrite <- Hset, getActiveTripsForToday_spec, in_map_iff. split.
  - intros (tr' & Hid & Hin'). apply filter_In in Hin'.
    destruct Hin' as [Hin' Hactive].
    now rewrite <- Hsvc, <- (Hids tr' Hin' Hid).
  - intros Hactive. exists tr. split; [reflexivity |].
    apply filter_In. split; [exact Htr |]. now rewrite Hsvc.
Qed.

(** The rule from 20240101 to 20240107 for Mondays and Sundays.  Its trip
    is returned on Monday the 1st and on Sunday the 7th, the two ends of
    the window; not on Sunday 31 December nor on Monday the 8th, outside
    the window though their flags are set; and not on Tuesday the 2nd,
    inside the window, whose flag is not set. *)
Lemma calendar_window_inclusive_witness :
  getActiveTripsForToday edgeDaysStore jan1 = ["e1"]
  /\ getActiveTripsForToday edgeDaysStore jan7 = ["e1"]
  /\ getActiveTripsForToday edgeDaysStore dec31 = []
  /\ getActiveTripsForToday edgeDaysStore jan8 = []
  /\ getActiveTripsForToday edgeDaysStore jan2 = []
  /\ (forall d : Date,
         In d [jan1; jan7] ->
         In "e1" (getActiveTripsForToday edgeDaysStore d)
         /\ JsSet.has (activeServiceIds edgeDaysStore d) "ED" = true)
  /\ (forall d : Date,
         In d [dec31; jan8; jan2] ->
         In "e1" (getActiveTripsForToday edgeDaysStore d) -> False).
Proof.
  assert (Hwin : forall d : Date,
             0 <= getFullYear d -> 0 <= getMonth d <= 11 ->
             1 <= getDate d <= 31 ->
             (JsSet.has (activeServiceIds edgeDaysStore d) "ED" = true
              <-> 20240101
                  <= getFullYear d * 10000 + (getMonth d + 1) * 100 + getDate d
                  <= 20240107
                  /\ weekdayFlag edgeDaysRule (getDay d) = Some "1")
             /\ (In "e1" (getActiveTripsForToday edgeDaysStore d)
                 <-> 20240101
                     <= getFullYear d * 10000 + (getMonth d + 1) * 100
                        + getDate d
                     <= 20240107
                     /\ weekdayFlag edgeDaysRule (getDay d) = Some "1")).
  { intros d Hy Hm Hd.
    apply (calendar_window_inclusive edgeDaysStore d edgeDaysRule
             (tripOf "e1" "ED") 20240101 20240107);
      try reflexivity; try assumption.
    - now left.
    - intros cal' [<- | []] _. reflexivity.
    - now left.
    - intros tr' [<- | [<- | []]] Hid; [reflexivity | discriminate Hid]. }
  do 5 (split; [reflexivity |]). split.
  - intros d [<- | [<- | []]];
      match goal with
      | |- In _ (getActiveTripsForToday _ ?day) /\ _ =>
          destruct (Hwin day ltac:(cbn; lia) ltac:(cbn; lia) ltac:(cbn; lia))
            as [Hs Ht]
      end;
      (split; [apply Ht | apply Hs]); (split; [cbn; lia | reflexivity]).
  - intros d [<- | [<- | [<- | []]]] Hin;
      match type of Hin with
      | In _ (getActiveTripsForToday _ ?day) =>
          destruct (Hwin day ltac:(cbn; lia) ltac:(cbn; lia) ltac:(cbn; lia))
            as [_ Ht]
      end;
      apply Ht in Hin; destruct Hin as [Hn Hflag];
      cbn in Hn, Hflag; first [lia | discriminate Hflag].
Defined.

(* ================================================================== *)
(** ** The loader: grouping under a key *)

Lemma pushUnder_get (V : Type) (m : JsMap.Map (list V)) (k k' : string)
  (v : V) :
  JsMap.get (pushUnder m k v) k'
  = if String.eqb k k'
    then Some (match JsMap.get m k' with
               | Some l => l ++ [v]
               | None => [v]
               end)
    else JsMap.get m k'.
Proof.
  unfold pushUnder, JsMap.has. cbv zeta.
  destruct (JsMap.get m k) as [l |] eqn:Hget; cbn [negb].
  - rewrite Hget, JsMap_get_set.
    destruct (String.eqb_spec k k') as [<- | _];
      [now rewrite Hget | reflexivity].
  - rewrite JsMap_get_set, String.eqb_refl, !JsMap_get_set.
    destruct (String.eqb_spec k k') as [<- | _];
      [now rewrite Hget | reflexivity].
Qed.

Lemma pushUnder_wf (V : Type) (m : JsMap.Map (list V)) (k : string) (v : V) :
  JsMap.wf m = true -> JsMap.wf (pushUnder m k v) = true.
Proof.
  intros Hwf. unfold pushUnder. cbv zeta.
  set (m1 := if negb (JsMap.has m k) then JsMap.set m k [] else m).
  assert (Hwf1 : JsMap.wf m1 = true).
  { unfold m1. destruct (negb (JsMap.has m k));
      [now apply JsMap_wf_set | exact Hwf]. }
  destruct (JsMap.get m1 k); [now apply JsMap_wf_set | exact Hwf1].
Qed.

Lemma groupStopTime_pushUnder (trips : JsMap.Map Trip)
  (m : JsMap.Map (list ParsedStopTime)) (st : StopTimeRow) :
  groupStopTime trips m st
  = if JsMap.has trips (row_trip_id st)
    then pushUnder m (row_trip_id st) (processStopTime st)
    else m.
Proof.
  unfold groupStopTime. now destruct (JsMap.has trips (row_trip_id st)).
Qed.

Section StopTimeGrouping.

Variable trips : JsMap.Map Trip.

Lemma groupStopTimes_get (raw : list StopTimeRow) (t : string) :
  forall m : JsMap.Map (list ParsedStopTime),
    JsMap.get (fold_left (groupStopTime trips) raw m) t
    = match (if JsMap.has trips t then rowsOfTrip t raw else []) with
      | [] => JsMap.get m t
      | rows => Some (match JsMap.get m t with
                      | Some l0 => l0
                      | None => []
                      end ++ map processStopTime rows)
      end.
Proof.
  unfold rowsOfTrip.
  induction raw as [| st raw IH]; intros m; cbn [fold_left filter].
  - now destruct (JsMap.has trips t).
  - rewrite IH, groupStopTime_pushUnder.
    destruct (String.eqb_spec (row_trip_id st) t) as [E | E].
    + rewrite E.
      destruct (JsMap.has trips t); [| reflexivity].
      rewrite pushUnder_get, String.eqb_refl.
      destruct (filter (fun st0 => String.eqb (row_trip_id st0) t) raw)
        as [| st' l]; destruct (JsMap.get m t) as [l0 |];
        cbn [app map]; try reflexivity; now rewrite <- app_assoc.
    + assert (Hget : JsMap.get
                       (if JsMap.has trips (row_trip_id st)
                        then pushUnder m (row_trip_id st) (processStopTime st)
                        else m) t
                     = JsMap.get m t).
      { destruct (JsMap.has trips (row_trip_id st)); [| reflexivity].
        rewrite pushUnder_get. apply String.eqb_neq in E. now rewrite E. }
      now rewrite Hget.
Qed.

Lemma groupStopTimes_wf (raw : list StopTimeRow) :
  forall m : JsMap.Map (list ParsedStopTime),
    JsMap.wf m = true ->
    JsMap.wf (fold_left (groupStopTime trips) raw m) = true.
Proof.
  induction raw as [| st raw IH]; intros m Hm; cbn [fold_left]; [exact Hm |].
  apply IH. rewrite groupStopTime_pushUnder.
  destruct (JsMap.has trips (row_trip_id st));
    [now apply pushUnder_wf | exact Hm].
Qed.

End StopTimeGrouping.

Lemma sortSequences_get (m : JsMap.Map (list ParsedStopTime)) (t : string) :
  JsMap.get (sortSequences m) t
  = option_map (Array_sort bySequence) (JsMap.get m t).
Proof.
  unfold sortSequences.
  induction m as [| [k l] m IH]; cbn [map JsMap.get fst snd]; [reflexivity |].
  destruct (String.eqb k t); [reflexivity | exact IH].
Qed.

Lemma sortSequences_keys (m : JsMap.Map (list ParsedStopTime)) :
  JsMap.keys (sortSequences m) = JsMap.keys m.
Proof.
  unfold sortSequences, JsMap.keys. rewrite map_map. reflexivity.
Qed.

(** The table of stop times, trip by trip: the rows of the trip in file
    order, processed and then sorted, when the trip is known and has
    rows. *)
Lemma parseStopTimes_get (trips : JsMap.Map Trip) (raw : list StopTimeRow)
  (t : string) :
  JsMap.get (parseStopTimes trips raw) t
  = match (if JsMap.has trips t then rowsOfTrip t raw else []) with
    | [] => None
    | rows => Some (Array_sort bySequence (map processStopTime rows))
    end.
Proof.
  unfold parseStopTimes.
  rewrite sortSequences_get, groupStopTimes_get. cbn [JsMap.get app].
  now destruct (if JsMap.has trips t then rowsOfTrip t raw else []).
Qed.

(* ================================================================== *)
(** ** The loader: sorting by sequence number *)

Lemma insertSorted_perm (A : Type) (cmp : A -> A -> option Z) (x : A)
  (l : list A) :
  Permutation (insertSorted cmp x l) (x :: l).
Proof.
  induction l as [| y l IH]; cbn [insertSorted]; [reflexivity |].
  destruct (0 <? orZero (cmp x y)); [| reflexivity].
  rewrite IH. apply perm_swap.
Qed.

Lemma Array_sort_perm (A : Type) (cmp : A -> A -> option Z) (l : list A) :
  Permutation (Array_sort cmp l) l.
Proof.
  induction l as [| x l IH]; cbn [Array_sort]; [reflexivity |].
  rewrite insertSorted_perm. now constructor.
Qed.

Lemma sequenceLe_trans (a b c : ParsedStopTime) :
  sequenceLe a b -> sequenceLe b c -> sequenceLe a c.
Proof.
  intros (x & y & Hx & Hy & Hxy) (y' & z & Hy' & Hz & Hyz).
  assert (y = y') by congruence. subst y'.
  exists x, z. repeat split; auto. lia.
Qed.

Lemma insertSorted_sorted (x : ParsedStopTime) (l : list ParsedStopTime) :
  parsed_stop_sequence x <> None ->
  Forall (fun p => parsed_stop_sequence p <> None) l ->
  StronglySorted sequenceLe l ->
  StronglySorted sequenceLe (insertSorted bySequence x l).
Proof.
  intros Hx Hnum Hsorted.
  induction Hsorted as [| y l Hl IH Hy]; cbn [insertSorted].
  - constructor; constructor.
  - inversion Hnum as [| y' l' Hyn Hln]. subst.
    destruct (parsed_stop_sequence x) as [vx |] eqn:Ex; [| contradiction].
    destruct (parsed_stop_sequence y) as [vy |] eqn:Ey; [| contradiction].
    unfold bySequence. rewrite Ex, Ey. cbn [num_sub orZero].
    destruct (0 <? vx - vy) eqn:Hcmp.
    + apply Z.ltb_lt in Hcmp. constructor; [now apply IH |].
      eapply Permutation_Forall;
        [apply Permutation_sym, insertSorted_perm |].
      constructor; [| exact Hy].
      exists vy, vx. repeat split; auto. lia.
    + apply Z.ltb_ge in Hcmp.
      assert (Hxy : sequenceLe x y) by (exists vx, vy; repeat split; auto; lia).
      constructor; [constructor; assumption |].
      constructor; [exact Hxy |].
      apply (Forall_impl _ (fun p H => sequenceLe_trans _ _ _ Hxy H) Hy).
Qed.

Lemma Array_sort_sorted (l : list ParsedStopTime) :
  Forall (fun p => parsed_stop_sequence p <> None) l ->
  StronglySorted sequenceLe (Array_sort bySequence l).
Proof.
  induction l as [| x l IH]; intros Hnum; cbn [Array_sort]; [constructor |].
  inversion Hnum as [| x' l' Hx Hl]. subst.
  apply insertSorted_sorted; [exact Hx | | now apply IH].
  eapply Permutation_Forall; [apply Permutation_sym, Array_sort_perm |].
  exact Hl.
Qed.

Lemma insertSorted_stable (k : Z) (x : ParsedStopTime)
  (l : list ParsedStopTime) :
  filter (hasSequence k) (insertSorted bySequence x l)
  = filter (hasSequence k) (x :: l).
Proof.
  induction l as [| y l IH]; cbn [insertSorted]; [reflexivity |].
  destruct (0 <? orZero (bySequence x y)) eqn:Hcmp; [| reflexivity].
  cbn [filter] in *. rewrite IH.
  unfold bySequence, hasSequence in *.
  destruct (parsed_stop_sequence x) as [vx |];
    destruct (parsed_stop_sequence y) as [vy |]; cbn in Hcmp;
    try discriminate.
  apply Z.ltb_lt in Hcmp.
  destruct (vx =? k) eqn:Ex; destruct (vy =? k) eqn:Ey; try reflexivity.
  apply Z.eqb_eq in Ex. apply Z.eqb_eq in Ey. lia.
Qed.

Lemma Array_sort_stable (k : Z) (l : list ParsedStopTime) :
  filter (hasSequence k) (Array_sort bySequence l) = filter (hasSequence k) l.
Proof.
  induction l as [| x l IH]; cbn [Array_sort]; [reflexivity |].
  rewrite insertSorted_stable. cbn [filter]. now rewrite IH.
Qed.

(* ================================================================== *)
(** ** The loader: what the tables hold *)

Lemma parseStopTimes_Some (trips : JsMap.Map Trip)
  (raw : list StopTimeRow) (t : string) (times : list ParsedStopTime) :
  JsMap.get (parseStopTimes trips raw) t = Some times ->
  JsMap.has trips t = true
  /\ rowsOfTrip t raw <> []
  /\ times = Array_sort bySequence (map processStopTime (rowsOfTrip t raw)).
Proof.
  rewrite parseStopTimes_get.
  destruct (JsMap.has trips t); [| discriminate].
  destruct (rowsOfTrip t raw) as [| st rows]; [discriminate |].
  intros H. injection H as <-. repeat split. discriminate.
Qed.

(** X8. The stop-times table has an entry only for a trip of the trips
    table that has rows: rows of unknown trips are dropped, no list is
    empty, every element of a trip's list is the processed form of a row of
    that trip, and the keys are distinct. *)
Theorem loaded_stop_times_belong
  (trips : JsMap.Map Trip) (stopTimesRaw : list StopTimeRow) (t : string) :
  (JsMap.has trips t = false ->
   JsMap.get (parseStopTimes trips stopTimesRaw) t = None)
  /\ (rowsOfTrip t stopTimesRaw = [] ->
      JsMap.get (parseStopTimes trips stopTimesRaw) t = None)
  /\ (forall times : list ParsedStopTime,
         JsMap.get (parseStopTimes trips stopTimesRaw) t = Some times ->
         JsMap.has trips t = true
         /\ times <> []
         /\ forall p : ParsedStopTime,
              In p times ->
              In (parsed_row p) stopTimesRaw
              /\ row_trip_id (parsed_row p) = t
              /\ p = processStopTime (parsed_row p))
  /\ JsMap.wf (parseStopTimes trips stopTimesRaw) = true.
Proof.
  split; [| split; [| split]].
  - rewrite parseStopTimes_get. intros ->. reflexivity.
  - rewrite parseStopTimes_get. intros ->.
    now destruct (JsMap.has trips t).
  - intros times Hget.
    destruct (parseStopTimes_Some _ _ _ _ Hget) as (Hhas & Hrows & ->).
    pose proof (Array_sort_perm _ bySequence
                  (map processStopTime (rowsOfTrip t stopTimesRaw))) as Hperm.
    split; [exact Hhas |]. split.
    + intros Hnil. rewrite Hnil in Hperm. apply Permutation_nil in Hperm.
      apply map_eq_nil in Hperm. contradiction.
    + intros p Hp. apply (Permutation_in _ Hperm) in Hp.
      apply in_map_iff in Hp. destruct Hp as (r & <- & Hin).
      apply filter_In in Hin. destruct Hin as [Hin Hid].
      apply String.eqb_eq in Hid. auto.
  - unfold parseStopTimes, JsMap.wf. rewrite sortSequences_keys.
    now apply groupStopTimes_wf.
Qed.

(** X9. When the sequence numbers of a trip's rows all parse, the trip's
    list in the stop-times table is those rows, processed, in ascending
    order of sequence number. *)
Theorem loaded_stop_times_sorted
  (trips : JsMap.Map Trip) (stopTimesRaw : list StopTimeRow) (t : string)
  (times : list ParsedStopTime) :
  (forall st : StopTimeRow,
      In st stopTimesRaw -> row_trip_id st = t ->
      parseInt (row_stop_sequence st) <> None) ->
  JsMap.get (parseStopTimes trips stopTimesRaw) t = Some times ->
  StronglySorted sequenceLe times
  /\ Permutation times (map processStopTime (rowsOfTrip t stopTimesRaw)).
Proof.
  intros Hnum Hget.
  destruct (parseStopTimes_Some _ _ _ _ Hget) as (_ & _ & ->).
  split; [| apply Array_sort_perm].
  apply Array_sort_sorted. apply Forall_forall. intros p Hp.
  apply in_map_iff in Hp. destruct Hp as (r & <- & Hin).
  apply filter_In in Hin. destruct Hin as [Hin Hid].
  apply String.eqb_eq in Hid. exact (Hnum r Hin Hid).
Qed.

(** The rows of w1 come in the order B, A, C in the sample file and end up
    as A, B, C. *)
Lemma loaded_stop_times_sorted_witness :
  exists times : list ParsedStopTime,
    JsMap.get (parseStopTimes sampleTrips sampleRows) "w1" = Some times
    /\ map (fun p => row_stop_id (parsed_row p)) times = ["A"; "B"; "C"]
    /\ StronglySorted sequenceLe times
    /\ Permutation times (map processStopTime (rowsOfTrip "w1" sampleRows)).
Proof.
  eexists. split; [reflexivity |]. split; [reflexivity |].
  apply (loaded_stop_times_sorted sampleTrips sampleRows "w1");
    [| reflexivity].
  intros st [<- | [<- | [<- | [<- | []]]]] Hid; try discriminate Hid;
    discriminate.
Defined.

(** X10. When the sequence numbers of a trip's rows all parse, sorting
    keeps the file order among the rows of the trip that carry the same
    sequence number. *)
Theorem loaded_stop_times_stable
  (trips : JsMap.Map Trip) (stopTimesRaw : list StopTimeRow) (t : string)
  (times : list ParsedStopTime) (k : Z) :
  (forall st : StopTimeRow,
      In st stopTimesRaw -> row_trip_id st = t ->
      parseInt (row_stop_sequence st) <> None) ->
  JsMap.get (parseStopTimes trips stopTimesRaw) t = Some times ->
  filter (hasSequence k) times
  = filter (hasSequence k) (map processStopTime (rowsOfTrip t stopTimesRaw)).
Proof.
  intros _ Hget.
  destruct (parseStopTimes_Some _ _ _ _ Hget) as (_ & _ & ->).
  apply Array_sort_stable.
Qed.

(** B and C both have sequence number 2 in the sample file, B first. *)
Lemma loaded_stop_times_stable_witness :
  exists times : list ParsedStopTime,
    JsMap.get (parseStopTimes sampleTrips sampleRows) "w1" = Some times
    /\ map (fun p => row_stop_id (parsed_row p)) (filter (hasSequence 2) times)
       = ["B"; "C"].
Proof.
  eexists. split; [reflexivity |].
  rewrite (loaded_stop_times_stable sampleTrips sampleRows "w1" _ 2);
    [reflexivity | | reflexivity].
  intros st [<- | [<- | [<- | [<- | []]]]] Hid; try discriminate Hid;
    discriminate.
Defined.

(* ================================================================== *)
(** ** The loader: tables keyed by id *)

Lemma find_snoc (A : Type) (f : A -> bool) (l : list A) (x : A) :
  find f (l ++ [x])
  = match find f l with
    | Some y => Some y
    | None => if f x then Some x else None
    end.
Proof.
  induction l as [| y l IH]; cbn [app find]; [reflexivity |].
  destruct (f y); [reflexivity | exact IH].
Qed.

Lemma indexRows_get (V : Type) (key : V -> string) (rows : list V)
  (k : string) :
  JsMap.get (indexRows key rows) k
  = find (fun r => String.eqb (key r) k) (rev rows).
Proof.
  unfold indexRows.
  assert (H : forall m,
             JsMap.get (fold_left (fun table r => JsMap.set table (key r) r)
                          rows m) k
             = match find (fun r => String.eqb (key r) k) (rev rows) with
               | Some r => Some r
               | None => JsMap.get m k
               end).
  { induction rows as [| r rows IH]; intros m; cbn [fold_left rev];
      [reflexivity |].
    rewrite IH, find_snoc, JsMap_get_set.
    destruct (find (fun r0 => String.eqb (key r0) k) (rev rows));
      [reflexivity |].
    now destruct (String.eqb (key r) k). }
  rewrite H. cbn [JsMap.get].
  now destruct (find (fun r => String.eqb (key r) k) (rev rows)).
Qed.

Lemma indexRows_wf (V : Type) (key : V -> string) (rows : list V) :
  JsMap.wf (indexRows key rows) = true.
Proof.
  unfold indexRows.
  assert (H : forall m, JsMap.wf m = true ->
                        JsMap.wf (fold_left
                                    (fun table r => JsMap.set table (key r) r)
                                    rows m) = true).
  { induction rows as [| r rows IH]; intros m Hm; cbn [fold_left];
      [exact Hm |].
    apply IH. now apply JsMap_wf_set. }
  now apply H.
Qed.

(** X11. In a table filled row by row with [set], a key is bound to the
    last row that carries it, a row is stored under its own id, and no key
    occurs twice: of several rows of [calendar.txt], [routes.txt] or
    [trips.txt] with one id only the last is kept. *)
Theorem indexRows_last_row_wins (V : Type) (key : V -> string)
  (rows : list V) (k : string) :
  JsMap.get (indexRows key rows) k
  = find (fun r => String.eqb (key r) k) (rev rows)
  /\ (forall v : V, JsMap.get (indexRows key rows) k = Some v ->
                    key v = k /\ In v rows)
  /\ JsMap.wf (indexRows key rows) = true.
Proof.
  split; [apply indexRows_get |]. split; [| apply indexRows_wf].
  intros v Hv. rewrite indexRows_get in Hv.
  apply find_some in Hv. destruct Hv as [Hin Hk].
  split; [now apply String.eqb_eq | now apply in_rev].
Qed.

(** X12. With the calendar table loaded from [calendar.txt], the rule scan
    goes by the last row of each service: the service is active by rule
    exactly when that row matches the date. *)
Theorem loaded_calendar_last_rule_counts
  (gtfs : GTFSData) (calendarRaw : list Calendar) (d : Date) (s : string) :
  calendar gtfs = parseCalendar calendarRaw ->
  JsSet.has (checkStandardCalendar gtfs d) s
  = match find (fun cal => String.eqb (cal_service_id cal) s)
            (rev calendarRaw) with
    | Some cal => ruleMatches d cal
    | None => false
    end.
Proof.
  intros Hcal. rewrite checkStandardCalendar_has, Hcal.
  unfold parseCalendar.
  rewrite <- (indexRows_get _ cal_service_id calendarRaw s).
  pose proof (indexRows_wf _ cal_service_id calendarRaw) as Hwf.
  apply eq_true_iff_eq. rewrite existsb_exists. split.
  - intros (cal & Hin & Hc). apply andb_prop in Hc. destruct Hc as [Hm Hid].
    apply String.eqb_eq in Hid.
    apply (JsMap_In_values _ _ cal Hwf) in Hin. destruct Hin as [k Hk].
    assert (Hkey : cal_service_id cal = k).
    { rewrite indexRows_get in Hk. apply find_some in Hk.
      now apply String.eqb_eq. }
    rewrite <- Hid, Hkey, Hk. exact Hm.
  - destruct (JsMap.get (indexRows cal_service_id calendarRaw) s)
      as [cal |] eqn:Hget; [| discriminate].
    intros Hm. exists cal. split.
    + apply (JsMap_In_values _ _ cal Hwf). now exists s.
    + rewrite Hm. rewrite indexRows_get in Hget. apply find_some in Hget.
      now destruct Hget as [_ ->].
Qed.

(** WK has a January row followed by a February row: on 2 January only the
    first would match, and WK is not active. *)
Lemma loaded_calendar_last_rule_counts_witness :
  ruleMatches jan2 weekRule = true
  /\ JsSet.has (checkStandardCalendar repeatedRuleStore jan2) "WK" = false
  /\ getActiveTripsForToday repeatedRuleStore jan2 = [].
Proof.
  split; [reflexivity |]. split; [| reflexivity].
  rewrite (loaded_calendar_last_rule_counts repeatedRuleStore
             [weekRule; februaryRule] jan2 "WK" eq_refl).
  reflexivity.
Defined.

(* ================================================================== *)
(** ** The simulator: standing at a stop *)

(** X13. In a well-formed schedule, at a time within the arrival and
    departure of a stop that has a following stop, not before the trip's
    first departure and after the departures from all earlier stops, the
    trip's position is the AT_STOP one of that stop: it is pushed exactly
    when the stop resolves, at the stop's own coordinates with bearing 0,
    and its [nextStop] is whatever the following stop id resolves to, which
    may be nothing. *)
Theorem standing_at_stop
  (gtfs : GTFSData) (nowSeconds : Z) (t : string) (times : list StopTime)
  (i : nat) (current next : StopTime) :
  JsMap.get (stopTimes gtfs) t = Some times ->
  wellFormed times = true ->
  nth_error times i = Some current ->
  nth_error times (S i) = Some next ->
  arr current <= nowSeconds <= dep current ->
  firstDeparture times <= nowSeconds ->
  (forall (j : nat) (c : StopTime),
      (j < i)%nat -> nth_error times j = Some c -> dep c < nowSeconds) ->
  calculateTrainPositions gtfs [t] nowSeconds
  = Ok match JsMap.get (stops gtfs) (st_stop_id current) with
       | Some stopInfo =>
           [ {| pos_trip_id := t;
                lat := stop_lat stopInfo;
                lng := stop_lon stopInfo;
                bearing := 0%R;
                status := AT_STOP;
                nextStop := JsMap.get (stops gtfs) (st_stop_id next);
                prevStop := Some stopInfo;
                route := routeOfTrip gtfs t;
                trip := JsMap.get (trips gtfs) t;
                speedEstimate := None |} ]
       | None => []
       end.
Proof.
  intros Ht Hwf Hc Hn [Hlo Hhi] Hfirst Hearlier.
  assert (Hat : atStopCond nowSeconds current = true).
  { unfold atStopCond. rewrite Z.geb_leb. apply andb_true_iff.
    split; apply Z.leb_le; assumption. }
  assert (Hlen : (S i < List.length times)%nat).
  { apply nth_error_Some. rewrite Hn. discriminate. }
  assert (Hm : firstMatchAt nowSeconds times i current next).
  { repeat split; auto.
    - unfold segmentMatches. now rewrite Hat.
    - intros j c n Hj Hjc Hjn.
      pose proof (Hearlier j c Hj Hjc) as Hdep.
      assert (Harr : arr n <= nowSeconds).
      { destruct (Nat.eq_dec (S j) i) as [E | E].
        - subst i. rewrite Hjn in Hc. injection Hc as ->. exact Hlo.
        - pose proof (wellFormed_dwell _ Hwf (S j) n Hjn).
          pose proof (wellFormed_ordered _ Hwf (S j) i n current
                        ltac:(lia) Hjn Hc).
          pose proof (wellFormed_dwell _ Hwf i current Hc). lia. }
      unfold segmentMatches, atStopCond, movingCond.
      apply orb_false_iff. split; apply andb_false_iff; right.
      + apply Z.leb_gt. lia.
      + apply Z.ltb_ge. lia. }
  assert (Hwin : inWindow nowSeconds times = true).
  { unfold inWindow. apply andb_true_iff. split; apply Z.leb_le;
      [exact Hfirst |].
    unfold lastArrival.
    destruct (nth_error_in_range _ times (List.length times - 1))
      as [cl Hl]; [lia |].
    rewrite Hl.
    pose proof (wellFormed_ordered _ Hwf i (S i) current next
                  ltac:(lia) Hc Hn).
    destruct (Nat.eq_dec (S i) (List.length times - 1)) as [E | E].
    - rewrite E, Hl in Hn. injection Hn as ->. lia.
    - pose proof (wellFormed_dwell _ Hwf (S i) next Hn).
      pose proof (wellFormed_ordered _ Hwf (S i) (List.length times - 1)
                    next cl ltac:(lia) Hn Hl). lia. }
  rewrite calculateTrainPositions_spec. cbn [flat_map]. rewrite app_nil_r.
  rewrite (tripPosition_at gtfs nowSeconds t times i current next Ht Hwin Hm).
  unfold segmentPosition. rewrite Hat. unfold atStopPosition.
  now destruct (JsMap.get (stops gtfs) (st_stop_id current)).
Qed.

(** The three-stop sample at 205, while it stands at B from 200 to 210. *)
Lemma standing_at_stop_witness :
  exists p : TrainPosition,
    calculateTrainPositions threeStopStore ["T2"] 205 = Ok [p]
    /\ status p = AT_STOP /\ prevStop p = Some stopB
    /\ nextStop p = Some stopC
    /\ lat p = stop_lat stopB /\ lng p = stop_lon stopB.
Proof.
  eexists. split.
  - apply (standing_at_stop threeStopStore 205 "T2" threeStopTimes 1
             (stopTimeAt "T2" "B" 2 200 210) (stopTimeAt "T2" "C" 3 300 300));
      try reflexivity; try (cbn; lia).
    intros j c Hj Hc. assert (j = 0%nat) by lia. subst j.
    cbn in Hc. injection Hc as <-. cbn. lia.
  - repeat split.
Defined.

(* ================================================================== *)
(** ** The simulator: where a position lies *)




(* ================================================================== *)
(** ** The simulator: how ticks compose, and what they ignore *)

(** X15. The positions for a list of trip ids are the positions of its
    parts, one after the other: the output follows the order of the ids
    given, and an id given twice has its position twice. *)
Theorem positions_of_concatenation
  (gtfs : GTFSData) (ids1 ids2 : list string) (nowSeconds : Z) :
  exists ps1 ps2 : list TrainPosition,
    calculateTrainPositions gtfs ids1 nowSeconds = Ok ps1
    /\ calculateTrainPositions gtfs ids2 nowSeconds = Ok ps2
    /\ calculateTrainPositions gtfs (ids1 ++ ids2) nowSeconds
       = Ok (ps1 ++ ps2).
Proof.
  eexists. eexists.
  split; [apply calculateTrainPositions_spec |].
  split; [apply calculateTrainPositions_spec |].
  rewrite calculateTrainPositions_spec, flat_map_app. reflexivity.
Qed.

Lemma tripPosition_same_schedule (gtfs gtfs' : GTFSData) (now : Z)
  (t : string) :
  stops gtfs = stops gtfs' ->
  stopTimes gtfs = stopTimes gtfs' ->
  option_map pos_trip_id (tripPosition gtfs now t)
  = option_map pos_trip_id (tripPosition gtfs' now t).
Proof.
  intros Hstops Htimes. unfold tripPosition. rewrite <- Htimes.
  destruct (JsMap.get (stopTimes gtfs) t) as [times |]; [| reflexivity].
  destruct (List.length times <? 2)%nat; [reflexivity |].
  destruct (inWindow now times); [| reflexivity].
  induction times as [| c rest IH]; [reflexivity |].
  destruct rest as [| n rest']; [reflexivity |].
  rewrite !firstSegment_cons.
  destruct (segmentMatches now c n); [| exact IH].
  unfold segmentPosition, atStopPosition, movingPosition.
  rewrite <- Hstops.
  destruct (atStopCond now c).
  - now destruct (JsMap.get (stops gtfs) (st_stop_id c)).
  - destruct (movingCond now c n); [| reflexivity].
    destruct (JsMap.get (stops gtfs) (st_stop_id c)); [| reflexivity].
    now destruct (JsMap.get (stops gtfs) (st_stop_id n)).
Qed.

(** X16. The route and trip tables only decorate: two stores with the same
    stops and stop times give positions for the same trips in the same
    order, whatever their routes and trips tables hold; and each position
    carries the trip record found under its id and the route found under
    that trip's route id (under the empty id when there is no trip). *)
Theorem lookups_only_decorate
  (gtfs gtfs' : GTFSData) (activeTripIds : list string) (nowSeconds : Z)
  (positions positions' : list TrainPosition) :
  stops gtfs = stops gtfs' ->
  stopTimes gtfs = stopTimes gtfs' ->
  calculateTrainPositions gtfs activeTripIds nowSeconds = Ok positions ->
  calculateTrainPositions gtfs' activeTripIds nowSeconds = Ok positions' ->
  map pos_trip_id positions = map pos_trip_id positions'
  /\ forall p : TrainPosition,
       In p positions ->
       trip p = JsMap.get (trips gtfs) (pos_trip_id p)
       /\ route p
          = JsMap.get (routes gtfs)
              match trip p with
              | Some tr => trip_route_id tr
              | None => ""
              end.
Proof.
  intros Hstops Htimes Hcalc Hcalc'. split.
  - rewrite calculateTrainPositions_spec in Hcalc, Hcalc'.
    injection Hcalc as <-. injection Hcalc' as <-.
    induction activeTripIds as [| t ids IH]; [reflexivity |].
    cbn [flat_map]. rewrite !map_app, IH. f_equal.
    pose proof (tripPosition_same_schedule gtfs gtfs' nowSeconds t
                  Hstops Htimes) as Hsame.
    destruct (tripPosition gtfs nowSeconds t);
      destruct (tripPosition gtfs' nowSeconds t);
      cbn in Hsame |- *; congruence.
  - intros p Hp.
    apply (In_positions _ _ _ _ _ Hcalc) in Hp. destruct Hp as [_ Hp].
    apply tripPosition_Some_inv in Hp.
    destruct Hp as (times & i & current & next & _ & _ & _ & Hseg).
    unfold segmentPosition, atStopPosition, movingPosition in Hseg.
    destruct (atStopCond nowSeconds current).
    + destruct (JsMap.get (stops gtfs) (st_stop_id current));
        [| discriminate].
      injection Hseg as <-. split; reflexivity.
    + destruct (movingCond nowSeconds current next); [| discriminate].
      destruct (JsMap.get (stops gtfs) (st_stop_id current));
        [| discriminate].
      destruct (JsMap.get (stops gtfs) (st_stop_id next)); [| discriminate].
      injection Hseg as <-. split; reflexivity.
Qed.

(** The sample leg with and without its trip and route on record. *)
Lemma lookups_only_decorate_witness :
  exists p p' : TrainPosition,
    calculateTrainPositions decoratedLegStore ["T5"] 1500 = Ok [p]
    /\ calculateTrainPositions legStore ["T5"] 1500 = Ok [p']
    /\ pos_trip_id p = pos_trip_id p'
    /\ trip p = Some (tripOf "T5" "WK") /\ route p = Some sampleRoute
    /\ trip p' = None /\ route p' = None.
Proof.
  eexists. eexists.
  split; [reflexivity |]. split; [reflexivity |].
  destruct (lookups_only_decorate decoratedLegStore legStore ["T5"] 1500 _ _
              eq_refl eq_refl
              (calculateTrainPositions_spec decoratedLegStore 1500 ["T5"])
              (calculateTrainPositions_spec legStore 1500 ["T5"]))
    as [Hids Hdeco].
  split; [exact (f_equal (fun ids => hd "" ids) Hids) |].
  repeat split.
Defined.

(* ================================================================== *)
(** ** Bearings along the compass points *)

Lemma toRad_span (a b : R) :
  (0 < b - a < 180)%R -> (0 < Finite.toRad b - Finite.toRad a < PI)%R.
Proof.
  intros H. pose proof PI_RGT_0. unfold Finite.toRad.
  replace (b * PI / 180 - a * PI / 180)%R
    with ((b - a) / 180 * PI)%R by field.
  assert (0 < (b - a) / 180 < 1)%R by lra. nra.
Qed.

(** X17. The four compass points.  Along a meridian the bearing is 0 towards
    the north and 180 towards the south; along the equator it is 90 towards
    the east and 270 towards the west (for less than half a turn); and from
    a point to itself it is 0. *)
Theorem bearing_compass_points (lat1 lat2 lon1 lon2 : R) :
  ((lat1 < lat2 < lat1 + 180)%R -> getBearing lat1 lon1 lat2 lon1 = 0%R)
  /\ ((lat2 < lat1 < lat2 + 180)%R -> getBearing lat1 lon1 lat2 lon1 = 180%R)
  /\ ((lon1 < lon2 < lon1 + 180)%R -> getBearing 0 lon1 0 lon2 = 90%R)
  /\ ((lon2 < lon1 < lon2 + 180)%R -> getBearing 0 lon1 0 lon2 = 270%R)
  /\ getBearing lat1 lon1 lat1 lon1 = 0%R.
Proof.
  pose proof PI_RGT_0 as Hpi.
  assert (Hzero : forall x : R, Finite.toRad (x - x) = 0%R)
    by (intros x; unfold Finite.toRad; field).
  assert (H360 : Finite.rem 360 360 = 0%R)
    by (rewrite rem_once; lra).
  rewrite !getBearing_finite.
  split; [intros H; f_equal; now apply getBearing_due_north |].
  split; [| split; [| split]]; try intros H; f_equal.
  - unfold Finite.getBearing. cbv zeta.
    rewrite Hzero, sin_0, cos_0, Rmult_0_l, Rmult_1_r.
    replace (cos (Finite.toRad lat1) * sin (Finite.toRad lat2)
             - sin (Finite.toRad lat1) * cos (Finite.toRad lat2))%R
      with (- sin (Finite.toRad lat1 - Finite.toRad lat2))%R by (rewrite sin_minus; ring).
    pose proof (toRad_span lat2 lat1 ltac:(lra)) as Hd.
    pose proof (sin_gt_0 _ (proj1 Hd) (proj2 Hd)) as Hs.
    unfold angleOf.
    destruct (Rlt_dec 0 (- sin (Finite.toRad lat1 - Finite.toRad lat2))); [lra |].
    destruct (Rlt_dec (- sin (Finite.toRad lat1 - Finite.toRad lat2)) 0); [| lra].
    destruct (Rle_dec 0 0); [| lra].
    unfold Rdiv at 1. rewrite Rmult_0_l, atan_0.
    replace (Finite.toDeg (0 + PI) + 360)%R with 540%R
      by (unfold Finite.toDeg; field; lra).
    rewrite rem_once; lra.
  - unfold Finite.getBearing. cbv zeta.
    replace (Finite.toRad 0) with 0%R by (unfold Finite.toRad; field).
    rewrite sin_0, cos_0.
    replace (1 * 0 - 0 * 1 * cos (Finite.toRad (lon2 - lon1)))%R with 0%R by ring.
    rewrite Rmult_1_r.
    assert (Hd : (0 < Finite.toRad (lon2 - lon1) < PI)%R).
    { unfold Finite.toRad.
      assert (0 < (lon2 - lon1) / 180 < 1)%R by lra.
      replace ((lon2 - lon1) * PI / 180)%R
        with ((lon2 - lon1) / 180 * PI)%R by field. nra. }
    pose proof (sin_gt_0 _ (proj1 Hd) (proj2 Hd)) as Hs.
    unfold angleOf.
    destruct (Rlt_dec 0 0); [lra |].
    destruct (Rlt_dec 0 (sin (Finite.toRad (lon2 - lon1)))); [| lra].
    replace (Finite.toDeg (PI / 2) + 360)%R with 450%R
      by (unfold Finite.toDeg; field; lra).
    rewrite rem_once; lra.
  - unfold Finite.getBearing. cbv zeta.
    replace (Finite.toRad 0) with 0%R by (unfold Finite.toRad; field).
    rewrite sin_0, cos_0.
    replace (1 * 0 - 0 * 1 * cos (Finite.toRad (lon2 - lon1)))%R with 0%R by ring.
    rewrite Rmult_1_r.
    assert (Hd : (0 < - Finite.toRad (lon2 - lon1) < PI)%R).
    { unfold Finite.toRad.
      assert (0 < (lon1 - lon2) / 180 < 1)%R by lra.
      replace (- ((lon2 - lon1) * PI / 180))%R
        with ((lon1 - lon2) / 180 * PI)%R by field. nra. }
    pose proof (sin_gt_0 _ (proj1 Hd) (proj2 Hd)) as Hs.
    rewrite sin_neg in Hs.
    unfold angleOf.
    destruct (Rlt_dec 0 0); [lra |].
    destruct (Rlt_dec 0 (sin (Finite.toRad (lon2 - lon1)))); [lra |].
    destruct (Rlt_dec (sin (Finite.toRad (lon2 - lon1))) 0); [| lra].
    replace (Finite.toDeg (- (PI / 2)) + 360)%R with 270%R
      by (unfold Finite.toDeg; field; lra).
    rewrite rem_below; lra.
  - unfold Finite.getBearing. cbv zeta.
    rewrite Hzero, sin_0, cos_0, Rmult_0_l, Rmult_1_r.
    replace (cos (Finite.toRad lat1) * sin (Finite.toRad lat1)
             - sin (Finite.toRad lat1) * cos (Finite.toRad lat1))%R with 0%R by ring.
    unfold angleOf.
    destruct (Rlt_dec 0 0); [lra |].
    replace (Finite.toDeg 0 + 360)%R with 360%R by (unfold Finite.toDeg; field; lra).
    exact H360.
Qed.

(* ================================================================== *)
(** ** The simulator: outside the trip window *)

(** X28. Before the first departure of a trip and after its last arrival
    the trip has no position.  So a train standing at its first stop ahead
    of its departure is not shown, and a trip of the night after, whose
    times start at 86400 or later, is never shown for a clock reading below
    86400. *)
Theorem no_position_outside_window
  (gtfs : GTFSData) (activeTripIds : list string) (nowSeconds : Z)
  (positions : list TrainPosition) (t : string) (times : list StopTime) :
  calculateTrainPositions gtfs activeTripIds nowSeconds = Ok positions ->
  JsMap.get (stopTimes gtfs) t = Some times ->
  nowSeconds < firstDeparture times \/ lastArrival times < nowSeconds ->
  forall p : TrainPosition, In p positions -> pos_trip_id p <> t.
Proof.
  intros Hcalc Ht Hout p Hp Hid.
  apply (In_positions _ _ _ _ _ Hcalc) in Hp. destruct Hp as [_ Hp].
  rewrite Hid, (outside_window_no_position gtfs nowSeconds t times Ht Hout)
    in Hp.
  discriminate.
Qed.

(** Half past midnight, read as 1800 on the clock, is before the 88200 of
    the overnight sample. *)
Lemma no_position_outside_window_witness :
  calculateTrainPositions overnightStore ["N1"] 1800 = Ok []
  /\ forall p : TrainPosition, In p [] -> pos_trip_id p <> "N1".
Proof.
  split; [reflexivity |].
  apply (no_position_outside_window overnightStore ["N1"] 1800 [] "N1"
           [stopTimeAt "N1" "A" 1 88200 88200;
            stopTimeAt "N1" "B" 2 91800 91800]);
    [reflexivity | reflexivity |].
  left. cbn. lia.
Defined.

(* ================================================================== *)
(** ** The simulation tick *)

(** The simulator only gives MOVING and AT_STOP. *)
Lemma positions_live (gtfs : GTFSData) (ids : list string) (now : Z)
  (ps : list TrainPosition) (p : TrainPosition) :
  calculateTrainPositions gtfs ids now = Ok ps ->
  In p ps -> isLive (status p) = true.
Proof.
  intros Hcalc Hp.
  apply (In_positions _ _ _ _ _ Hcalc) in Hp. destruct Hp as [_ Hp].
  apply tripPosition_Some_inv in Hp.
  destruct Hp as (times & i & current & next & _ & _ & _ & Hseg).
  apply segmentPosition_bearing in Hseg.
  destruct Hseg as [(-> & _) | (-> & _)]; reflexivity.
Qed.

(** X18. A tick never raises, leaves the selected station alone, and keeps
    the selected train on its trip: no train gets selected or unselected,
    the trip id of the selection stays, and the selection stays live when
    it was live and stays as it was when it was not.  So a selection whose
    trip has ended keeps its live status, and a scheduled one is not
    refreshed. *)
Theorem tick_keeps_selection
  (gtfsData : GTFSData) (activeTrips : list string) (timeStr : string)
  (seconds : Z) (st : AppState) :
  exists st' : AppState,
    tick gtfsData activeTrips timeStr seconds st = Ok st'
    /\ app_selectedStation st' = app_selectedStation st
    /\ match app_selectedTrain st with
       | None => app_selectedTrain st' = None
       | Some sel =>
           exists sel' : TrainPosition,
             app_selectedTrain st' = Some sel'
             /\ pos_trip_id sel' = pos_trip_id sel
             /\ isLive (status sel') = isLive (status sel)
             /\ (isLive (status sel) = false -> sel' = sel)
       end.
Proof.
  unfold tick. cbv zeta.
  destruct (List.length activeTrips =? 0)%nat.
  - eexists. split; [reflexivity |]. split; [reflexivity |].
    cbn [app_selectedTrain].
    destruct (app_selectedTrain st) as [sel |]; [| reflexivity].
    exists sel. auto.
  - pose proof (calculateTrainPositions_spec gtfsData seconds activeTrips)
      as Hcalc.
    rewrite Hcalc. cbn [bind].
    destruct (app_selectedTrain st) as [sel |] eqn:Hsel.
    + destruct (isLive (status sel)) eqn:Hlive.
      * destruct (find _ _) as [updated |] eqn:Hfind.
        -- eexists. split; [reflexivity |]. split; [reflexivity |].
           cbn [app_selectedTrain]. exists updated.
           apply find_some in Hfind. destruct Hfind as [Hin Hid].
           apply String.eqb_eq in Hid.
           rewrite (positions_live _ _ _ _ _ Hcalc Hin).
           repeat split; auto. discriminate.
        -- eexists. split; [reflexivity |]. split; [reflexivity |].
           cbn [app_selectedTrain]. exists sel. repeat split; auto.
      * eexists. split; [reflexivity |]. split; [reflexivity |].
        cbn [app_selectedTrain]. exists sel. repeat split; auto.
    + eexists. split; [reflexivity |]. split; [reflexivity |]. reflexivity.
Qed.

(** X19. Every tick writes the clock text.  With no active trips that is
    all it does: the positions and the selection stay as they were.
    Otherwise the positions become those of the simulator, and a live
    selection becomes the position the simulator has for its trip, or
    stays as it was, stale, when the simulator has none. *)
Theorem tick_refreshes_selection
  (gtfsData : GTFSData) (activeTrips : list string) (timeStr : string)
  (seconds : Z) (st : AppState) :
  (activeTrips = [] ->
   tick gtfsData activeTrips timeStr seconds st
   = Ok {| app_positions := app_positions st;
           app_currentTimeStr := timeStr;
           app_selectedTrain := app_selectedTrain st;
           app_selectedStation := app_selectedStation st |})
  /\ (forall st' : AppState,
         tick gtfsData activeTrips timeStr seconds st = Ok st' ->
         app_currentTimeStr st' = timeStr)
  /\ (activeTrips <> [] ->
      forall (ps : list TrainPosition) (st' : AppState),
        calculateTrainPositions gtfsData activeTrips seconds = Ok ps ->
        tick gtfsData activeTrips timeStr seconds st = Ok st' ->
        app_positions st' = ps
        /\ forall sel : TrainPosition,
             app_selectedTrain st = Some sel ->
             isLive (status sel) = true ->
             (forall p, In p ps -> pos_trip_id p = pos_trip_id sel ->
                        app_selectedTrain st' = Some p)
             /\ ((forall p, In p ps -> pos_trip_id p <> pos_trip_id sel) ->
                 app_selectedTrain st' = Some sel)).
Proof.
  split; [intros ->; reflexivity |]. split.
  { intros st'. unfold tick. cbv zeta.
    destruct (List.length activeTrips =? 0)%nat;
      [intros H; injection H as <-; reflexivity |].
    rewrite (calculateTrainPositions_spec gtfsData seconds activeTrips).
    cbn [bind].
    destruct (app_selectedTrain st) as [sel |];
      [| intros H; injection H as <-; reflexivity].
    destruct (isLive (status sel));
      [| intros H; injection H as <-; reflexivity].
    destruct (find _ _); intros H; injection H as <-; reflexivity. }
  intros Hne ps st' Hcalc. unfold tick. cbv zeta.
  replace (List.length activeTrips =? 0)%nat with false
    by (destruct activeTrips; [contradiction | reflexivity]).
  rewrite Hcalc. cbn [bind].
  destruct (app_selectedTrain st) as [sel |] eqn:Hsel.
  - destruct (isLive (status sel)) eqn:Hlive.
    + destruct (find _ ps) as [updated |] eqn:Hfind.
      * intros H. injection H as <-. split; [reflexivity |].
        intros sel0 H0 _. injection H0 as <-.
        apply find_some in Hfind. destruct Hfind as [Hin Hid].
        apply String.eqb_eq in Hid. cbn [app_selectedTrain]. split.
        -- intros p Hp Hpid.
           apply (In_positions _ _ _ _ _ Hcalc) in Hp. destruct Hp as [_ Hp].
           apply (In_positions _ _ _ _ _ Hcalc) in Hin.
           destruct Hin as [_ Hu].
           rewrite Hpid in Hp. rewrite Hid in Hu. congruence.
        -- intros Hnone. destruct (Hnone updated Hin Hid).
      * intros H. injection H as <-. split; [reflexivity |].
        intros sel0 H0 _. injection H0 as <-. cbn [app_selectedTrain]. split.
        -- intros p Hp Hpid.
           apply (find_none _ _ Hfind) in Hp.
           apply String.eqb_neq in Hp. contradiction.
        -- reflexivity.
    + intros H. injection H as <-. split; [reflexivity |].
      intros sel0 H0 Hl. injection H0 as <-. congruence.
  - intros H. injection H as <-. split; [reflexivity |].
    intros sel0 H0. discriminate.
Qed.

(** X20. Every position the simulator returns gets a marker on the map,
    whichever train is selected. *)
Theorem simulator_positions_get_markers
  (gtfs : GTFSData) (activeTripIds : list string) (nowSeconds : Z)
  (positions : list TrainPosition) (selectedTrain : option TrainPosition) :
  calculateTrainPositions gtfs activeTripIds nowSeconds = Ok positions ->
  forallb (rendersMarker selectedTrain) positions = true.
Proof.
  intros Hcalc. apply forallb_forall. intros p Hp.
  pose proof (positions_live _ _ _ _ _ Hcalc Hp) as Hlive.
  unfold rendersMarker. cbv zeta.
  destruct (status p); try reflexivity; discriminate.
Qed.

Lemma simulator_positions_get_markers_witness :
  exists positions : list TrainPosition,
    calculateTrainPositions legStore ["T5"] 1500 = Ok positions
    /\ List.length positions = 1%nat
    /\ forallb (rendersMarker None) positions = true.
Proof.
  eexists. split; [reflexivity |]. split; [reflexivity |].
  apply (simulator_positions_get_markers legStore ["T5"] 1500 _ None).
  apply calculateTrainPositions_spec.
Defined.
(* ================================================================== *)
(** ** The search *)

Lemma findM_Some (A : Type) (pred : A -> result bool) (l : list A) (x : A) :
  findM pred l = Ok (Some x) ->
  exists l1 l2 : list A,
    l = l1 ++ x :: l2
    /\ pred x = Ok true
    /\ forall y : A, In y l1 -> pred y = Ok false.
Proof.
  induction l as [| a l IH]; cbn [findM]; [discriminate |].
  destruct (pred a) as [[|] |] eqn:Ha; cbn [bind]; [| | discriminate].
  - intros H. injection H as <-. exists [], l.
    split; [reflexivity |]. split; [exact Ha |]. intros y [].
  - intros H. destruct (IH H) as (l1 & l2 & -> & Hx & Hl1).
    exists (a :: l1), l2. split; [reflexivity |]. split; [exact Hx |].
    intros y [<- | Hy]; [exact Ha | now apply Hl1].
Qed.

Lemma findM_None (A : Type) (pred : A -> result bool) (l : list A) :
  findM pred l = Ok None <-> forall y : A, In y l -> pred y = Ok false.
Proof.
  induction l as [| a l IH]; cbn [findM].
  - split; [intros _ y [] | reflexivity].
  - destruct (pred a) as [[|] |] eqn:Ha; cbn [bind].
    + split; [discriminate |].
      intros H. specialize (H a (or_introl eq_refl)). congruence.
    + rewrite IH. split.
      * intros H y [<- | Hy]; [exact Ha | now apply H].
      * intros H y Hy. apply H. now right.
    + split; [discriminate |].
      intros H. specialize (H a (or_introl eq_refl)). congruence.
Qed.

Lemma findM_first (A : Type) (pred : A -> result bool) (l1 l2 : list A)
  (x : A) :
  (forall y : A, In y l1 -> pred y = Ok false) ->
  pred x = Ok true ->
  findM pred (l1 ++ x :: l2) = Ok (Some x).
Proof.
  induction l1 as [| a l1 IH]; intros Hl1 Hx; cbn [app findM].
  - now rewrite Hx.
  - rewrite (Hl1 a (or_introl eq_refl)). cbn [bind].
    apply IH; [| exact Hx]. intros y Hy. apply Hl1. now right.
Qed.


Section SearchFacts.

Variable toLowerCase : string -> string.




(** X22. A search never touches the positions, and either leaves the
    selection as it was or selects one thing and clears the other: a station
    of the stops table; or a train that is one of the current positions; or
    a placeholder for a trip of the trips table, SCHEDULED, with bearing 0
    and no neighbouring stops, at the coordinates of the first stop of that
    trip. *)
Theorem search_selects_one (gtfsData : option GTFSData) (searchTerm : string)
  (st : AppState) (outcome : SearchOutcome) :
  handleSearch toLowerCase gtfsData searchTerm st = Ok outcome ->
  app_positions (after outcome) = app_positions st
  /\ (after outcome = st
      \/ (app_selectedTrain (after outcome) = None
          /\ exists (gtfs : GTFSData) (stop : Stop),
               gtfsData = Some gtfs
               /\ In stop (JsMap.values (stops gtfs))
               /\ app_selectedStation (after outcome) = Some stop)
      \/ (app_selectedStation (after outcome) = None
          /\ exists p : TrainPosition,
               app_selectedTrain (after outcome) = Some p
               /\ (In p (app_positions st)
                   \/ (status p = SCHEDULED /\ bearing p = 0%R
                       /\ prevStop p = None /\ nextStop p = None
                       /\ exists (gtfs : GTFSData) (tr : Trip)
                                 (first : StopTime) (rest : list StopTime)
                                 (stop : Stop),
                            gtfsData = Some gtfs
                            /\ In tr (JsMap.values (trips gtfs))
                            /\ trip p = Some tr
                            /\ pos_trip_id p = trip_id tr
                            /\ JsMap.get (stopTimes gtfs) (trip_id tr)
                               = Some (first :: rest)
                            /\ JsMap.get (stops gtfs) (st_stop_id first)
                               = Some stop
                            /\ lat p = stop_lat stop
                            /\ lng p = stop_lon stop)))).
Proof.
  unfold handleSearch.
  destruct (String.eqb (trim searchTerm) "");
    [intros H; injection H as <-; auto |].
  destruct gtfsData as [gtfs |]; [| intros H; injection H as <-; auto].
  cbv zeta.
  destruct (findM _ (JsMap.values (stops gtfs))) as [[foundStop |] |]
    eqn:Hstop; cbn [bind]; [| | discriminate].
  { intros H. injection H as <-. split; [reflexivity |]. right. left.
    split; [reflexivity |]. exists gtfs, foundStop.
    apply findM_Some in Hstop. destruct Hstop as (l1 & l2 & -> & _).
    split; [reflexivity |]. split; [| reflexivity].
    apply in_or_app. right. now left. }
  destruct (findM _ (app_positions st)) as [[foundLive |] |] eqn:Hlive;
    cbn [bind]; [| | discriminate].
  { intros H. injection H as <-. split; [reflexivity |]. right. right.
    split; [reflexivity |]. exists foundLive.
    split; [reflexivity |]. left.
    apply findM_Some in Hlive. destruct Hlive as (l1 & l2 & -> & _).
    apply in_or_app. right. now left. }
  destruct (findM _ (JsMap.values (trips gtfs))) as [[foundTrip |] |]
    eqn:Htrip; cbn [bind];
    [| intros H; injection H as <-; auto | discriminate].
  destruct (JsMap.get (stopTimes gtfs) (trip_id foundTrip)) as [times |]
    eqn:Htimes; cbn [bind]; [| intros H; injection H as <-; auto].
  destruct times as [| first rest]; [discriminate |].
  cbn [nth_error prop bind].
  destruct (JsMap.get (stops gtfs) (st_stop_id first)) as [stop |] eqn:Hfirst;
    [| intros H; injection H as <-; auto].
  intros H. injection H as <-. split; [reflexivity |]. right. right.
  split; [reflexivity |]. eexists. split; [reflexivity |]. right.
  cbn [status bearing prevStop nextStop trip pos_trip_id lat lng].
  repeat (split; [reflexivity |]).
  exists gtfs, foundTrip, first, rest, stop.
  apply findM_Some in Htrip. destruct Htrip as (l1 & l2 & Hl & _).
  rewrite Hl. repeat split; auto.
  apply in_or_app. right. now left.
Qed.

(** X23. A search that returns raises its alert exactly when the term is
    not blank and matches no stop, no current position and no trip; the
    alert names the term, and the state is then as before.  A blank term
    changes nothing and raises no alert.  And when the term matches no stop
    and no position, and the first trip of the table that it matches has no
    first stop on record (no stop times, or a first stop id that the stops
    table does not have), the search selects nothing and raises no alert
    either. *)
Theorem search_alerts_when_nothing_matches
  (gtfs : GTFSData) (searchTerm : string) (st : AppState)
  (outcome : SearchOutcome) :
  handleSearch toLowerCase (Some gtfs) searchTerm st = Ok outcome ->
  let term := toLowerCase searchTerm in
  let noStop :=
    forall s : Stop,
      In s (JsMap.values (stops gtfs)) ->
      stopMatches toLowerCase term s = Ok false in
  let noPosition :=
    forall p : TrainPosition,
      In p (app_positions st) ->
      positionMatches toLowerCase term p = Ok false in
  (alerted outcome <> None
   <-> String.eqb (trim searchTerm) "" = false
       /\ noStop /\ noPosition
       /\ forall t : Trip,
            In t (JsMap.values (trips gtfs)) ->
            tripMatches toLowerCase term t = Ok false)
  /\ (alerted outcome <> None ->
      after outcome = st
      /\ alerted outcome
         = Some ("No station or train found matching: " ++ searchTerm)%string)
  /\ (String.eqb (trim searchTerm) "" = true ->
      after outcome = st /\ alerted outcome = None)
  /\ (forall (tr : Trip) (before rest : list Trip),
         String.eqb (trim searchTerm) "" = false ->
         noStop -> noPosition ->
         JsMap.values (trips gtfs) = before ++ tr :: rest ->
         (forall t : Trip,
             In t before -> tripMatches toLowerCase term t = Ok false) ->
         tripMatches toLowerCase term tr = Ok true ->
         (JsMap.get (stopTimes gtfs) (trip_id tr) = None
          \/ exists (first : StopTime) (others : list StopTime),
               JsMap.get (stopTimes gtfs) (trip_id tr)
               = Some (first :: others)
               /\ JsMap.get (stops gtfs) (st_stop_id first) = None) ->
         after outcome = st /\ alerted outcome = None).
Proof.
  intros Hsearch term noStop noPosition. subst noStop noPosition.
  unfold handleSearch in Hsearch. fold term in Hsearch.
  destruct (String.eqb (trim searchTerm) "") eqn:Hblank.
  { injection Hsearch as <-. cbn [alerted after].
    split; [split; [intros H; now destruct H | intros [H _]; discriminate] |].
    split; [intros H; now destruct H |].
    split; [auto |]. intros; discriminate. }
  split; [| split; [| split; [discriminate |]]].
  - rewrite <- !findM_None.
    destruct (findM _ (JsMap.values (stops gtfs))) as [[foundStop |] |];
      cbn [bind] in Hsearch; [| | discriminate].
    { injection Hsearch as <-. cbn [alerted].
      split; [intros H; now destruct H
             | intros (_ & H & _); discriminate]. }
    destruct (findM _ (app_positions st)) as [[foundLive |] |];
      cbn [bind] in Hsearch; [| | discriminate].
    { injection Hsearch as <-. cbn [alerted].
      split; [intros H; now destruct H
             | intros (_ & _ & H & _); discriminate]. }
    destruct (findM _ (JsMap.values (trips gtfs))) as [[foundTrip |] |];
      cbn [bind] in Hsearch; [| | discriminate].
    + assert (Hquiet : alerted outcome = None).
      { destruct (JsMap.get (stopTimes gtfs) (trip_id foundTrip))
          as [times |]; cbn [bind] in Hsearch.
        - destruct times as [| first rest]; [discriminate |].
          cbn [nth_error prop bind] in Hsearch.
          destruct (JsMap.get (stops gtfs) (st_stop_id first));
            now injection Hsearch as <-.
        - now injection Hsearch as <-. }
      rewrite Hquiet.
      split; [intros H; now destruct H
             | intros (_ & _ & _ & H); discriminate].
    + injection Hsearch as <-. cbn [alerted].
      split; [intros _; auto | discriminate].
  - destruct (findM _ (JsMap.values (stops gtfs))) as [[foundStop |] |];
      cbn [bind] in Hsearch; [| | discriminate].
    { injection Hsearch as <-. intros H. now destruct H. }
    destruct (findM _ (app_positions st)) as [[foundLive |] |];
      cbn [bind] in Hsearch; [| | discriminate].
    { injection Hsearch as <-. intros H. now destruct H. }
    destruct (findM _ (JsMap.values (trips gtfs))) as [[foundTrip |] |];
      cbn [bind] in Hsearch; [| | discriminate].
    + destruct (JsMap.get (stopTimes gtfs) (trip_id foundTrip))
        as [times |]; cbn [bind] in Hsearch.
      * destruct times as [| first rest]; [discriminate |].
        cbn [nth_error prop bind] in Hsearch.
        destruct (JsMap.get (stops gtfs) (st_stop_id first));
          injection Hsearch as <-; intros H; now destruct H.
      * injection Hsearch as <-. intros H. now destruct H.
    + injection Hsearch as <-. intros _. split; reflexivity.
  - intros tr before rest _ HnoStop HnoPos Hsplit Hbefore Htr Hunresolved.
    apply findM_None in HnoStop. apply findM_None in HnoPos.
    rewrite HnoStop in Hsearch. cbn [bind] in Hsearch.
    rewrite HnoPos in Hsearch. cbn [bind] in Hsearch.
    rewrite Hsplit, (findM_first _ _ before rest tr Hbefore Htr) in Hsearch.
    cbn [bind] in Hsearch.
    destruct Hunresolved as [Hnone | (first & others & Hsome & Hstop)].
    + rewrite Hnone in Hsearch. cbn [bind] in Hsearch.
      injection Hsearch as <-. split; reflexivity.
    + rewrite Hsome in Hsearch. cbn [nth_error prop bind] in Hsearch.
      rewrite Hstop in Hsearch. injection Hsearch as <-. split; reflexivity.
Qed.

End SearchFacts.


(** The search for train 03102, which is not running: a SCHEDULED
    placeholder at Alpha, the first stop of its trip. *)
Lemma search_selects_one_witness :
  exists (outcome : SearchOutcome) (p : TrainPosition),
    handleSearch lowerCaseAscii (Some searchStore) "03102" idleState
    = Ok outcome
    /\ app_selectedTrain (after outcome) = Some p
    /\ app_selectedStation (after outcome) = None
    /\ app_positions (after outcome) = []
    /\ status p = SCHEDULED /\ lat p = stop_lat stopA.
Proof.
  eexists. eexists. split; [reflexivity |].
  destruct (search_selects_one lowerCaseAscii (Some searchStore) "03102"
              idleState _ eq_refl) as [Hpos _].
  split; [reflexivity |]. split; [reflexivity |].
  split; [exact Hpos |]. split; reflexivity.
Defined.

(** "nowhere" matches no stop, position or trip of the sample store: the
    alert is raised and the state is as before.  A term of one no-break
    space is blank: nothing happens.  And "ghost" matches only a trip that
    has no stop times: nothing is selected, and no alert is raised. *)
Lemma search_alerts_when_nothing_matches_witness :
  (exists outcome : SearchOutcome,
      handleSearch lowerCaseAscii (Some searchStore) "nowhere" idleState
      = Ok outcome
      /\ alerted outcome
         = Some "No station or train found matching: nowhere"
      /\ after outcome = idleState)
  /\ (exists outcome : SearchOutcome,
         handleSearch lowerCaseAscii (Some searchStore) noBreakSpace idleState
         = Ok outcome
         /\ alerted outcome = None /\ after outcome = idleState)
  /\ (exists outcome : SearchOutcome,
         handleSearch lowerCaseAscii (Some ghostTripStore) "ghost" idleState
         = Ok outcome
         /\ alerted outcome = None /\ after outcome = idleState).
Proof.
  split; [| split].
  - eexists. split; [reflexivity |].
    destruct (search_alerts_when_nothing_matches lowerCaseAscii searchStore
                "nowhere" idleState _ eq_refl) as (Hiff & Hsame & _).
    assert (Halert : alerted
                       (mkSearchOutcome idleState
                          (Some "No station or train found matching: nowhere"))
                     <> None).
    { apply Hiff. split; [reflexivity |]. split; [| split].
      - intros s [<- | [<- | [<- | []]]]; reflexivity.
      - intros p [].
      - intros t [<- | []]; reflexivity. }
    destruct (Hsame Halert) as [Hst Hal]. split; [exact Hal | exact Hst].
  - eexists. split; [reflexivity |].
    destruct (search_alerts_when_nothing_matches lowerCaseAscii searchStore
                noBreakSpace idleState _ eq_refl) as (_ & _ & Hblank & _).
    destruct (Hblank eq_refl) as [Hst Hal]. split; [exact Hal | exact Hst].
  - eexists. split; [reflexivity |].
    destruct (search_alerts_when_nothing_matches lowerCaseAscii ghostTripStore
                "ghost" idleState _ eq_refl) as (_ & _ & _ & Hquiet).
    destruct (Hquiet (mkTrip "R1" "WK" "G1" (Some "Ghost") None None) [] [])
      as [Hst Hal]; try reflexivity.
    + intros s [<- | [<- | [<- | []]]]; reflexivity.
    + intros p [].
    + intros t [].
    + now left.
    + split; [exact Hal | exact Hst].
Defined.

(* ================================================================== *)
(** ** From the files to the resolver *)

(** X24. With the exceptions loaded from [calendar_dates.txt], the final
    membership of a service is the rule scan's, with the rows of that
    service replayed over it in file order; the rows of other services play
    no part. *)
Theorem loaded_exceptions_replayed
  (gtfs : GTFSData) (calendarDatesRaw : list CalendarDate) (d : Date)
  (s : string) :
  calendarDates gtfs = Some (parseCalendarDates calendarDatesRaw) ->
  JsSet.has (activeServiceIds gtfs d) s
  = fold_left (memberAfterException (dateStr d))
      (filter (fun cd => String.eqb (cd_service_id cd) s) calendarDatesRaw)
      (JsSet.has (checkStandardCalendar gtfs d) s).
Proof.
  intros Hcds.
  rewrite (activeServiceIds_has gtfs d _ s Hcds
             (parseCalendarDates_wf calendarDatesRaw)).
  rewrite parseCalendarDates_get.
  now destruct (filter (fun cd => String.eqb (cd_service_id cd) s)
                  calendarDatesRaw).
Qed.

(** The sample file interleaves the rows of WK and EXTRA. *)
Lemma loaded_exceptions_replayed_witness :
  filter (fun cd => String.eqb (cd_service_id cd) "EXTRA") conflictingRows
  = [mkCalendarDate "EXTRA" "20240103" "2";
     mkCalendarDate "EXTRA" "20240103" "1"]
  /\ JsSet.has (activeServiceIds (calendarStore conflictingRows) jan3) "EXTRA"
     = true.
Proof.
  split; [reflexivity |].
  rewrite (loaded_exceptions_replayed (calendarStore conflictingRows)
             conflictingRows jan3 "EXTRA" eq_refl).
  reflexivity.
Defined.

(** X25. The date keys of two dates of year 0 or later compare as the dates
    do: by year, then month, then day. *)
Theorem date_keys_chronological (d1 d2 : Date) :
  0 <= getFullYear d1 -> 0 <= getMonth d1 <= 11 -> 1 <= getDate d1 <= 31 ->
  0 <= getFullYear d2 -> 0 <= getMonth d2 <= 11 -> 1 <= getDate d2 <= 31 ->
  exists n1 n2 : Z,
    dateInt d1 = Some n1 /\ dateInt d2 = Some n2
    /\ (n1 < n2 <->
        getFullYear d1 < getFullYear d2
        \/ (getFullYear d1 = getFullYear d2
            /\ (getMonth d1 < getMonth d2
                \/ (getMonth d1 = getMonth d2 /\ getDate d1 < getDate d2))))
    /\ (n1 = n2 <->
        getFullYear d1 = getFullYear d2 /\ getMonth d1 = getMonth d2
        /\ getDate d1 = getDate d2).
Proof.
  intros Hy1 Hm1 Hd1 Hy2 Hm2 Hd2.
  destruct (dateInt_formula d1 Hy1 Hm1 Hd1) as [E1 _].
  destruct (dateInt_formula d2 Hy2 Hm2 Hd2) as [E2 _].
  eexists. eexists. split; [exact E1 |]. split; [exact E2 |].
  split; lia.
Qed.

Lemma date_keys_chronological_witness :
  exists n1 n2 : Z,
    dateInt dec31 = Some n1 /\ dateInt jan1 = Some n2 /\ n1 < n2.
Proof.
  destruct (date_keys_chronological dec31 jan1) as (n1 & n2 & E1 & E2 & Hlt & _);
    try (cbn; lia).
  exists n1, n2. split; [exact E1 |]. split; [exact E2 |].
  apply Hlt. left. cbn. lia.
Defined.

Lemma uniqueb_NoDup (l : list string) : JsMap.uniqueb l = true -> NoDup l.
Proof.
  induction l as [| k l IH]; cbn [JsMap.uniqueb]; intros H; constructor.
  - apply andb_prop in H. destruct H as [Hk _].
    apply negb_true_iff in Hk. intros Hin.
    assert (Hex : existsb (String.eqb k) l = true).
    { apply existsb_exists. exists k. split; [exact Hin |].
      apply String.eqb_refl. }
    congruence.
  - apply andb_prop in H. now apply IH.
Qed.

Lemma set_keeps_keyed (V : Type) (key : V -> string) (m : JsMap.Map V)
  (v : V) :
  Forall (fun kv => key (snd kv) = fst kv) m ->
  Forall (fun kv => key (snd kv) = fst kv) (JsMap.set m (key v) v).
Proof.
  induction m as [| [k0 v0] m IH]; cbn [JsMap.set]; intros H.
  - constructor; [reflexivity | constructor].
  - inversion H as [| kv l Hkv Hl]. subst.
    destruct (String.eqb k0 (key v)); constructor; auto.
Qed.

(** Every row of a table filled by [indexRows] sits under its own id. *)
Lemma indexRows_values_keys (V : Type) (key : V -> string) (rows : list V) :
  map key (JsMap.values (indexRows key rows))
  = JsMap.keys (indexRows key rows).
Proof.
  assert (H : Forall (fun kv => key (snd kv) = fst kv) (indexRows key rows)).
  { unfold indexRows.
    assert (Hgen : forall m,
               Forall (fun kv => key (snd kv) = fst kv) m ->
               Forall (fun kv => key (snd kv) = fst kv)
                 (fold_left (fun table r => JsMap.set table (key r) r)
                    rows m)).
    { induction rows as [| r rows IH]; intros m Hm; cbn [fold_left];
        [exact Hm |].
      apply IH. now apply set_keeps_keyed. }
    apply Hgen. constructor. }
  unfold JsMap.values, JsMap.keys. rewrite map_map.
  induction H as [| kv m Hkv Hm IH]; cbn [map]; [reflexivity |].
  now rewrite Hkv, IH.
Qed.

Lemma loaded_trips_NoDup (gtfs : GTFSData) (tripsRaw : list Trip) (d : Date) :
  trips gtfs = parseTrips tripsRaw ->
  NoDup (getActiveTripsForToday gtfs d).
Proof.
  intros Htrips. rewrite getActiveTripsForToday_spec, Htrips.
  apply filter_map_NoDup. unfold parseTrips.
  rewrite indexRows_values_keys. apply uniqueb_NoDup.
  apply indexRows_wf.
Qed.

(** X26. With the trips table loaded from [trips.txt], the resolver returns
    no trip id twice, whatever ids the file repeats. *)
Theorem loaded_trips_returned_once
  (gtfs : GTFSData) (tripsRaw : list Trip) (d : Date) :
  trips gtfs = parseTrips tripsRaw ->
  NoDup (getActiveTripsForToday gtfs d).
Proof. apply loaded_trips_NoDup. Qed.

Lemma positions_ids (gtfs : GTFSData) (now : Z) (ids : list string) :
  map pos_trip_id (flat_map (fun t => pushed (tripPosition gtfs now t)) ids)
  = filter (fun t => match tripPosition gtfs now t with
                     | Some _ => true
                     | None => false
                     end) ids.
Proof.
  induction ids as [| t ids IH]; [reflexivity |].
  cbn [flat_map filter]. rewrite map_app, IH.
  destruct (tripPosition gtfs now t) as [p |] eqn:Hp; [| reflexivity].
  cbn [pushed map app]. now rewrite (tripPosition_trip_id _ _ _ _ Hp).
Qed.

(** X27. The simulator keeps trip ids distinct: for ids given once each, no
    two positions carry the same trip id.  So in the application, where the
    ids come from the resolver and the trips table from [trips.txt], every
    position has a trip id of its own. *)
Theorem positions_distinct_trips
  (gtfs : GTFSData) (nowSeconds : Z) :
  (forall (activeTripIds : list string) (positions : list TrainPosition),
      NoDup activeTripIds ->
      calculateTrainPositions gtfs activeTripIds nowSeconds = Ok positions ->
      NoDup (map pos_trip_id positions))
  /\ (forall (tripsRaw : list Trip) (d : Date)
             (positions : list TrainPosition),
         trips gtfs = parseTrips tripsRaw ->
         calculateTrainPositions gtfs (getActiveTripsForToday gtfs d)
           nowSeconds = Ok positions ->
         NoDup (map pos_trip_id positions)).
Proof.
  assert (Hgen : forall ids ps,
             NoDup ids ->
             calculateTrainPositions gtfs ids nowSeconds = Ok ps ->
             NoDup (map pos_trip_id ps)).
  { intros ids ps Hnd Hcalc.
    rewrite calculateTrainPositions_spec in Hcalc. injection Hcalc as <-.
    rewrite positions_ids. now apply NoDup_filter. }
  split; [exact Hgen |].
  intros tripsRaw d ps Htrips Hcalc.
  apply (Hgen _ _ (loaded_trips_NoDup gtfs tripsRaw d Htrips) Hcalc).
Qed.

(** w1 is on two rows of the sample [trips.txt] and is returned once. *)
Lemma loaded_trips_returned_once_witness :
  getActiveTripsForToday loadedTripsStore jan2 = ["w1"]
  /\ NoDup (getActiveTripsForToday loadedTripsStore jan2).
Proof.
  split; [reflexivity |].
  apply (loaded_trips_returned_once loadedTripsStore repeatedTripRows jan2).
  reflexivity.
Defined.
